(** * blpapi-python: the element-to-Python bridge of [src/blpapi/ffi_utils.c]

    A shallow embedding of the C file.  The file talks to two foreign
    worlds, and both are made explicit:

    - the native BLPAPI element tree, read through accessor calls; an
      element is a record of what each accessor answers, and every
      accessor call is appended to a trace;
    - the CPython run time: a heap of reference-counted objects, the error
      indicator, [sys.modules], and the three function-local statics of
      [getScalarValue].

    The C functions are state transformers over that world, written in a
    small state monad.  A [NULL] result is [None].

    Conventions.  Object constructors of the C-API never report memory
    exhaustion here (they still return an option, and the callers keep
    their [NULL] tests), and the text the native side hands out is valid
    UTF-8, so that [PyUnicode_FromString] succeeds on it.  Releasing a
    reference to an object that is no longer in the heap is undefined
    behaviour in C; the model records the address in [faults] and changes
    nothing else.  Value indices and counts are natural numbers. *)

From Stdlib Require Import ZArith Floats.SpecFloat.
From stdpp Require Import gmap strings list fin_maps.

Set Default Proof Using "Type".

(** ** Native side: schema-described elements *)

(** The datatype tags of [blpapi_types.h] that the switch of
    [getScalarValue] names; every other value of the [int] tag is
    [BLPAPI_DATATYPE_unlisted]. *)
Inductive Datatype : Type :=
  | BLPAPI_DATATYPE_BOOL
  | BLPAPI_DATATYPE_CHAR
  | BLPAPI_DATATYPE_BYTE
  | BLPAPI_DATATYPE_INT32
  | BLPAPI_DATATYPE_INT64
  | BLPAPI_DATATYPE_FLOAT32
  | BLPAPI_DATATYPE_FLOAT64
  | BLPAPI_DATATYPE_STRING
  | BLPAPI_DATATYPE_BYTEARRAY
  | BLPAPI_DATATYPE_DATE
  | BLPAPI_DATATYPE_TIME
  | BLPAPI_DATATYPE_DATETIME
  | BLPAPI_DATATYPE_ENUMERATION
  | BLPAPI_DATATYPE_SEQUENCE
  | BLPAPI_DATATYPE_CHOICE
  | BLPAPI_DATATYPE_unlisted (tag : Z).

(** [blpapi_Datetime_t]: [parts], [hours], [minutes], [seconds], [month]
    and [day] are unsigned 8-bit fields, [milliSeconds] and [year] unsigned
    16-bit, [offset] signed 16-bit. *)
Record blpapi_Datetime_t : Type := {
  parts : Z;
  hours : Z;
  minutes : Z;
  seconds : Z;
  milliSeconds : Z;
  month : Z;
  day : Z;
  year : Z;
  offset : Z
}.

(** [blpapi_HighPrecisionDatetime_t]; [picoseconds] is unsigned 32-bit. *)
Record blpapi_HighPrecisionDatetime_t : Type := {
  datetime : blpapi_Datetime_t;
  picoseconds : Z
}.

Record blpapi_SchemaTypeDefinition_t : Type := {
  st_isComplexType : bool
}.

Record blpapi_SchemaElementDefinition_t : Type := {
  sd_type : blpapi_SchemaTypeDefinition_t
}.

(** An element is what its accessors answer.  A per-value accessor
    answers [None] when the native call reports a non-zero status. *)
#[local] Unset Elimination Schemes.
Inductive blpapi_Element_t : Type := Build_Element {
  el_nameString : string;
  el_datatype : Datatype;
  el_isComplexType : bool;
  el_isArray : bool;
  el_isNull : bool;
  el_numValues : nat;
  el_numElements : nat;
  el_definition : blpapi_SchemaElementDefinition_t;
  el_getValueAsBool : nat → option Z;
  el_getValueAsInt64 : nat → option Z;
  el_getValueAsFloat64 : nat → option spec_float;
  el_getValueAsString : nat → option string;
  el_getValueAsBytes : nat → option (list Byte.byte);
  el_getValueAsHighPrecisionDatetime : nat → option blpapi_HighPrecisionDatetime_t;
  el_getValueAsElement : nat → option blpapi_Element_t;
  el_getElementAt : nat → option blpapi_Element_t
}.
#[local] Set Elimination Schemes.

(** The native calls the C file makes on an element. *)
Inductive NativeCall : Type :=
  | N_datatype
  | N_isComplexType
  | N_isArray
  | N_isNull
  | N_numValues
  | N_numElements
  | N_nameString
  | N_definition
  | N_SchemaElementDefinition_type
  | N_SchemaTypeDefinition_isComplexType
  | N_getValueAsBool (index : nat)
  | N_getValueAsInt64 (index : nat)
  | N_getValueAsFloat64 (index : nat)
  | N_getValueAsString (index : nat)
  | N_getValueAsBytes (index : nat)
  | N_getValueAsHighPrecisionDatetime (index : nat)
  | N_getValueAsElement (index : nat)
  | N_getElementAt (index : nat).

(** ** Python side: objects, heap, error indicator *)

(** Addresses of Python objects. *)
Abbreviation loc := nat.

Inductive PyExc : Type :=
  | PyExc_Exception
  | PyExc_ImportError
  | PyExc_AttributeError
  | PyExc_TypeError
  | PyExc_IndexError
  | PyExc_SystemError
  | PyExc_ValueError.

Record PyErr : Type := { exc_type : PyExc; exc_msg : string }.

Inductive PyBody : Type :=
  | PyNone
  | PyBool (b : bool)
  | PyLong (z : Z)
  | PyFloat (f : spec_float)
  | PyUnicode (s : string)
  | PyBytes (bs : list Byte.byte)
  | PyList (items : list (option loc))
  | PyDict (entries : gmap string loc)
  | PyNamespace (attrs : gmap string loc)
  | PyFunction (f : list Z → PyErr + list Z)
  | PyTemporal (fields : list Z).

Record PyObject : Type := { ob_refcnt : Z; ob_body : PyBody }.

(** The references an object holds, released when it is deallocated. *)
Definition children (b : PyBody) : list loc :=
  match b with
  | PyList items => omap id items
  | PyDict entries => (map_to_list entries).*2
  | PyNamespace attrs => (map_to_list attrs).*2
  | _ => []
  end.

(** The three singletons [_Py_NoneStruct], [_Py_TrueStruct] and
    [_Py_FalseStruct] live at fixed addresses. *)
Definition Py_None : loc := 0.
Definition Py_True : loc := 1.
Definition Py_False : loc := 2.

Inductive Event : Type :=
  | Native (element : blpapi_Element_t) (call : NativeCall)
  | Import (name : string)
  | GetAttr (o : loc) (name : string)
  | Call (callable : loc) (args : list Z).

(** [blpapi_ManagedPtr_t]: the raw object pointer and the manager-function
    pointer (a code address). *)
Record blpapi_ManagedPtr_t : Type := {
  pointer : option loc;
  manager : Z
}.

Record State : Type := {
  heap : gmap loc PyObject;
  next_loc : loc;
  err : option PyErr;
  faults : list loc;
  sys_modules : gmap string loc;
  blpapiDatetimeModule : option loc;
  datetimeUtil : option loc;
  convertToPyTime : option loc;
  gil : nat;
  native_mem : gmap Z blpapi_ManagedPtr_t;
  trace : list Event
}.

Definition set_heap (f : gmap loc PyObject → gmap loc PyObject) (st : State) : State :=
  {| heap := f (heap st); next_loc := next_loc st; err := err st;
     faults := faults st; sys_modules := sys_modules st;
     blpapiDatetimeModule := blpapiDatetimeModule st;
     datetimeUtil := datetimeUtil st; convertToPyTime := convertToPyTime st;
     gil := gil st; native_mem := native_mem st; trace := trace st |}.

Definition set_next_loc (n : loc) (st : State) : State :=
  {| heap := heap st; next_loc := n; err := err st;
     faults := faults st; sys_modules := sys_modules st;
     blpapiDatetimeModule := blpapiDatetimeModule st;
     datetimeUtil := datetimeUtil st; convertToPyTime := convertToPyTime st;
     gil := gil st; native_mem := native_mem st; trace := trace st |}.

Definition set_err (e : option PyErr) (st : State) : State :=
  {| heap := heap st; next_loc := next_loc st; err := e;
     faults := faults st; sys_modules := sys_modules st;
     blpapiDatetimeModule := blpapiDatetimeModule st;
     datetimeUtil := datetimeUtil st; convertToPyTime := convertToPyTime st;
     gil := gil st; native_mem := native_mem st; trace := trace st |}.

Definition add_fault (l : loc) (st : State) : State :=
  {| heap := heap st; next_loc := next_loc st; err := err st;
     faults := faults st ++ [l]; sys_modules := sys_modules st;
     blpapiDatetimeModule := blpapiDatetimeModule st;
     datetimeUtil := datetimeUtil st; convertToPyTime := convertToPyTime st;
     gil := gil st; native_mem := native_mem st; trace := trace st |}.

Definition set_blpapiDatetimeModule (p : option loc) (st : State) : State :=
  {| heap := heap st; next_loc := next_loc st; err := err st;
     faults := faults st; sys_modules := sys_modules st;
     blpapiDatetimeModule := p;
     datetimeUtil := datetimeUtil st; convertToPyTime := convertToPyTime st;
     gil := gil st; native_mem := native_mem st; trace := trace st |}.

Definition set_datetimeUtil (p : option loc) (st : State) : State :=
  {| heap := heap st; next_loc := next_loc st; err := err st;
     faults := faults st; sys_modules := sys_modules st;
     blpapiDatetimeModule := blpapiDatetimeModule st;
     datetimeUtil := p; convertToPyTime := convertToPyTime st;
     gil := gil st; native_mem := native_mem st; trace := trace st |}.

Definition set_convertToPyTime (p : option loc) (st : State) : State :=
  {| heap := heap st; next_loc := next_loc st; err := err st;
     faults := faults st; sys_modules := sys_modules st;
     blpapiDatetimeModule := blpapiDatetimeModule st;
     datetimeUtil := datetimeUtil st; convertToPyTime := p;
     gil := gil st; native_mem := native_mem st; trace := trace st |}.

Definition set_gil (n : nat) (st : State) : State :=
  {| heap := heap st; next_loc := next_loc st; err := err st;
     faults := faults st; sys_modules := sys_modules st;
     blpapiDatetimeModule := blpapiDatetimeModule st;
     datetimeUtil := datetimeUtil st; convertToPyTime := convertToPyTime st;
     gil := n; native_mem := native_mem st; trace := trace st |}.

Definition set_native_mem (m : gmap Z blpapi_ManagedPtr_t) (st : State) : State :=
  {| heap := heap st; next_loc := next_loc st; err := err st;
     faults := faults st; sys_modules := sys_modules st;
     blpapiDatetimeModule := blpapiDatetimeModule st;
     datetimeUtil := datetimeUtil st; convertToPyTime := convertToPyTime st;
     gil := gil st; native_mem := m; trace := trace st |}.

Definition log (ev : Event) (st : State) : State :=
  {| heap := heap st; next_loc := next_loc st; err := err st;
     faults := faults st; sys_modules := sys_modules st;
     blpapiDatetimeModule := blpapiDatetimeModule st;
     datetimeUtil := datetimeUtil st; convertToPyTime := convertToPyTime st;
     gil := gil st; native_mem := native_mem st; trace := trace st ++ [ev] |}.

(** ** The state monad of the C functions *)

Definition M (A : Type) : Type := State → A * State.

Definition ret {A : Type} (a : A) : M A := fun st => (a, st).

Definition bind {A B : Type} (m : M A) (k : A → M B) : M B :=
  fun st => let (a, st') := m st in k a st'.

Notation "x <-- m ;; k" := (bind m (fun x => k))
  (at level 100, m at next level, k at level 200, right associativity).
Notation "m ;;; k" := (bind m (fun _ => k))
  (at level 100, k at level 200, right associativity).

Definition modify (f : State → State) : M unit := fun st => (tt, f st).

Definition NULL {A : Type} : option A := None.

(** ** Native accessors: log the call, answer from the element *)

Definition native {A : Type} (element : blpapi_Element_t) (call : NativeCall)
    (answer : A) : M A :=
  fun st => (answer, log (Native element call) st).

Definition blpapi_Element_datatype (e : blpapi_Element_t) : M Datatype :=
  native e N_datatype (el_datatype e).
Definition blpapi_Element_isComplexType (e : blpapi_Element_t) : M bool :=
  native e N_isComplexType (el_isComplexType e).
Definition blpapi_Element_isArray (e : blpapi_Element_t) : M bool :=
  native e N_isArray (el_isArray e).
Definition blpapi_Element_isNull (e : blpapi_Element_t) : M bool :=
  native e N_isNull (el_isNull e).
Definition blpapi_Element_numValues (e : blpapi_Element_t) : M nat :=
  native e N_numValues (el_numValues e).
Definition blpapi_Element_numElements (e : blpapi_Element_t) : M nat :=
  native e N_numElements (el_numElements e).
Definition blpapi_Element_nameString (e : blpapi_Element_t) : M string :=
  native e N_nameString (el_nameString e).
Definition blpapi_Element_definition (e : blpapi_Element_t)
    : M blpapi_SchemaElementDefinition_t :=
  native e N_definition (el_definition e).
Definition blpapi_SchemaElementDefinition_type (e : blpapi_Element_t)
    (d : blpapi_SchemaElementDefinition_t) : M blpapi_SchemaTypeDefinition_t :=
  native e N_SchemaElementDefinition_type (sd_type d).
Definition blpapi_SchemaTypeDefinition_isComplexType (e : blpapi_Element_t)
    (t : blpapi_SchemaTypeDefinition_t) : M bool :=
  native e N_SchemaTypeDefinition_isComplexType (st_isComplexType t).
Definition blpapi_Element_getValueAsBool (e : blpapi_Element_t) (index : nat)
    : M (option Z) :=
  native e (N_getValueAsBool index) (el_getValueAsBool e index).
Definition blpapi_Element_getValueAsInt64 (e : blpapi_Element_t) (index : nat)
    : M (option Z) :=
  native e (N_getValueAsInt64 index) (el_getValueAsInt64 e index).
Definition blpapi_Element_getValueAsFloat64 (e : blpapi_Element_t) (index : nat)
    : M (option spec_float) :=
  native e (N_getValueAsFloat64 index) (el_getValueAsFloat64 e index).
Definition blpapi_Element_getValueAsString (e : blpapi_Element_t) (index : nat)
    : M (option string) :=
  native e (N_getValueAsString index) (el_getValueAsString e index).
Definition blpapi_Element_getValueAsBytes (e : blpapi_Element_t) (index : nat)
    : M (option (list Byte.byte)) :=
  native e (N_getValueAsBytes index) (el_getValueAsBytes e index).
Definition blpapi_Element_getValueAsHighPrecisionDatetime
    (e : blpapi_Element_t) (index : nat)
    : M (option blpapi_HighPrecisionDatetime_t) :=
  native e (N_getValueAsHighPrecisionDatetime index)
    (el_getValueAsHighPrecisionDatetime e index).
Definition blpapi_Element_getValueAsElement (e : blpapi_Element_t) (index : nat)
    : M (option blpapi_Element_t) :=
  native e (N_getValueAsElement index) (el_getValueAsElement e index).
Definition blpapi_Element_getElementAt (e : blpapi_Element_t) (index : nat)
    : M (option blpapi_Element_t) :=
  native e (N_getElementAt index) (el_getElementAt e index).

(** ** The CPython C-API *)

Definition with_refcnt (o : PyObject) (n : Z) : PyObject :=
  {| ob_refcnt := n; ob_body := ob_body o |}.

Definition Py_INCREF (op : loc) : M unit :=
  modify (fun st =>
    match heap st !! op with
    | Some o => set_heap <[op := with_refcnt o (ob_refcnt o + 1)]> st
    | None => add_fault op st
    end).

Definition Py_XINCREF (op : option loc) : M unit :=
  match op with
  | Some l => Py_INCREF l
  | None => ret tt
  end.

(** [Py_DECREF]: the count goes down by one, and an object whose count
    reaches zero is deallocated: it leaves the heap and gives up the
    references it holds.  The recursion is bounded by the number of
    objects in the heap, since every level removes one. *)
Fixpoint Py_DECREF_rec (fuel : nat) (op : loc) (st : State) : State :=
  match heap st !! op with
  | None => add_fault op st
  | Some o =>
      if (ob_refcnt o - 1 =? 0)%Z then
        match fuel with
        | O => st
        | S fuel' =>
            foldl (fun s c => Py_DECREF_rec fuel' c s)
                  (set_heap (delete op) st) (children (ob_body o))
        end
      else set_heap <[op := with_refcnt o (ob_refcnt o - 1)]> st
  end.

Definition Py_DECREF (op : loc) : M unit :=
  modify (fun st => Py_DECREF_rec (size (heap st)) op st).

Definition Py_XDECREF (op : option loc) : M unit :=
  match op with
  | Some l => Py_DECREF l
  | None => ret tt
  end.

Definition PyErr_SetString (exc : PyExc) (msg : string) : M unit :=
  modify (set_err (Some {| exc_type := exc; exc_msg := msg |})).

Definition PyErr_Occurred : M (option PyErr) := fun st => (err st, st).

(** A new object with one reference, at the next free address. *)
Definition new_object (b : PyBody) : M (option loc) :=
  fun st =>
    let l := next_loc st in
    (Some l,
     set_next_loc (S l)
       (set_heap <[l := {| ob_refcnt := 1; ob_body := b |}]> st)).

Definition Py_RETURN_NONE : M (option loc) :=
  Py_INCREF Py_None ;;; ret (Some Py_None).

Definition PyBool_FromLong (v : Z) : M (option loc) :=
  let r := if (v =? 0)%Z then Py_False else Py_True in
  Py_INCREF r ;;; ret (Some r).

Definition PyLong_FromLongLong (v : Z) : M (option loc) :=
  new_object (PyLong v).

Definition PyFloat_FromDouble (v : spec_float) : M (option loc) :=
  new_object (PyFloat v).

Definition PyUnicode_FromString (u : string) : M (option loc) :=
  new_object (PyUnicode u).

Definition PyBytes_FromStringAndSize (v : list Byte.byte) : M (option loc) :=
  new_object (PyBytes v).

Definition PyDict_New : M (option loc) := new_object (PyDict ∅).

(** [PyList_New(len)]: a list of [len] empty ([NULL]) slots. *)
Definition PyList_New (len : nat) : M (option loc) :=
  new_object (PyList (replicate len None)).

(** [PyList_SetItem] steals the reference to [item] and releases the
    reference the slot held; out of range it releases [item] and fails. *)
Definition PyList_SetItem (list : loc) (index : nat) (item : loc) : M Z :=
  fun st =>
    match heap st !! list with
    | Some {| ob_refcnt := n; ob_body := PyList items |} =>
        match items !! index with
        | Some old =>
            let st1 := set_heap
              <[list := {| ob_refcnt := n;
                           ob_body := PyList (<[index := Some item]> items) |}]> st in
            (0%Z, snd (Py_XDECREF old st1))
        | None =>
            ((-1)%Z,
             snd ((Py_DECREF item ;;;
                   PyErr_SetString PyExc_IndexError
                     "list assignment index out of range") st))
        end
    | Some _ =>
        ((-1)%Z,
         snd ((Py_DECREF item ;;;
               PyErr_SetString PyExc_SystemError "bad argument to internal function") st))
    | None => ((-1)%Z, add_fault list st)
    end.

(** [PyDict_SetItemString] does not steal: the dictionary takes a
    reference of its own to [val], and releases the value it replaces. *)
Definition PyDict_SetItemString (dp : loc) (key : string) (val : loc) : M Z :=
  fun st =>
    match heap st !! dp with
    | Some {| ob_refcnt := n; ob_body := PyDict entries |} =>
        let st1 := snd (Py_INCREF val st) in
        let st2 := set_heap
          <[dp := {| ob_refcnt := n;
                     ob_body := PyDict (<[key := val]> entries) |}]> st1 in
        (0%Z, snd (Py_XDECREF (entries !! key) st2))
    | Some _ =>
        ((-1)%Z,
         snd (PyErr_SetString PyExc_SystemError "bad argument to internal function" st))
    | None => ((-1)%Z, add_fault dp st)
    end.

(** [PyImport_ImportModule]: a new reference to a module that is already
    loaded; the bridge relies on [blpapi.datetime] having been imported. *)
Definition PyImport_ImportModule (name : string) : M (option loc) :=
  modify (log (Import name)) ;;;
  fun st =>
    match sys_modules st !! name with
    | Some m => (Some m, snd (Py_INCREF m st))
    | None =>
        (NULL, snd (PyErr_SetString PyExc_ImportError name st))
    end.

(** [PyObject_GetAttr(o, name)]: a new reference to the attribute. *)
Definition PyObject_GetAttr (o : loc) (name : option loc) : M (option loc) :=
  fun st =>
    match name ≫= (fun n => heap st !! n) with
    | Some {| ob_refcnt := _; ob_body := PyUnicode attr |} =>
        let st1 := log (GetAttr o attr) st in
        match heap st1 !! o with
        | Some {| ob_refcnt := _; ob_body := PyNamespace attrs |} =>
            match attrs !! attr with
            | Some v => (Some v, snd (Py_INCREF v st1))
            | None => (NULL, snd (PyErr_SetString PyExc_AttributeError attr st1))
            end
        | _ => (NULL, snd (PyErr_SetString PyExc_AttributeError attr st1))
        end
    | _ =>
        (NULL,
         snd (PyErr_SetString PyExc_TypeError "attribute name must be string" st))
    end.

(** [PyObject_CallFunction(callable, "iiiiiiiii", ...)]: the callee either
    raises or returns a new object. *)
Definition PyObject_CallFunction (callable : loc) (args : list Z) : M (option loc) :=
  modify (log (Call callable args)) ;;;
  fun st =>
    match heap st !! callable with
    | Some {| ob_refcnt := _; ob_body := PyFunction f |} =>
        match f args with
        | inl e => (NULL, set_err (Some e) st)
        | inr fields => new_object (PyTemporal fields) st
        end
    | _ =>
        (NULL,
         snd (PyErr_SetString PyExc_TypeError "object is not callable" st))
    end.

(** The interpreter lock is re-entrant: [PyGILState_Ensure] returns the
    nesting depth it found, [PyGILState_Release] restores it. *)
Definition PyGILState_Ensure : M nat :=
  fun st => (gil st, set_gil (S (gil st)) st).

Definition PyGILState_Release (s : nat) : M unit := modify (set_gil s).

(** ** [getScalarValue] *)

(** C integer conversions on a 32-bit [int] / [unsigned int]. *)
Definition as_unsigned_int (z : Z) : Z := (z mod 2 ^ 32)%Z.

Definition as_int (z : Z) : Z :=
  let u := (z mod 2 ^ 32)%Z in
  if (u <? 2 ^ 31)%Z then u else (u - 2 ^ 32)%Z.

(** The last argument of the helper call:
    [(milliSeconds * 1000) + (picoseconds / 1000000)].  The product is an
    [int], the quotient an [unsigned int], so the sum is formed modulo
    [2^32]; the ["i"] format reads it back as an [int]. *)
Definition subsecond_argument (v : blpapi_HighPrecisionDatetime_t) : Z :=
  as_int (as_unsigned_int
            (as_int (milliSeconds (datetime v) * 1000)
             + Z.quot (picoseconds v) 1000000)).

(** The nine arguments passed with the format ["iiiiiiiii"]. *)
Definition convertToPyTime_arguments (v : blpapi_HighPrecisionDatetime_t)
    : list Z :=
  [ parts (datetime v); offset (datetime v); year (datetime v);
    month (datetime v); day (datetime v); hours (datetime v);
    minutes (datetime v); seconds (datetime v); subsecond_argument v ].

Definition get_convertToPyTime : M (option loc) :=
  fun st => (convertToPyTime st, st).

(** The body of [if (convertToPyTime == NULL) { ... }]: [true] when control
    falls through to the accessor call, [false] when the function has
    returned [NULL]. *)
Definition initialize_static_variables : M bool :=
  m <-- PyImport_ImportModule "blpapi.datetime" ;;
  modify (set_blpapiDatetimeModule m) ;;;
  match m with
  | None =>
      PyErr_SetString PyExc_Exception "Internal error getting blpapi.datetime" ;;;
      ret false
  | Some module =>
      name <-- PyUnicode_FromString "_DatetimeUtil" ;;
      u <-- PyObject_GetAttr module name ;;
      modify (set_datetimeUtil u) ;;;
      match u with
      | None =>
          Py_DECREF module ;;;
          PyErr_SetString PyExc_Exception "Internal error getting _DatetimeUtil" ;;;
          ret false
      | Some util =>
          name' <-- PyUnicode_FromString "toPyTimeFromInts" ;;
          c <-- PyObject_GetAttr util name' ;;
          modify (set_convertToPyTime c) ;;;
          match c with
          | None =>
              Py_DECREF module ;;;
              Py_DECREF util ;;;
              PyErr_SetString PyExc_Exception
                "Internal error getting 'toPyTimeFromInts'" ;;;
              ret false
          | Some _ => ret true
          end
      end
  end.

(** The [DATE] / [TIME] / [DATETIME] case. *)
Definition getScalarValue_datetime (element : blpapi_Element_t) (index : nat)
    : M (option loc) :=
  cached <-- get_convertToPyTime ;;
  proceed <-- match cached with
              | None => initialize_static_variables
              | Some _ => ret true
              end ;;
  if proceed : bool then
    r <-- blpapi_Element_getValueAsHighPrecisionDatetime element index ;;
    match r with
    | None =>
        PyErr_SetString PyExc_Exception "Internal error getting datetime" ;;;
        ret NULL
    | Some highPrecisionDatetimeBuffer =>
        if (parts (datetime highPrecisionDatetimeBuffer) =? 0)%Z then
          Py_RETURN_NONE
        else
          callee <-- get_convertToPyTime ;;
          match callee with
          | Some f =>
              PyObject_CallFunction f
                (convertToPyTime_arguments highPrecisionDatetimeBuffer)
          | None => ret NULL
          end
    end
  else ret NULL.

Definition getScalarValue (element : blpapi_Element_t) (index : nat)
    : M (option loc) :=
  datatype <-- blpapi_Element_datatype element ;;
  match datatype with
  | BLPAPI_DATATYPE_BOOL =>
      r <-- blpapi_Element_getValueAsBool element index ;;
      match r with
      | None =>
          PyErr_SetString PyExc_Exception "Internal error getting bool" ;;;
          ret NULL
      | Some boolBuffer => PyBool_FromLong boolBuffer
      end
  | BLPAPI_DATATYPE_BYTE
  | BLPAPI_DATATYPE_INT32
  | BLPAPI_DATATYPE_INT64 =>
      r <-- blpapi_Element_getValueAsInt64 element index ;;
      match r with
      | None =>
          PyErr_SetString PyExc_Exception "Internal error getting int" ;;;
          ret NULL
      | Some int64Buffer => PyLong_FromLongLong int64Buffer
      end
  | BLPAPI_DATATYPE_FLOAT32
  | BLPAPI_DATATYPE_FLOAT64 =>
      r <-- blpapi_Element_getValueAsFloat64 element index ;;
      match r with
      | None =>
          PyErr_SetString PyExc_Exception "Internal error getting float" ;;;
          ret NULL
      | Some floatBuffer => PyFloat_FromDouble floatBuffer
      end
  | BLPAPI_DATATYPE_CHAR
  | BLPAPI_DATATYPE_STRING
  | BLPAPI_DATATYPE_ENUMERATION =>
      r <-- blpapi_Element_getValueAsString element index ;;
      match r with
      | None =>
          PyErr_SetString PyExc_Exception "Internal error getting string" ;;;
          ret NULL
      | Some strValue => PyUnicode_FromString strValue
      end
  | BLPAPI_DATATYPE_BYTEARRAY =>
      r <-- blpapi_Element_getValueAsBytes element index ;;
      match r with
      | None =>
          PyErr_SetString PyExc_Exception "Internal error getting bytes" ;;;
          ret NULL
      | Some bytesValue => PyBytes_FromStringAndSize bytesValue
      end
  | BLPAPI_DATATYPE_DATE
  | BLPAPI_DATATYPE_TIME
  | BLPAPI_DATATYPE_DATETIME => getScalarValue_datetime element index
  | BLPAPI_DATATYPE_SEQUENCE
  | BLPAPI_DATATYPE_CHOICE
  | BLPAPI_DATATYPE_unlisted _ =>
      PyErr_SetString PyExc_Exception "Internal datatype error" ;;;
      ret NULL
  end.

(** ** The recursive converters *)

Section converters.
(** The recursive entry point, tied below. *)
Variable blpapi_Element_toPy : blpapi_Element_t → M (option loc).

(** The [ERROR:] label of [complexElementToPy]. *)
Definition complexElementToPy_ERROR (pyDict subElementPy : option loc)
    : M (option loc) :=
  Py_XDECREF pyDict ;;;
  Py_XDECREF subElementPy ;;;
  e <-- PyErr_Occurred ;;
  match e with
  | None =>
      PyErr_SetString PyExc_Exception
        "Internal error converting a complex Element"
  | Some _ => ret tt
  end ;;;
  ret NULL.

(** The [for] loop of [complexElementToPy], entered at index [i] with
    [remaining = numElements - i] iterations to go; [subElementPy] is the
    C local, which keeps its last value across iterations. *)
Fixpoint complexElementToPy_loop (element : blpapi_Element_t) (pyDict : loc)
    (remaining i : nat) (subElementPy : option loc) : M (option loc) :=
  _ <-- blpapi_Element_numElements element ;;
  match remaining with
  | O => ret (Some pyDict)
  | S remaining' =>
      r <-- blpapi_Element_getElementAt element i ;;
      match r with
      | None =>
          PyErr_SetString PyExc_Exception "Internal error in `Element.toPy`" ;;;
          complexElementToPy_ERROR (Some pyDict) subElementPy
      | Some subElement =>
          name <-- blpapi_Element_nameString subElement ;;
          converted <-- blpapi_Element_toPy subElement ;;
          match converted with
          | None => complexElementToPy_ERROR (Some pyDict) NULL
          | Some v =>
              status <-- PyDict_SetItemString pyDict name v ;;
              if (status =? 0)%Z then
                Py_DECREF v ;;;
                complexElementToPy_loop element pyDict remaining' (S i) (Some v)
              else complexElementToPy_ERROR (Some pyDict) (Some v)
          end
      end
  end.

Definition complexElementToPy (element : blpapi_Element_t) : M (option loc) :=
  pyDict <-- PyDict_New ;;
  match pyDict with
  | None => complexElementToPy_ERROR NULL NULL
  | Some d =>
      complexElementToPy_loop element d (el_numElements element) 0 NULL
  end.

(** The [ERROR:] label of [arrayElementToPy]. *)
Definition arrayElementToPy_ERROR (pyList pyValue : option loc)
    : M (option loc) :=
  Py_XDECREF pyList ;;;
  Py_XDECREF pyValue ;;;
  e <-- PyErr_Occurred ;;
  match e with
  | None =>
      PyErr_SetString PyExc_Exception
        "Internal error converting an array Element"
  | Some _ => ret tt
  end ;;;
  ret NULL.

(** The loop over complex values, with [remaining = numValues - i]. *)
Fixpoint arrayElementToPy_complex_loop (element : blpapi_Element_t)
    (pyList : loc) (remaining i : nat) (pyValue : option loc)
    : M (option loc) :=
  match remaining with
  | O => ret (Some pyList)
  | S remaining' =>
      r <-- blpapi_Element_getValueAsElement element i ;;
      match r with
      | None =>
          PyErr_SetString PyExc_Exception
            "Internal error in blpapi_Element_getValueAsElement" ;;;
          arrayElementToPy_ERROR (Some pyList) pyValue
      | Some result =>
          converted <-- blpapi_Element_toPy result ;;
          match converted with
          | None => arrayElementToPy_ERROR (Some pyList) NULL
          | Some v =>
              PyList_SetItem pyList i v ;;;
              arrayElementToPy_complex_loop element pyList remaining' (S i)
                (Some v)
          end
      end
  end.

(** The loop over non-complex values. *)
Fixpoint arrayElementToPy_scalar_loop (element : blpapi_Element_t)
    (pyList : loc) (remaining i : nat) (pyValue : option loc)
    : M (option loc) :=
  match remaining with
  | O => ret (Some pyList)
  | S remaining' =>
      converted <-- getScalarValue element i ;;
      match converted with
      | None => arrayElementToPy_ERROR (Some pyList) NULL
      | Some v =>
          PyList_SetItem pyList i v ;;;
          arrayElementToPy_scalar_loop element pyList remaining' (S i)
            (Some v)
      end
  end.

Definition arrayElementToPy (element : blpapi_Element_t) : M (option loc) :=
  numValues <-- blpapi_Element_numValues element ;;
  pyList <-- PyList_New numValues ;;
  definition <-- blpapi_Element_definition element ;;
  typeDefinition <-- blpapi_SchemaElementDefinition_type element definition ;;
  match pyList with
  | None => arrayElementToPy_ERROR NULL NULL
  | Some l =>
      isComplex <--
        blpapi_SchemaTypeDefinition_isComplexType element typeDefinition ;;
      if isComplex : bool then
        arrayElementToPy_complex_loop element l numValues 0 NULL
      else
        arrayElementToPy_scalar_loop element l numValues 0 NULL
  end.
End converters.

Fixpoint blpapi_Element_toPy (element : blpapi_Element_t) {struct element}
    : M (option loc) :=
  c <-- blpapi_Element_isComplexType element ;;
  if c : bool then complexElementToPy blpapi_Element_toPy element
  else
    a <-- blpapi_Element_isArray element ;;
    if a : bool then arrayElementToPy blpapi_Element_toPy element
    else
      n <-- blpapi_Element_isNull element ;;
      if n : bool then Py_RETURN_NONE
      else getScalarValue element 0.

(** ** The lifetime bridge *)

(** Native memory holds the [blpapi_ManagedPtr_t] records; reading or
    writing through an address that holds none is undefined behaviour,
    reported as [None]. *)
Notation "x <-? m ;; k" :=
  (bind m (fun o => match o with Some x => k | None => ret None end))
  (at level 100, m at next level, k at level 200, right associativity).

Definition read_pointer (p : Z) : M (option (option loc)) :=
  fun st => (pointer <$> native_mem st !! p, st).

Definition read_manager (p : Z) : M (option Z) :=
  fun st => (manager <$> native_mem st !! p, st).

Definition write_pointer (p : Z) (v : option loc) : M (option unit) :=
  fun st =>
    match native_mem st !! p with
    | Some h =>
        (Some tt,
         set_native_mem
           (<[p := {| pointer := v; manager := manager h |}]> (native_mem st)) st)
    | None => (None, st)
    end.

Definition write_manager (p : Z) (v : Z) : M (option unit) :=
  fun st =>
    match native_mem st !! p with
    | Some h =>
        (Some tt,
         set_native_mem
           (<[p := {| pointer := pointer h; manager := v |}]> (native_mem st)) st)
    | None => (None, st)
    end.

Definition incref (obj : option loc) : M unit :=
  s <-- PyGILState_Ensure ;;
  Py_XINCREF obj ;;;
  PyGILState_Release s.

Section lifetime.
(** The operation codes of [blpapi_correlationid.h] and the code address
    of [managerFunc] are parameters. *)
Variables BLPAPI_MANAGEDPTR_COPY BLPAPI_MANAGEDPTR_DESTROY : Z.
Variable managerFunc_address : Z.

Definition managerFunc (mptr sptr : Z) (operation : Z) : M (option Z) :=
  s <-- PyGILState_Ensure ;;
  completed <--
    (if (operation =? BLPAPI_MANAGEDPTR_COPY)%Z then
       p <-? read_pointer sptr ;;
       _ <-? write_pointer mptr p ;;
       m <-? read_manager sptr ;;
       _ <-? write_manager mptr m ;;
       q <-? read_pointer mptr ;;
       Py_XINCREF q ;;;
       ret (Some tt)
     else if (operation =? BLPAPI_MANAGEDPTR_DESTROY)%Z then
       q <-? read_pointer mptr ;;
       Py_XDECREF q ;;;
       ret (Some tt)
     else ret (Some tt)) ;;
  match completed with
  | Some _ => PyGILState_Release s ;;; ret (Some 0%Z)
  | None => ret None
  end.

Definition setmptr (s : Z) : M (option unit) :=
  write_manager s managerFunc_address.

Definition is_known_obj (s : Z) : M (option Z) :=
  m <-? read_manager s ;;
  ret (Some (if (m =? managerFunc_address)%Z then 1%Z else 0%Z)).
End lifetime.

(** ** Vocabulary for the statements *)

Definition eval {A : Type} (m : M A) (st : State) : A := fst (m st).
Definition exec {A : Type} (m : M A) (st : State) : State := snd (m st).

(** The reference count of the object at [l], if it is in the heap. *)
Definition refcount (st : State) (l : loc) : option Z :=
  ob_refcnt <$> heap st !! l.

Section lifetime_protocol.
Variables BLPAPI_MANAGEDPTR_COPY BLPAPI_MANAGEDPTR_DESTROY : Z.

(** The two invocations the native run time makes on a handle. *)
Definition ManagedPtr_copy (dest src : Z) : M (option Z) :=
  managerFunc BLPAPI_MANAGEDPTR_COPY BLPAPI_MANAGEDPTR_DESTROY dest src
    BLPAPI_MANAGEDPTR_COPY.

Definition ManagedPtr_destroy (handle : Z) : M (option Z) :=
  managerFunc BLPAPI_MANAGEDPTR_COPY BLPAPI_MANAGEDPTR_DESTROY handle 0
    BLPAPI_MANAGEDPTR_DESTROY.
End lifetime_protocol.


(** An error raised by the bridge itself: [PyExc_Exception] with a message. *)
Definition error (msg : string) : option PyErr :=
  Some {| exc_type := PyExc_Exception; exc_msg := msg |}.

(** The call returned a new object with body [b] and one reference. *)
Definition fresh_object (st st' : State) (r : option loc) (b : PyBody) : Prop :=
  r = Some (next_loc st)
  ∧ heap st' = <[next_loc st := {| ob_refcnt := 1; ob_body := b |}]> (heap st)
  ∧ next_loc st' = S (next_loc st)
  ∧ err st' = err st.

(** The call returned [NULL] with the error indicator set to [msg]. *)
Definition fails_with (st' : State) (r : option loc) (msg : string) : Prop :=
  r = NULL ∧ err st' = error msg.

Definition is_temporal (d : Datatype) : bool :=
  match d with
  | BLPAPI_DATATYPE_DATE | BLPAPI_DATATYPE_TIME | BLPAPI_DATATYPE_DATETIME => true
  | _ => false
  end.

Definition body_at (st : State) (l : loc) : option PyBody :=
  ob_body <$> heap st !! l.

Definition namespace_attr (st : State) (o : loc) (name : string) : option loc :=
  match body_at st o with
  | Some (PyNamespace attrs) => attrs !! name
  | _ => None
  end.

(** What the three lookups of the date/time helper find in a state:
    [sys.modules["blpapi.datetime"]._DatetimeUtil.toPyTimeFromInts]. *)
Definition resolve_helper (st : State) : option loc :=
  m ← sys_modules st !! "blpapi.datetime";
  u ← namespace_attr st m "_DatetimeUtil";
  namespace_attr st u "toPyTimeFromInts".

(** The lookups one resolution attempt performs: it stops at the first
    that fails. *)
Definition resolution_lookups (st : State) : list Event :=
  Import "blpapi.datetime" ::
  match sys_modules st !! "blpapi.datetime" with
  | None => []
  | Some m =>
      GetAttr m "_DatetimeUtil" ::
      match namespace_attr st m "_DatetimeUtil" with
      | None => []
      | Some u => [GetAttr u "toPyTimeFromInts"]
      end
  end.

(** Every object of the heap lies below the allocation pointer. *)
Definition heap_bounded (st : State) : Prop :=
  ∀ l, is_Some (heap st !! l) → l < next_loc st.

(** The state without its heap and its fault log. *)
Definition outside_heap (st : State) : State :=
  {| heap := ∅; next_loc := next_loc st; err := err st; faults := [];
     sys_modules := sys_modules st;
     blpapiDatetimeModule := blpapiDatetimeModule st;
     datetimeUtil := datetimeUtil st; convertToPyTime := convertToPyTime st;
     gil := gil st; native_mem := native_mem st; trace := trace st |}.

(** ** Python values, as the specification speaks of them *)

#[local] Unset Elimination Schemes.
Inductive PyValue : Type :=
  | V_None
  | V_Bool (b : bool)
  | V_Long (z : Z)
  | V_Float (f : spec_float)
  | V_Str (s : string)
  | V_Bytes (bs : list Byte.byte)
  | V_Temporal (fields : list Z)
  | V_List (vs : list PyValue)
  | V_Dict (m : gmap string PyValue).
#[local] Set Elimination Schemes.

(** The body of an object that is not a container, as a value. *)
Definition atom_value (b : PyBody) : option PyValue :=
  match b with
  | PyLong z => Some (V_Long z)
  | PyFloat f => Some (V_Float f)
  | PyUnicode s => Some (V_Str s)
  | PyBytes bs => Some (V_Bytes bs)
  | PyTemporal fields => Some (V_Temporal fields)
  | _ => None
  end.

(** [repr h lo hi l v]: in heap [h] the address [l] holds the value [v];
    the singletons stand for themselves, every other object of the
    representation lies in the address range [lo, hi). *)
#[local] Unset Elimination Schemes.
Inductive repr (h : gmap loc PyObject) (lo hi : loc) : loc → PyValue → Prop :=
  | repr_None : repr h lo hi Py_None V_None
  | repr_Bool b :
      repr h lo hi (if b : bool then Py_True else Py_False) (V_Bool b)
  | repr_atom l o v :
      lo ≤ l < hi → h !! l = Some o → atom_value (ob_body o) = Some v →
      repr h lo hi l v
  | repr_List l o items vs :
      lo ≤ l < hi → h !! l = Some o → ob_body o = PyList items →
      Forall2 (fun it v => ∃ c, it = Some c ∧ repr h lo hi c v) items vs →
      repr h lo hi l (V_List vs)
  | repr_Dict l o entries m :
      lo ≤ l < hi → h !! l = Some o → ob_body o = PyDict entries →
      (∀ k, option_Forall2 (repr h lo hi) (entries !! k) (m !! k)) →
      repr h lo hi l (V_Dict m).
#[local] Set Elimination Schemes.

(** The objects in the address range [lo, hi) refer only to each other and
    to the singletons. *)
Definition region_closed (h : gmap loc PyObject) (lo hi : loc) : Prop :=
  ∀ x o c, lo ≤ x < hi → h !! x = Some o → c ∈ children (ob_body o) →
           c < 3 ∨ lo ≤ c < hi.

(** The singletons, as long as they are in the heap, are what they are. *)
Definition singletons_sane (h : gmap loc PyObject) : Prop :=
  ∀ x o, x < 3 → h !! x = Some o →
         ob_body o = (if decide (x = Py_None) then PyNone
                      else PyBool (bool_decide (x = Py_True))).

(** The date/time helper as a conversion started in [st] finds it:
    [None] when the lookups fail, [Some None] when they find an object
    that cannot be called. *)
Definition callable_at (st : State) (c : loc)
    : option (list Z → PyErr + list Z) :=
  match body_at st c with
  | Some (PyFunction f) => Some f
  | _ => None
  end.

Definition helper_of (st : State)
    : option (option (list Z → PyErr + list Z)) :=
  callable_at st <$>
    match convertToPyTime st with
    | Some c => Some c
    | None => resolve_helper st
    end.

(** A state in which a conversion may start; [base] separates the objects
    that exist already from those the conversion will allocate. *)
Record well_formed (base : loc) (st : State) : Prop := {
  wf_base : 3 ≤ base ≤ next_loc st;
  wf_bounded : heap_bounded st;
  wf_singletons : singletons_sane (heap st);
  wf_modules : ∀ name m, sys_modules st !! name = Some m → m < base;
  wf_old : ∀ x o c, x < base → heap st !! x = Some o →
                    c ∈ children (ob_body o) → c < base;
  wf_cache : ∀ c, convertToPyTime st = Some c → c < base
}.

(** *** Conversion, in the words of the specification *)

Definition temporal_value (helper : option (list Z → PyErr + list Z))
    (v : blpapi_HighPrecisionDatetime_t) : option PyValue :=
  if (parts (datetime v) =? 0)%Z then Some V_None
  else
    f ← helper;
    match f (convertToPyTime_arguments v) with
    | inr fields => Some (V_Temporal fields)
    | inl _ => None
    end.

Definition scalar_value (helper : option (option (list Z → PyErr + list Z)))
    (e : blpapi_Element_t) (index : nat) : option PyValue :=
  match el_datatype e with
  | BLPAPI_DATATYPE_BOOL =>
      (fun v => V_Bool (negb (v =? 0)%Z)) <$> el_getValueAsBool e index
  | BLPAPI_DATATYPE_BYTE | BLPAPI_DATATYPE_INT32 | BLPAPI_DATATYPE_INT64 =>
      V_Long <$> el_getValueAsInt64 e index
  | BLPAPI_DATATYPE_FLOAT32 | BLPAPI_DATATYPE_FLOAT64 =>
      V_Float <$> el_getValueAsFloat64 e index
  | BLPAPI_DATATYPE_CHAR | BLPAPI_DATATYPE_STRING
  | BLPAPI_DATATYPE_ENUMERATION =>
      V_Str <$> el_getValueAsString e index
  | BLPAPI_DATATYPE_BYTEARRAY => V_Bytes <$> el_getValueAsBytes e index
  | BLPAPI_DATATYPE_DATE | BLPAPI_DATATYPE_TIME | BLPAPI_DATATYPE_DATETIME =>
      h ← helper;
      v ← el_getValueAsHighPrecisionDatetime e index;
      temporal_value h v
  | BLPAPI_DATATYPE_SEQUENCE | BLPAPI_DATATYPE_CHOICE
  | BLPAPI_DATATYPE_unlisted _ => None
  end.

Section value_of_element.
Variable toPy_value : blpapi_Element_t → option PyValue.

(** The mapping built from sub-elements [i, i + remaining), added in
    native order to [acc]: a later name replaces an earlier one. *)
Fixpoint record_value (e : blpapi_Element_t) (remaining i : nat)
    (acc : gmap string PyValue) : option (gmap string PyValue) :=
  match remaining with
  | O => Some acc
  | S remaining' =>
      match el_getElementAt e i with
      | None => None
      | Some sub =>
          match toPy_value sub with
          | None => None
          | Some v =>
              record_value e remaining' (S i) (<[el_nameString sub := v]> acc)
          end
      end
  end.

(** The sequence of the values at indices [i, i + remaining). *)
Fixpoint array_values (item : nat → option PyValue) (remaining i : nat)
    : option (list PyValue) :=
  match remaining with
  | O => Some []
  | S remaining' =>
      match item i with
      | None => None
      | Some v => cons v <$> array_values item remaining' (S i)
      end
  end.

Definition array_item (helper : option (option (list Z → PyErr + list Z)))
    (e : blpapi_Element_t) (index : nat) : option PyValue :=
  if st_isComplexType (sd_type (el_definition e)) then
    match el_getValueAsElement e index with
    | Some sub => toPy_value sub
    | None => None
    end
  else scalar_value helper e index.
End value_of_element.

Fixpoint toPy_value (helper : option (option (list Z → PyErr + list Z)))
    (e : blpapi_Element_t) {struct e} : option PyValue :=
  if el_isComplexType e then
    V_Dict <$> record_value (toPy_value helper) e (el_numElements e) 0 ∅
  else if el_isArray e then
    V_List <$> array_values (array_item (toPy_value helper) helper e)
                 (el_numValues e) 0
  else if el_isNull e then Some V_None
  else scalar_value helper e 0.

(** How the state may change while a conversion runs without failing:
    the objects in [base, from) stay as they are, the older ones keep
    their bodies, and the helper stays the one it was. *)
Record evolves (base from : loc) (st st' : State) : Prop := {
  ev_wf : well_formed base st';
  ev_next : next_loc st ≤ next_loc st';
  ev_frame : ∀ x, base ≤ x < from → heap st' !! x = heap st !! x;
  ev_old : ∀ x, 3 ≤ x < base → body_at st' x = body_at st x;
  ev_modules : sys_modules st' = sys_modules st;
  ev_helper : helper_of st' = helper_of st
}.

(** What a successful conversion from [st] to [st'] with result [l]
    guarantees, for the value [v] the specification assigns: the result
    holds [v], it and everything it refers to was allocated by this
    conversion (or is a singleton), and the caller owns one reference. *)
Record converted (base : loc) (st st' : State) (l : loc) (v : PyValue)
    : Prop := {
  cv_evolves : evolves base (next_loc st) st st';
  cv_closed : region_closed (heap st') (next_loc st) (next_loc st');
  cv_repr : repr (heap st') (next_loc st) (next_loc st') l v;
  cv_count : l < 3 ∨ refcount st' l = Some 1%Z
}.

(** One heap is another with some objects gone and some counts changed. *)
Definition sub_heap (h' h : gmap loc PyObject) : Prop :=
  ∀ x o', h' !! x = Some o' → ∃ o, h !! x = Some o ∧ ob_body o = ob_body o'.

(** Events that are lookups of the helper, and calls of it. *)
Definition is_lookup (ev : Event) : Prop :=
  match ev with
  | Import _ | GetAttr _ _ => True
  | _ => False
  end.

Definition is_call (ev : Event) : Prop :=
  match ev with
  | Call _ _ => True
  | _ => False
  end.

(** The helper a date/time conversion started in [st] will use: the cached
    one, else the one the lookups find. *)
Definition helper_location (st : State) : option loc :=
  match convertToPyTime st with
  | Some c => Some c
  | None => resolve_helper st
  end.

(** The state in which the date/time accessor is called: after the
    datatype was read and, with an empty cache, the helper resolved. *)
Definition resolved_state (element : blpapi_Element_t) (st : State) : State :=
  let st0 := log (Native element N_datatype) st in
  match convertToPyTime st with
  | Some _ => st0
  | None => exec initialize_static_variables st0
  end.

(** The list at [l], allocated in state [st], after [i] of its [n] slots
    have been filled with the values [vals]. *)
Record list_built (base l : loc) (st s : State) (n i : nat)
    (vals : list PyValue) : Prop := {
  lb_base : base ≤ l;
  lb_evolves : evolves base l st s;
  lb_next : l < next_loc s;
  lb_items : ∃ cs,
    length cs = i
    ∧ heap s !! l
      = Some {| ob_refcnt := 1;
                ob_body := PyList (map Some cs ++ replicate (n - i) None) |}
    ∧ Forall2 (repr (heap s) (S l) (next_loc s)) cs vals;
  lb_closed : region_closed (heap s) (S l) (next_loc s)
}.

(** The code of [blpapi_Element_toPy] refines the specification on [e]:
    started in a well-formed state, it returns an object that holds the
    value the specification assigns, or fails with the error set when the
    specification assigns none. *)
Definition refines (base : loc) (e : blpapi_Element_t) : Prop :=
  ∀ st, well_formed base st →
    match toPy_value (helper_of st) e with
    | Some val =>
        ∃ l, eval (blpapi_Element_toPy e) st = Some l
             ∧ converted base st (exec (blpapi_Element_toPy e) st) l val
    | None =>
        eval (blpapi_Element_toPy e) st = NULL
        ∧ is_Some (err (exec (blpapi_Element_toPy e) st))
    end.

(** The mapping at [d], allocated in state [st], after the entries [m] have
    been stored: every stored value lies in an address range of its own. *)
Record dict_built (base d : loc) (st s : State) (m : gmap string PyValue)
    : Prop := {
  db_base : base ≤ d;
  db_evolves : evolves base d st s;
  db_next : d < next_loc s;
  db_entries : ∃ entries (reg : string → nat * nat),
    heap s !! d = Some {| ob_refcnt := 1; ob_body := PyDict entries |}
    ∧ (∀ k, option_Forall2 (repr (heap s) (reg k).1 (reg k).2)
              (entries !! k) (m !! k))
    ∧ (∀ k, is_Some (entries !! k) →
            d < (reg k).1 ∧ (reg k).2 ≤ next_loc s
            ∧ region_closed (heap s) (reg k).1 (reg k).2)
    ∧ (∀ k k', k ≠ k' → is_Some (entries !! k) → is_Some (entries !! k') →
               (reg k).2 ≤ (reg k').1 ∨ (reg k').2 ≤ (reg k).1);
  db_closed : region_closed (heap s) (S d) (next_loc s)
}.

(** ** Events *)

(** [emits P m]: whatever the state, running [m] only adds events to the
    trace, and every event it adds satisfies [P]. *)
Definition emits (P : Event → Prop) {A : Type} (m : M A) : Prop :=
  ∀ s, ∃ new, trace (exec m s) = trace s ++ new ∧ Forall P new.

(** [sub] is one of the values or sub-elements of [e]. *)
Definition child (sub e : blpapi_Element_t) : Prop :=
  ∃ i, el_getValueAsElement e i = Some sub ∨ el_getElementAt e i = Some sub.

(** [within e y]: the element [y] is [e] or occurs below it. *)
Inductive within (e : blpapi_Element_t) : blpapi_Element_t → Prop :=
  | within_self : within e e
  | within_child sub y : child sub e → within sub y → within e y.

(** The events of the interpreter, as opposed to native calls. *)
Definition python_event (ev : Event) : Prop :=
  match ev with
  | Native _ _ => False
  | _ => True
  end.

(** The native call that reads an array's complex/scalar decision. *)
Definition schema_read (e : blpapi_Element_t) : Event :=
  Native e N_SchemaTypeDefinition_isComplexType.

(** [fetched_in_order e i j evs]: among the events [evs] the sub-elements
    of [e] that are fetched are those at the indices [i], [i + 1], ...,
    [j - 1], each once and in this order. *)
Inductive fetched_in_order (e : blpapi_Element_t)
    : nat → nat → list Event → Prop :=
  | fetched_none i : fetched_in_order e i i []
  | fetched_other i j ev evs :
      (∀ k, ev ≠ Native e (N_getElementAt k)) →
      fetched_in_order e i j evs → fetched_in_order e i j (ev :: evs)
  | fetched_next i j evs :
      fetched_in_order e (S i) j evs →
      fetched_in_order e i j (Native e (N_getElementAt i) :: evs).

(** ** Checking a state *)

(** The body a singleton address must hold. *)
Definition singleton_body (x : loc) (b : PyBody) : bool :=
  match b with
  | PyNone => bool_decide (x = Py_None)
  | PyBool v => bool_decide (x ≠ Py_None) && bool_decide (v = bool_decide (x = Py_True))
  | _ => false
  end.

(** [well_formed], as a test that can be run on a given state. *)
Definition well_formed_check (base : loc) (st : State) : bool :=
  bool_decide (3 ≤ base ≤ next_loc st)
  && bool_decide
       (map_Forall
          (fun x o =>
             x < next_loc st
             ∧ (x < 3 → singleton_body x (ob_body o) = true)
             ∧ (x < base → Forall (fun c => c < base) (children (ob_body o))))
          (heap st))
  && bool_decide (map_Forall (fun _ m => m < base) (sys_modules st))
  && match convertToPyTime st with
     | Some c => bool_decide (c < base)
     | None => true
     end.

(** ** Sample elements and states *)

Definition scalar_schema : blpapi_SchemaElementDefinition_t :=
  {| sd_type := {| st_isComplexType := false |} |}.

Definition complex_schema : blpapi_SchemaElementDefinition_t :=
  {| sd_type := {| st_isComplexType := true |} |}.

(** A 64-bit integer field [name] that holds [z]. *)
Definition int64_field (name : string) (z : Z) : blpapi_Element_t :=
  {| el_nameString := name; el_datatype := BLPAPI_DATATYPE_INT64;
     el_isComplexType := false; el_isArray := false; el_isNull := false;
     el_numValues := 1; el_numElements := 0; el_definition := scalar_schema;
     el_getValueAsBool := fun _ => None;
     el_getValueAsInt64 := fun i => if decide (i = 0) then Some z else None;
     el_getValueAsFloat64 := fun _ => None;
     el_getValueAsString := fun _ => None;
     el_getValueAsBytes := fun _ => None;
     el_getValueAsHighPrecisionDatetime := fun _ => None;
     el_getValueAsElement := fun _ => None;
     el_getElementAt := fun _ => None |}.

(** A date-time field [name] that holds [v]. *)
Definition datetime_field (name : string) (v : blpapi_HighPrecisionDatetime_t)
    : blpapi_Element_t :=
  {| el_nameString := name; el_datatype := BLPAPI_DATATYPE_DATETIME;
     el_isComplexType := false; el_isArray := false; el_isNull := false;
     el_numValues := 1; el_numElements := 0; el_definition := scalar_schema;
     el_getValueAsBool := fun _ => None;
     el_getValueAsInt64 := fun _ => None;
     el_getValueAsFloat64 := fun _ => None;
     el_getValueAsString := fun _ => None;
     el_getValueAsBytes := fun _ => None;
     el_getValueAsHighPrecisionDatetime :=
       fun i => if decide (i = 0) then Some v else None;
     el_getValueAsElement := fun _ => None;
     el_getElementAt := fun _ => None |}.

(** A record [name] that reports [count] sub-elements and yields those of
    [fields]: fetching beyond them fails. *)
Definition record_element (name : string) (count : nat)
    (fields : list blpapi_Element_t) : blpapi_Element_t :=
  {| el_nameString := name; el_datatype := BLPAPI_DATATYPE_SEQUENCE;
     el_isComplexType := true; el_isArray := false; el_isNull := false;
     el_numValues := 1; el_numElements := count; el_definition := complex_schema;
     el_getValueAsBool := fun _ => None;
     el_getValueAsInt64 := fun _ => None;
     el_getValueAsFloat64 := fun _ => None;
     el_getValueAsString := fun _ => None;
     el_getValueAsBytes := fun _ => None;
     el_getValueAsHighPrecisionDatetime := fun _ => None;
     el_getValueAsElement := fun _ => None;
     el_getElementAt := fun i => fields !! i |}.

(** An array [name] of records that reports [count] values and yields
    those of [values]. *)
Definition record_array (name : string) (count : nat)
    (values : list blpapi_Element_t) : blpapi_Element_t :=
  {| el_nameString := name; el_datatype := BLPAPI_DATATYPE_SEQUENCE;
     el_isComplexType := false; el_isArray := true; el_isNull := false;
     el_numValues := count; el_numElements := 0; el_definition := complex_schema;
     el_getValueAsBool := fun _ => None;
     el_getValueAsInt64 := fun _ => None;
     el_getValueAsFloat64 := fun _ => None;
     el_getValueAsString := fun _ => None;
     el_getValueAsBytes := fun _ => None;
     el_getValueAsHighPrecisionDatetime := fun _ => None;
     el_getValueAsElement := fun i => values !! i;
     el_getElementAt := fun _ => None |}.

(** An array [name] of the 64-bit integers [zs]. *)
Definition int64_array (name : string) (zs : list Z) : blpapi_Element_t :=
  {| el_nameString := name; el_datatype := BLPAPI_DATATYPE_INT64;
     el_isComplexType := false; el_isArray := true; el_isNull := false;
     el_numValues := length zs; el_numElements := 0;
     el_definition := scalar_schema;
     el_getValueAsBool := fun _ => None;
     el_getValueAsInt64 := fun i => zs !! i;
     el_getValueAsFloat64 := fun _ => None;
     el_getValueAsString := fun _ => None;
     el_getValueAsBytes := fun _ => None;
     el_getValueAsHighPrecisionDatetime := fun _ => None;
     el_getValueAsElement := fun _ => None;
     el_getElementAt := fun _ => None |}.

(** An interpreter in which [blpapi.datetime] is loaded: the singletons,
    the module at 3, its [_DatetimeUtil] at 4 and [toPyTimeFromInts] at 5,
    which here hands back its arguments as the fields of the value. *)
Definition interpreter : State :=
  {| heap :=
       <[5 := {| ob_refcnt := 1; ob_body := PyFunction inr |}]>
       (<[4 := {| ob_refcnt := 1;
                  ob_body := PyNamespace {[ "toPyTimeFromInts" := 5 ]} |}]>
       (<[3 := {| ob_refcnt := 1;
                  ob_body := PyNamespace {[ "_DatetimeUtil" := 4 ]} |}]>
       (<[Py_False := {| ob_refcnt := 10; ob_body := PyBool false |}]>
       (<[Py_True := {| ob_refcnt := 10; ob_body := PyBool true |}]>
       (<[Py_None := {| ob_refcnt := 10; ob_body := PyNone |}]> ∅)))));
     next_loc := 6; err := None; faults := [];
     sys_modules := {[ "blpapi.datetime" := 3 ]};
     blpapiDatetimeModule := None; datetimeUtil := None;
     convertToPyTime := None;
     gil := 0; native_mem := ∅; trace := [] |}.

(** A record that reports two sub-elements and yields one. *)
Definition short_record : blpapi_Element_t :=
  record_element "r" 2 [int64_field "a" 1].

(** An array of records that reports two values and yields one. *)
Definition short_array : blpapi_Element_t :=
  record_array "xs" 2 [record_element "r" 0 []].

(** A 64-bit integer field whose accessor reports a failure. *)
Definition failing_field (name : string) : blpapi_Element_t :=
  {| el_nameString := name; el_datatype := BLPAPI_DATATYPE_INT64;
     el_isComplexType := false; el_isArray := false; el_isNull := false;
     el_numValues := 1; el_numElements := 0; el_definition := scalar_schema;
     el_getValueAsBool := fun _ => None;
     el_getValueAsInt64 := fun _ => None;
     el_getValueAsFloat64 := fun _ => None;
     el_getValueAsString := fun _ => None;
     el_getValueAsBytes := fun _ => None;
     el_getValueAsHighPrecisionDatetime := fun _ => None;
     el_getValueAsElement := fun _ => None;
     el_getElementAt := fun _ => None |}.

(** 2024-02-29 12:30:45.123 and 500000000 picoseconds, all parts set. *)
Definition sample_timestamp : blpapi_HighPrecisionDatetime_t :=
  {| datetime := {| parts := 255; hours := 12; minutes := 30; seconds := 45;
                    milliSeconds := 123; month := 2; day := 29; year := 2024;
                    offset := 0 |};
     picoseconds := 500000000 |}.

(** The interpreter with three handles in native memory: the one at 100
    refers to the object at 5 and has the manager 7777, the others are
    empty. *)
Definition handles : State :=
  set_native_mem
    (<[100%Z := {| pointer := Some 5; manager := 7777 |}]>
     (<[200%Z := {| pointer := None; manager := 0 |}]>
     (<[300%Z := {| pointer := None; manager := 0 |}]> ∅)))
    interpreter.

(** A null array [name] of 64-bit integers: it has no values. *)
Definition null_int64_array (name : string) : blpapi_Element_t :=
  {| el_nameString := name; el_datatype := BLPAPI_DATATYPE_INT64;
     el_isComplexType := false; el_isArray := true; el_isNull := true;
     el_numValues := 0; el_numElements := 0;
     el_definition := scalar_schema;
     el_getValueAsBool := fun _ => None;
     el_getValueAsInt64 := fun _ => None;
     el_getValueAsFloat64 := fun _ => None;
     el_getValueAsString := fun _ => None;
     el_getValueAsBytes := fun _ => None;
     el_getValueAsHighPrecisionDatetime := fun _ => None;
     el_getValueAsElement := fun _ => None;
     el_getElementAt := fun _ => None |}.

(** A null 64-bit integer field [name]: its accessor would fail. *)
Definition null_int64_field (name : string) : blpapi_Element_t :=
  {| el_nameString := name; el_datatype := BLPAPI_DATATYPE_INT64;
     el_isComplexType := false; el_isArray := false; el_isNull := true;
     el_numValues := 0; el_numElements := 0;
     el_definition := scalar_schema;
     el_getValueAsBool := fun _ => None;
     el_getValueAsInt64 := fun _ => None;
     el_getValueAsFloat64 := fun _ => None;
     el_getValueAsString := fun _ => None;
     el_getValueAsBytes := fun _ => None;
     el_getValueAsHighPrecisionDatetime := fun _ => None;
     el_getValueAsElement := fun _ => None;
     el_getElementAt := fun _ => None |}.

(** ** Resolving the date/time helper, step by step *)

(** The facts a resolution step hands to the next one. *)
Record resolving (st s : State) (evs : list Event) : Prop := {
  rs_bounded : heap_bounded s;
  rs_attr : ∀ o a, namespace_attr s o a = namespace_attr st o a;
  rs_trace : trace s = trace st ++ evs;
  rs_err : err s = err st;
  rs_modules : sys_modules s = sys_modules st;
  rs_cache : convertToPyTime s = convertToPyTime st;
  rs_evolves : ∀ base from, well_formed base st → from ≤ next_loc st →
                            evolves base from st s;
  rs_next : next_loc st ≤ next_loc s;
  rs_closed : region_closed (heap s) (next_loc st) (next_loc s)
}.

(** What is left to say of a resolution that is being abandoned: the
    heap is bounded, the trace known, the cache holds [cache]. *)
Definition abandoning (st s : State) (evs : list Event)
    (cache : option loc) : Prop :=
  heap_bounded s ∧ trace s = trace st ++ evs ∧ convertToPyTime s = cache.

(** [m] never returns [NULL] without the error indicator set. *)
Definition reports_failure (m : M (option loc)) : Prop :=
  ∀ s, eval m s = NULL → is_Some (err (exec m s)).

(** From [s] to [s'] nothing but objects and the error indicator changed:
    the lock, the handles, the loaded modules, the cached helper and the
    trace are the same, and no address was given out twice. *)
Definition silent (s s' : State) : Prop :=
  gil s' = gil s ∧ native_mem s' = native_mem s
  ∧ sys_modules s' = sys_modules s
  ∧ convertToPyTime s' = convertToPyTime s
  ∧ next_loc s ≤ next_loc s'
  ∧ trace s' = trace s.

(** From [s] to [s'] the lock, the handles and the loaded modules are the
    same, no address was given out twice, and the trace only grew. *)
Definition untouched (s s' : State) : Prop :=
  gil s' = gil s ∧ native_mem s' = native_mem s
  ∧ sys_modules s' = sys_modules s
  ∧ next_loc s ≤ next_loc s'
  ∧ ∃ new, trace s' = trace s ++ new.

(** The events of a conversion that has the helper [f] at hand: native
    calls and calls of [f]. *)
Definition cached_event (f : loc) (ev : Event) : Prop :=
  match ev with
  | Native _ _ => True
  | Call c _ => c = f
  | Import _ | GetAttr _ _ => False
  end.

(** From [s] to [s'] the cached helper is the same and the trace grew by
    events of [cached_event f] only. *)
Definition quiet (f : loc) (s s' : State) : Prop :=
  convertToPyTime s' = convertToPyTime s
  ∧ ∃ new, trace s' = trace s ++ new ∧ Forall (cached_event f) new.

(** * Properties *)

(** ** State bookkeeping *)

Lemma set_gil_restore st n : set_gil (gil st) (set_gil n st) = st.
Proof. by destruct st. Qed.

Lemma set_native_mem_id st : set_native_mem (native_mem st) st = st.
Proof. by destruct st. Qed.

Lemma set_heap_id st f : f (heap st) = heap st → set_heap f st = st.
Proof. destruct st; unfold set_heap; simpl. by intros ->. Qed.

Lemma with_refcnt_id o : with_refcnt o (ob_refcnt o) = o.
Proof. by destruct o. Qed.

(** ** Reference counting *)

Lemma Py_INCREF_live st l o :
  heap st !! l = Some o →
  Py_INCREF l st = (tt, set_heap <[l := with_refcnt o (ob_refcnt o + 1)]> st).
Proof. intros H. unfold Py_INCREF, modify. by rewrite H. Qed.

Lemma Py_DECREF_rec_shared fuel st l o :
  heap st !! l = Some o → (ob_refcnt o ≠ 1)%Z →
  Py_DECREF_rec fuel l st
  = set_heap <[l := with_refcnt o (ob_refcnt o - 1)]> st.
Proof.
  intros H Hrc. destruct fuel; simpl; rewrite H;
    destruct (Z.eqb_spec (ob_refcnt o - 1) 0); try lia; done.
Qed.

Lemma Py_DECREF_shared st l o :
  heap st !! l = Some o → (ob_refcnt o ≠ 1)%Z →
  Py_DECREF l st = (tt, set_heap <[l := with_refcnt o (ob_refcnt o - 1)]> st).
Proof.
  intros H Hrc. unfold Py_DECREF, modify.
  by rewrite (Py_DECREF_rec_shared _ _ _ _ H Hrc).
Qed.

(** ** The lifetime bridge *)

Lemma bind_run {A B : Type} (m : M A) (k : A → M B) st :
  bind m k st = k (fst (m st)) (snd (m st)).
Proof. unfold bind. by destruct (m st). Qed.

Section lifetime_facts.
Variables COPY DESTROY : Z.
Variable own : Z.

Lemma set_gil_set_gil a b s : set_gil a (set_gil b s) = set_gil a s.
Proof. done. Qed.

Lemma set_gil_id s : set_gil (gil s) s = s.
Proof. by destruct s. Qed.

Lemma Py_DECREF_rec_set_gil fuel l s g :
  Py_DECREF_rec fuel l (set_gil g s) = set_gil g (Py_DECREF_rec fuel l s).
Proof.
  revert l s. induction fuel as [|fuel IH]; intros l s; simpl.
  - destruct (heap s !! l); [|done]. by case_match.
  - destruct (heap s !! l) as [o|]; [|done]. case_match; [|done].
    change (set_heap (delete l) (set_gil g s))
      with (set_gil g (set_heap (delete l) s)).
    generalize (set_heap (delete l) s). intros s'.
    induction (children (ob_body o)) as [|c cs IHc] in s' |- *; simpl;
      [done|]. rewrite IH. apply IHc.
Qed.

Lemma managerFunc_copy st dest src hs hd :
  native_mem st !! src = Some hs →
  native_mem st !! dest = Some hd →
  managerFunc COPY DESTROY dest src COPY st
  = (Some 0%Z,
     exec (Py_XINCREF (pointer hs))
       (set_native_mem (<[dest := hs]> (native_mem st)) st)).
Proof.
  intros Hs Hd. unfold managerFunc, bind, PyGILState_Ensure.
  rewrite Z.eqb_refl.
  unfold read_pointer, read_manager, write_pointer, write_manager. cbn.
  rewrite Hs. cbn. rewrite Hd. cbn.
  rewrite lookup_insert. 
  assert (Hm : manager <$> (if decide (dest = src) then Some {| pointer := pointer hs; manager := manager hd |} else native_mem st !! src) = Some (manager hs)).
  { case_decide; subst; simpl.
    - rewrite Hs in Hd. by inversion Hd.
    - by rewrite Hs. }
  rewrite Hm. cbn. rewrite lookup_insert_eq. cbn. rewrite lookup_insert_eq. cbn.
  rewrite insert_insert_eq.
  replace {| pointer := pointer hs; manager := manager hs |} with hs
    by (by destruct hs).
  unfold exec, ret, PyGILState_Release, modify.
  destruct (pointer hs) as [l|]; simpl.
  - unfold Py_INCREF, modify. simpl.
    destruct (heap st !! l); simpl; by destruct st.
  - unfold ret. simpl. by destruct st.
Qed.

Lemma managerFunc_destroy st handle sptr h :
  COPY ≠ DESTROY →
  native_mem st !! handle = Some h →
  managerFunc COPY DESTROY handle sptr DESTROY st
  = (Some 0%Z, exec (Py_XDECREF (pointer h)) st).
Proof.
  intros Hne Hh. unfold managerFunc, bind, PyGILState_Ensure.
  destruct (Z.eqb_spec DESTROY COPY) as [|_]; [congruence|].
  rewrite Z.eqb_refl.
  unfold read_pointer. cbn. rewrite Hh. cbn.
  unfold exec, ret, PyGILState_Release, modify.
  destruct (pointer h) as [l|]; cbn.
  - rewrite Py_DECREF_rec_set_gil, set_gil_set_gil.
    rewrite <- Py_DECREF_rec_set_gil. by rewrite set_gil_id.
  - by rewrite set_gil_restore.
Qed.

Lemma managerFunc_other st mptr sptr operation :
  operation ≠ COPY → operation ≠ DESTROY →
  managerFunc COPY DESTROY mptr sptr operation st = (Some 0%Z, st).
Proof.
  intros H1 H2. unfold managerFunc, bind, PyGILState_Ensure.
  destruct (Z.eqb_spec operation COPY); [done|].
  destruct (Z.eqb_spec operation DESTROY); [done|].
  unfold ret, PyGILState_Release, modify. cbn.
  by rewrite set_gil_restore.
Qed.
End lifetime_facts.



Lemma with_refcnt_with_refcnt o a b :
  with_refcnt (with_refcnt o a) b = with_refcnt o b.
Proof. done. Qed.

Lemma ManagedPtr_copy_effect COPY DESTROY st dest src hs l o :
  native_mem st !! src = Some hs → pointer hs = Some l →
  heap st !! l = Some o → is_Some (native_mem st !! dest) →
  eval (ManagedPtr_copy COPY DESTROY dest src) st = Some 0%Z
  ∧ heap (exec (ManagedPtr_copy COPY DESTROY dest src) st)
    = <[l := with_refcnt o (ob_refcnt o + 1)]> (heap st)
  ∧ native_mem (exec (ManagedPtr_copy COPY DESTROY dest src) st)
    = <[dest := hs]> (native_mem st).
Proof.
  intros Hs Hp Hl [hd Hd]. unfold ManagedPtr_copy, eval, exec.
  rewrite (managerFunc_copy _ _ _ _ _ _ _ Hs Hd). cbn.
  rewrite Hp. unfold exec. cbn. by rewrite Hl.
Qed.

Lemma ManagedPtr_destroy_effect COPY DESTROY st handle h l o :
  COPY ≠ DESTROY →
  native_mem st !! handle = Some h → pointer h = Some l →
  heap st !! l = Some o → ob_refcnt o ≠ 1%Z →
  eval (ManagedPtr_destroy COPY DESTROY handle) st = Some 0%Z
  ∧ heap (exec (ManagedPtr_destroy COPY DESTROY handle) st)
    = <[l := with_refcnt o (ob_refcnt o - 1)]> (heap st)
  ∧ native_mem (exec (ManagedPtr_destroy COPY DESTROY handle) st)
    = native_mem st.
Proof.
  intros Hne Hh Hp Hl Hrc. unfold ManagedPtr_destroy, eval, exec.
  rewrite (managerFunc_destroy _ _ _ _ _ _ Hne Hh). cbn.
  rewrite Hp. unfold exec. cbn.
  by rewrite (Py_DECREF_rec_shared _ _ _ _ Hl Hrc).
Qed.

(** C8: copy makes the destination inherit both fields of the source and
    raises the count of the referenced object by one; destroy lowers it by
    one and does nothing on a null pointer; after copy, copy, destroy,
    destroy the count (indeed the whole heap) is what it was. *)
Theorem copy_copy_destroy_destroy COPY DESTROY st src d1 d2 hs l o :
  COPY ≠ DESTROY →
  native_mem st !! src = Some hs → pointer hs = Some l →
  heap st !! l = Some o → (1 ≤ ob_refcnt o)%Z →
  is_Some (native_mem st !! d1) → is_Some (native_mem st !! d2) →
  let copy := ManagedPtr_copy COPY DESTROY in
  let destroy := ManagedPtr_destroy COPY DESTROY in
  let st1 := exec (copy d1 src) st in
  let st2 := exec (copy d2 src) st1 in
  let st3 := exec (destroy d1) st2 in
  let st4 := exec (destroy d2) st3 in
  (native_mem st1 !! d1 = Some hs
   ∧ refcount st1 l = Some (ob_refcnt o + 1)%Z)
  ∧ (native_mem st2 !! d2 = Some hs
     ∧ refcount st2 l = Some (ob_refcnt o + 2)%Z)
  ∧ refcount st3 l = Some (ob_refcnt o + 1)%Z
  ∧ refcount st4 l = refcount st l
  ∧ heap st4 = heap st
  ∧ (∀ s a h, native_mem s !! a = Some h → pointer h = None →
       destroy a s = (Some 0%Z, s)).
Proof.
  intros Hne Hsrc Hp Hl Hrc Hd1 Hd2 copy destroy st1 st2 st3 st4.
  destruct (ManagedPtr_copy_effect COPY DESTROY st d1 src hs l o)
    as (_ & Hh1 & Hm1); try done.
  fold copy st1 in Hh1, Hm1.
  assert (Hsrc1 : native_mem st1 !! src = Some hs).
  { rewrite Hm1, lookup_insert. by case_decide. }
  assert (Hl1 : heap st1 !! l = Some (with_refcnt o (ob_refcnt o + 1))).
  { by rewrite Hh1, lookup_insert_eq. }
  destruct (ManagedPtr_copy_effect COPY DESTROY st1 d2 src hs l _ Hsrc1 Hp Hl1)
    as (_ & Hh2 & Hm2).
  { rewrite Hm1, lookup_insert. case_decide; eauto. }
  fold copy st2 in Hh2, Hm2. cbn in Hh2.
  assert (Hl2 : heap st2 !! l = Some (with_refcnt o (ob_refcnt o + 1 + 1))).
  { by rewrite Hh2, lookup_insert_eq. }
  assert (Hd12 : native_mem st2 !! d1 = Some hs).
  { rewrite Hm2, lookup_insert. case_decide; [done|].
    by rewrite Hm1, lookup_insert_eq. }
  assert (Hd22 : native_mem st2 !! d2 = Some hs).
  { by rewrite Hm2, lookup_insert_eq. }
  destruct (ManagedPtr_destroy_effect COPY DESTROY st2 d1 hs l _ Hne Hd12 Hp Hl2)
    as (_ & Hh3 & Hm3); [cbn; lia|].
  fold destroy st3 in Hh3, Hm3. cbn in Hh3.
  assert (Hl3 : heap st3 !! l
                = Some (with_refcnt o (ob_refcnt o + 1 + 1 - 1))).
  { by rewrite Hh3, lookup_insert_eq. }
  assert (Hd23 : native_mem st3 !! d2 = Some hs) by by rewrite Hm3.
  destruct (ManagedPtr_destroy_effect COPY DESTROY st3 d2 hs l _ Hne Hd23 Hp Hl3)
    as (_ & Hh4 & Hm4); [cbn; lia|].
  fold destroy st4 in Hh4, Hm4. cbn in Hh4.
  assert (Hfinal : heap st4 = heap st).
  { rewrite Hh4, Hh3, Hh2, Hh1, !insert_insert_eq.
    apply insert_id. rewrite Hl. f_equal. destruct o; unfold with_refcnt; cbn.
    f_equal. lia. }
  repeat split.
  - by rewrite Hm1, lookup_insert_eq.
  - unfold refcount. by rewrite Hl1.
  - done.
  - unfold refcount. rewrite Hl2. cbn. f_equal. lia.
  - unfold refcount. rewrite Hl3. cbn. f_equal. lia.
  - unfold refcount. by rewrite Hfinal.
  - done.
  - intros s a h Ha Hnull. unfold destroy, ManagedPtr_destroy.
    rewrite (managerFunc_destroy _ _ _ _ _ _ Hne Ha). by rewrite Hnull.
Qed.

(** C9: [is_known_obj] answers 1 exactly for a handle whose manager
    pointer is the address of the bridge's own [managerFunc], which is what
    [setmptr] installs, and 0 for a handle that carries any other manager
    pointer; it changes nothing. *)
Theorem is_known_obj_own_manager own st s h :
  native_mem st !! s = Some h →
  (is_known_obj own s st = (Some 1%Z, st) ↔ manager h = own)
  ∧ (is_known_obj own s st = (Some 0%Z, st) ↔ manager h ≠ own)
  ∧ eval (is_known_obj own s) (exec (setmptr own s) st) = Some 1%Z
  ∧ native_mem (exec (setmptr own s) st)
    = <[s := {| pointer := pointer h; manager := own |}]> (native_mem st).
Proof.
  intros Hs. unfold is_known_obj, setmptr, eval, exec, bind, read_manager,
    write_manager, ret. cbn. rewrite Hs. cbn. rewrite lookup_insert_eq. cbn.
  rewrite Z.eqb_refl.
  destruct (Z.eqb_spec (manager h) own); repeat split; try done;
    intros; congruence.
Qed.

(** C10: for an operation code that is neither copy nor destroy the
    callback leaves the whole state as it was: both handles, every
    reference count, the lock; and whatever the operation code, the status
    it returns is 0. *)
Theorem managerFunc_unrecognised_operation COPY DESTROY st mptr sptr operation :
  (operation ≠ COPY → operation ≠ DESTROY →
   managerFunc COPY DESTROY mptr sptr operation st = (Some 0%Z, st))
  ∧ (∀ status, eval (managerFunc COPY DESTROY mptr sptr operation) st
               = Some status → status = 0%Z)
  ∧ (is_Some (native_mem st !! mptr) → is_Some (native_mem st !! sptr) →
     eval (managerFunc COPY DESTROY mptr sptr operation) st = Some 0%Z).
Proof.
  split; [apply managerFunc_other|]. split.
  - intros status. unfold eval, managerFunc.
    rewrite bind_run. cbv beta. rewrite bind_run. cbv beta.
    match goal with |- context [match ?x with Some _ => _ | None => _ end] =>
      destruct x as [[]|] end;
      unfold PyGILState_Release, modify, ret, bind; cbn; congruence.
  - intros [hm Hm] [hs Hs].
    destruct (decide (operation = COPY)) as [->|Hc].
    { unfold eval. by rewrite (managerFunc_copy _ _ _ _ _ _ _ Hs Hm). }
    destruct (decide (operation = DESTROY)) as [->|Hd].
    { unfold eval.
      by rewrite (managerFunc_destroy COPY DESTROY _ _ _ _ (not_eq_sym Hc) Hm). }
    unfold eval. by rewrite managerFunc_other.
Qed.

(** ** Running the monad *)

Lemma blpapi_Element_toPy_unfold element :
  blpapi_Element_toPy element
  = (c <-- blpapi_Element_isComplexType element ;;
     if c : bool then complexElementToPy blpapi_Element_toPy element
     else
       a <-- blpapi_Element_isArray element ;;
       if a : bool then arrayElementToPy blpapi_Element_toPy element
       else
         n <-- blpapi_Element_isNull element ;;
         if n : bool then Py_RETURN_NONE
         else getScalarValue element 0).
Proof. by destruct element. Qed.


(** ** Heap bookkeeping *)

Lemma body_at_Py_INCREF st l x :
  body_at (exec (Py_INCREF l) st) x = body_at st x.
Proof.
  unfold body_at, exec, Py_INCREF, modify. cbn.
  destruct (heap st !! l) as [o|] eqn:Hl; cbn; [|done].
  rewrite lookup_insert. case_decide; [|done]. subst. by rewrite Hl.
Qed.

Lemma body_at_new_object st b x :
  body_at (exec (new_object b) st) x
  = if decide (x = next_loc st) then Some b else body_at st x.
Proof.
  unfold body_at, exec, new_object. cbn. rewrite lookup_insert.
  case_decide; subst; case_decide; done.
Qed.

Lemma heap_bounded_Py_INCREF st l :
  heap_bounded st → heap_bounded (exec (Py_INCREF l) st).
Proof.
  unfold heap_bounded, exec, Py_INCREF, modify. cbn. intros Hb x.
  destruct (heap st !! l) as [o|] eqn:Hl; cbn; [|apply Hb].
  rewrite lookup_insert. case_decide; [|apply Hb]. subst. intros _.
  apply Hb. eauto.
Qed.

Lemma heap_bounded_new_object st b :
  heap_bounded st → heap_bounded (exec (new_object b) st).
Proof.
  unfold heap_bounded, exec, new_object. cbn. intros Hb x.
  rewrite lookup_insert. case_decide; [subst; lia|].
  intros Hx. apply Hb in Hx. lia.
Qed.

Lemma namespace_attr_new_object st b o name :
  heap_bounded st → (∀ attrs, b ≠ PyNamespace attrs) →
  namespace_attr (exec (new_object b) st) o name = namespace_attr st o name.
Proof.
  intros Hb Hns. unfold namespace_attr. rewrite body_at_new_object.
  case_decide as Ho; [|done]. subst.
  assert (body_at st (next_loc st) = None) as ->.
  { unfold body_at. destruct (heap st !! next_loc st) eqn:E; [|done].
    assert (next_loc st < next_loc st) by (apply Hb; eauto). lia. }
  destruct b; try done. by destruct (Hns attrs).
Qed.

Lemma namespace_attr_Py_INCREF st l o name :
  namespace_attr (exec (Py_INCREF l) st) o name = namespace_attr st o name.
Proof. unfold namespace_attr. by rewrite body_at_Py_INCREF. Qed.

Lemma PyObject_GetAttr_run o n attr st :
  body_at st n = Some (PyUnicode attr) →
  PyObject_GetAttr o (Some n) st
  = match namespace_attr st o attr with
    | Some v => (Some v, exec (Py_INCREF v) (log (GetAttr o attr) st))
    | None =>
        (NULL,
         set_err (Some {| exc_type := PyExc_AttributeError; exc_msg := attr |})
           (log (GetAttr o attr) st))
    end.
Proof.
  unfold body_at, namespace_attr, body_at, PyObject_GetAttr. cbn.
  destruct (heap st !! n) as [[rc []]|]; cbn; try done.
  intros [= ->].
  destruct (heap st !! o) as [[rc' []]|]; cbn; done.
Qed.

Lemma heap_bounded_fields st st' :
  heap st' = heap st → next_loc st' = next_loc st →
  heap_bounded st → heap_bounded st'.
Proof. unfold heap_bounded. by intros -> ->. Qed.

Lemma PyImport_ImportModule_run name st :
  PyImport_ImportModule name st
  = match sys_modules st !! name with
    | Some m => (Some m, exec (Py_INCREF m) (log (Import name) st))
    | None =>
        (NULL,
         set_err (Some {| exc_type := PyExc_ImportError; exc_msg := name |})
           (log (Import name) st))
    end.
Proof. unfold PyImport_ImportModule, bind, modify. cbn. by case_match. Qed.

Lemma Py_DECREF_rec_outside_heap fuel l st :
  outside_heap (Py_DECREF_rec fuel l st) = outside_heap st.
Proof.
  revert l st. induction fuel as [|fuel IH]; intros l st; cbn.
  - destruct (heap st !! l); [|done]. by case_match.
  - destruct (heap st !! l) as [o|]; [|done]. case_match; [|done].
    change (outside_heap st) with (outside_heap (set_heap (delete l) st)).
    generalize (set_heap (delete l) st). intros s.
    induction (children (ob_body o)) as [|c cs IHc] in s |- *; cbn; [done|].
    by rewrite IHc, IH.
Qed.

Lemma outside_heap_fields st st' :
  outside_heap st' = outside_heap st →
  next_loc st' = next_loc st ∧ err st' = err st
  ∧ sys_modules st' = sys_modules st
  ∧ blpapiDatetimeModule st' = blpapiDatetimeModule st
  ∧ datetimeUtil st' = datetimeUtil st
  ∧ convertToPyTime st' = convertToPyTime st
  ∧ gil st' = gil st ∧ native_mem st' = native_mem st
  ∧ trace st' = trace st.
Proof. unfold outside_heap. intros [=]. by repeat split. Qed.

Lemma heap_bounded_set_refcnt st l o o' :
  heap st !! l = Some o → heap_bounded st →
  heap_bounded (set_heap <[l := o']> st).
Proof.
  intros Hl Hb x. cbn. rewrite lookup_insert. case_decide; [|apply Hb].
  subst. intros _. apply Hb. eauto.
Qed.

Lemma heap_bounded_Py_DECREF_rec fuel l st :
  heap_bounded st → heap_bounded (Py_DECREF_rec fuel l st).
Proof.
  revert l st. induction fuel as [|fuel IH]; intros l st Hb; cbn.
  - destruct (heap st !! l) eqn:Hl; [|done]. case_match; [done|].
    by eapply heap_bounded_set_refcnt.
  - destruct (heap st !! l) as [o|] eqn:Hl; [|done]. case_match.
    + assert (Hd : heap_bounded (set_heap (delete l) st)).
      { intros x. cbn. rewrite lookup_delete. case_decide; [by intros []|].
        apply Hb. }
      revert Hd. generalize (set_heap (delete l) st). intros s Hs.
      induction (children (ob_body o)) as [|c cs IHc] in s, Hs |- *; cbn;
        [done|]. apply IHc. by apply IH.
    + by eapply heap_bounded_set_refcnt.
Qed.


(** ** The scalar converter *)

Lemma initialize_static_variables_failure st :
  eval initialize_static_variables st = false →
  is_Some (err (exec initialize_static_variables st)).
Proof.
  unfold eval, exec, initialize_static_variables.
  rewrite bind_run. cbv beta. rewrite bind_run. cbv beta.
  destruct (PyImport_ImportModule "blpapi.datetime" st) as [[m|] st1]; cbn.
  2: { intros _. eauto. }
  rewrite !bind_run. cbv beta.
  destruct (PyObject_GetAttr m _ _) as [[u|] st2]; cbn.
  2: { intros _. eauto. }
  rewrite !bind_run. cbv beta.
  destruct (PyObject_GetAttr u _ _) as [[c|] st3]; cbn; [done|].
  intros _. eauto.
Qed.

Lemma getScalarValue_datetime_accessor_failure element index st :
  el_getValueAsHighPrecisionDatetime element index = None →
  eval (getScalarValue_datetime element index) st = NULL
  ∧ is_Some (err (exec (getScalarValue_datetime element index) st)).
Proof.
  intros Hacc. unfold eval, exec, getScalarValue_datetime.
  rewrite bind_run. cbn [get_convertToPyTime fst snd].
  rewrite bind_run.
  destruct (convertToPyTime st) as [f|].
  - cbn. rewrite Hacc. cbn. eauto.
  - pose proof (initialize_static_variables_failure st) as Hfail.
    unfold eval, exec in Hfail.
    destruct (initialize_static_variables st) as [[|] st1]; cbn.
    + rewrite Hacc. cbn. eauto.
    + split; [done|]. by apply Hfail.
Qed.

(** C3: [getScalarValue] reads the datatype tag and dispatches on it alone.
    A boolean tag reads the boolean accessor and returns [True] or [False];
    the byte, 32-bit and 64-bit integer tags read the 64-bit integer
    accessor and return a new integer; the two float tags read the 64-bit
    float accessor and return a new float; the char, string and enumeration
    tags read the string accessor and return a new text object that copies
    it; the byte-array tag returns a new bytes object that copies the
    buffer; the date, time and date-time tags hand over to the date/time
    case; the sequence and choice tags and every tag outside the list fail
    with the exception "Internal datatype error", which is how the code
    reports an unsupported datatype.  Whenever the accessor reports a
    failure the result is [NULL] and the error indicator is set.  In each
    case exactly the accessor named is called, once, at the given index. *)
Theorem getScalarValue_dispatch element index st :
  let r := eval (getScalarValue element index) st in
  let st' := exec (getScalarValue element index) st in
  let called (c : NativeCall) :=
    trace st' = trace st ++ [Native element N_datatype; Native element c] in
  match el_datatype element with
  | BLPAPI_DATATYPE_BOOL =>
      called (N_getValueAsBool index)
      ∧ match el_getValueAsBool element index with
        | Some v => r = Some (if (v =? 0)%Z then Py_False else Py_True)
                    ∧ st' = exec (Py_INCREF (if (v =? 0)%Z then Py_False else Py_True))
                              (log (Native element (N_getValueAsBool index))
                                 (log (Native element N_datatype) st))
        | None => fails_with st' r "Internal error getting bool"
        end
  | BLPAPI_DATATYPE_BYTE | BLPAPI_DATATYPE_INT32 | BLPAPI_DATATYPE_INT64 =>
      called (N_getValueAsInt64 index)
      ∧ match el_getValueAsInt64 element index with
        | Some v => fresh_object st st' r (PyLong v)
        | None => fails_with st' r "Internal error getting int"
        end
  | BLPAPI_DATATYPE_FLOAT32 | BLPAPI_DATATYPE_FLOAT64 =>
      called (N_getValueAsFloat64 index)
      ∧ match el_getValueAsFloat64 element index with
        | Some v => fresh_object st st' r (PyFloat v)
        | None => fails_with st' r "Internal error getting float"
        end
  | BLPAPI_DATATYPE_CHAR | BLPAPI_DATATYPE_STRING
  | BLPAPI_DATATYPE_ENUMERATION =>
      called (N_getValueAsString index)
      ∧ match el_getValueAsString element index with
        | Some v => fresh_object st st' r (PyUnicode v)
        | None => fails_with st' r "Internal error getting string"
        end
  | BLPAPI_DATATYPE_BYTEARRAY =>
      called (N_getValueAsBytes index)
      ∧ match el_getValueAsBytes element index with
        | Some v => fresh_object st st' r (PyBytes v)
        | None => fails_with st' r "Internal error getting bytes"
        end
  | BLPAPI_DATATYPE_DATE | BLPAPI_DATATYPE_TIME | BLPAPI_DATATYPE_DATETIME =>
      getScalarValue element index st
      = getScalarValue_datetime element index (log (Native element N_datatype) st)
      ∧ (el_getValueAsHighPrecisionDatetime element index = None →
         r = NULL ∧ is_Some (err st'))
  | BLPAPI_DATATYPE_SEQUENCE | BLPAPI_DATATYPE_CHOICE
  | BLPAPI_DATATYPE_unlisted _ =>
      fails_with st' r "Internal datatype error"
      ∧ st' = set_err (error "Internal datatype error")
                (log (Native element N_datatype) st)
  end.
Proof.
  cbv zeta.
  unfold getScalarValue, eval, exec, fresh_object, fails_with, error.
  rewrite bind_run. cbn [blpapi_Element_datatype native fst snd].
  destruct (el_datatype element) eqn:Hd.
  all: try (split; [reflexivity|];
            apply getScalarValue_datetime_accessor_failure).
  all: cbn.
  all: try (match goal with
            | |- context [match ?x with Some _ => _ | None => _ end] =>
                destruct x
            end; cbn; rewrite <- ?app_assoc; repeat split; done).
  - destruct (el_getValueAsBool element index) as [v|]; cbn;
      [|rewrite <- app_assoc; by repeat split].
    destruct (heap st !! _); cbn; rewrite <- app_assoc; by repeat split.
  - done.
  - done.
  - done.
Qed.

Lemma Py_INCREF_outside_heap l st :
  outside_heap (exec (Py_INCREF l) st) = outside_heap st.
Proof. unfold exec, Py_INCREF, modify. cbn. by destruct (heap st !! l). Qed.

Lemma Py_DECREF_outside_heap l st :
  outside_heap (exec (Py_DECREF l) st) = outside_heap st.
Proof. apply Py_DECREF_rec_outside_heap. Qed.

Lemma heap_bounded_Py_DECREF l st :
  heap_bounded st → heap_bounded (exec (Py_DECREF l) st).
Proof. apply heap_bounded_Py_DECREF_rec. Qed.


(** ** Heaps that shrink *)

Lemma sub_heap_refl h : sub_heap h h.
Proof. intros x o Hx. eauto. Qed.

Lemma sub_heap_trans h1 h2 h3 :
  sub_heap h1 h2 → sub_heap h2 h3 → sub_heap h1 h3.
Proof.
  intros H12 H23 x o1 Hx. destruct (H12 _ _ Hx) as (o2 & Hx2 & E2).
  destruct (H23 _ _ Hx2) as (o3 & Hx3 & E3). exists o3. split; congruence.
Qed.

Lemma sub_heap_delete h l : sub_heap (delete l h) h.
Proof.
  intros x o. rewrite lookup_delete. case_decide; [done|]. eauto.
Qed.

Lemma sub_heap_insert h l o o' :
  h !! l = Some o → ob_body o' = ob_body o → sub_heap (<[l := o']> h) h.
Proof.
  intros Hl Hb x o''. rewrite lookup_insert. case_decide; [|eauto].
  subst. intros [= <-]. eauto.
Qed.

Lemma region_closed_sub h h' lo hi :
  sub_heap h' h → region_closed h lo hi → region_closed h' lo hi.
Proof.
  intros Hsub Hc x o' c Hx Hl Hin. destruct (Hsub _ _ Hl) as (o & Ho & Hb).
  apply (Hc x o c); [done..|]. by rewrite Hb.
Qed.

Lemma singletons_sane_sub h h' :
  sub_heap h' h → singletons_sane h → singletons_sane h'.
Proof.
  intros Hsub Hs x o' Hx Hl. destruct (Hsub _ _ Hl) as (o & Ho & Hb).
  rewrite <- Hb. by apply Hs.
Qed.

Lemma singleton_children h x o :
  singletons_sane h → x < 3 → h !! x = Some o → children (ob_body o) = [].
Proof. intros Hs Hx Hl. rewrite (Hs x o Hx Hl). by case_decide. Qed.

Lemma Py_DECREF_rec_region fuel l st lo hi :
  region_closed (heap st) lo hi → singletons_sane (heap st) →
  l < 3 ∨ lo ≤ l < hi →
  sub_heap (heap (Py_DECREF_rec fuel l st)) (heap st)
  ∧ ∀ x, 3 ≤ x → ¬ (lo ≤ x < hi) →
         heap (Py_DECREF_rec fuel l st) !! x = heap st !! x.
Proof.
  revert l st. induction fuel as [|fuel IH]; intros l st Hc Hs Hl; cbn.
  - destruct (heap st !! l) as [o|] eqn:Ho; cbn;
      [|split; [apply sub_heap_refl|done]].
    case_match; cbn; [split; [apply sub_heap_refl|done]|].
    split; [by eapply sub_heap_insert|].
    intros x Hx Hout. rewrite lookup_insert_ne; [done|lia].
  - destruct (heap st !! l) as [o|] eqn:Ho; cbn;
      [|split; [apply sub_heap_refl|done]].
    case_match; cbn.
    2: { split; [by eapply sub_heap_insert|].
         intros x Hx Hout. rewrite lookup_insert_ne; [done|lia]. }
    assert (Hcs : ∀ c, c ∈ children (ob_body o) → c < 3 ∨ lo ≤ c < hi).
    { intros c Hin. destruct Hl as [Hl|Hl].
      - rewrite (singleton_children _ _ _ Hs Hl Ho) in Hin. by inversion Hin.
      - by apply (Hc l o c). }
    assert (Hsub0 : sub_heap (heap (set_heap (delete l) st)) (heap st))
      by apply sub_heap_delete.
    assert (Hfr0 : ∀ x, 3 ≤ x → ¬ (lo ≤ x < hi) →
                        heap (set_heap (delete l) st) !! x = heap st !! x).
    { intros x Hx Hout. cbn. rewrite lookup_delete_ne; [done|lia]. }
    revert Hsub0 Hfr0. generalize (set_heap (delete l) st). intros s.
    induction (children (ob_body o)) as [|c cs IHc] in s, Hcs |- *; cbn;
      intros Hsub0 Hfr0; [done|].
    destruct (IH c s) as [Hsub1 Hfr1].
    { by eapply region_closed_sub. }
    { by eapply singletons_sane_sub. }
    { apply Hcs. by left. }
    apply IHc.
    + intros c' Hin. apply Hcs. by right.
    + by eapply sub_heap_trans.
    + intros x Hx Hout. rewrite Hfr1 by done. by apply Hfr0.
Qed.

Lemma Py_DECREF_region l st lo hi :
  region_closed (heap st) lo hi → singletons_sane (heap st) →
  l < 3 ∨ lo ≤ l < hi →
  let st' := exec (Py_DECREF l) st in
  sub_heap (heap st') (heap st)
  ∧ (∀ x, 3 ≤ x → ¬ (lo ≤ x < hi) → heap st' !! x = heap st !! x)
  ∧ outside_heap st' = outside_heap st.
Proof.
  intros Hc Hs Hl. cbv zeta. unfold exec, Py_DECREF, modify. cbn.
  destruct (Py_DECREF_rec_region (size (heap st)) l st lo hi Hc Hs Hl).
  repeat split; [done..|]. apply Py_DECREF_rec_outside_heap.
Qed.

(** ** The helper stays what it is *)

Lemma body_at_singleton st x b :
  singletons_sane (heap st) → x < 3 → body_at st x = Some b →
  b = PyNone ∨ ∃ t, b = PyBool t.
Proof.
  unfold body_at. intros Hs Hx. destruct (heap st !! x) as [o|] eqn:Ho; [|done].
  cbn. intros [= <-]. rewrite (Hs x o Hx Ho). case_decide; eauto.
Qed.

Lemma namespace_attr_old base st st' x name :
  singletons_sane (heap st) → singletons_sane (heap st') →
  (∀ y, 3 ≤ y < base → body_at st' y = body_at st y) →
  x < base →
  namespace_attr st' x name = namespace_attr st x name.
Proof.
  intros Hs Hs' Hold Hx. unfold namespace_attr.
  destruct (decide (3 ≤ x)); [by rewrite Hold by lia|].
  destruct (body_at st x) as [b|] eqn:Hb, (body_at st' x) as [b'|] eqn:Hb';
    try done.
  - destruct (body_at_singleton st x b) as [->|[? ->]]; [done|lia|done|..];
      by destruct (body_at_singleton st' x b') as [->|[? ->]]; [done|lia|done|..].
  - by destruct (body_at_singleton st x b) as [->|[? ->]]; [done|lia|done|..].
  - by destruct (body_at_singleton st' x b') as [->|[? ->]]; [done|lia|done|..].
Qed.

Lemma callable_at_old base st st' x :
  singletons_sane (heap st) → singletons_sane (heap st') →
  (∀ y, 3 ≤ y < base → body_at st' y = body_at st y) →
  x < base →
  callable_at st' x = callable_at st x.
Proof.
  intros Hs Hs' Hold Hx. unfold callable_at.
  destruct (decide (3 ≤ x)); [by rewrite Hold by lia|].
  destruct (body_at st x) as [b|] eqn:Hb, (body_at st' x) as [b'|] eqn:Hb';
    try done.
  - destruct (body_at_singleton st x b) as [->|[? ->]]; [done|lia|done|..];
      by destruct (body_at_singleton st' x b') as [->|[? ->]]; [done|lia|done|..].
  - by destruct (body_at_singleton st x b) as [->|[? ->]]; [done|lia|done|..].
  - by destruct (body_at_singleton st' x b') as [->|[? ->]]; [done|lia|done|..].
Qed.

Lemma namespace_attr_child base st x name u :
  well_formed base st → x < base → namespace_attr st x name = Some u →
  u < base.
Proof.
  intros Hwf Hx. unfold namespace_attr, body_at.
  destruct (heap st !! x) as [o|] eqn:Ho; [|done]. cbn.
  destruct (ob_body o) as [| | | | | | | |attrs| |] eqn:Hb; try done.
  intros Hu. apply (wf_old _ _ Hwf x o u Hx Ho). rewrite Hb. cbn.
  apply list_elem_of_fmap. exists (name, u). split; [done|].
  by apply elem_of_map_to_list.
Qed.

Lemma resolve_helper_old base st c :
  well_formed base st → resolve_helper st = Some c → c < base.
Proof.
  intros Hwf. unfold resolve_helper.
  destruct (sys_modules st !! "blpapi.datetime") as [m|] eqn:Hm; [|done]. cbn.
  destruct (namespace_attr st m "_DatetimeUtil") as [u|] eqn:Hu; [|done]. cbn.
  intros Hc. pose proof (wf_modules _ _ Hwf _ _ Hm).
  eapply namespace_attr_child; [done| |done].
  by eapply namespace_attr_child.
Qed.

Lemma resolve_helper_stable base st st' :
  well_formed base st → singletons_sane (heap st') →
  (∀ y, 3 ≤ y < base → body_at st' y = body_at st y) →
  sys_modules st' = sys_modules st →
  resolve_helper st' = resolve_helper st.
Proof.
  intros Hwf Hs' Hold Hm. unfold resolve_helper. rewrite Hm.
  destruct (sys_modules st !! "blpapi.datetime") as [m|] eqn:Hmod; [|done].
  cbn. pose proof (wf_modules _ _ Hwf _ _ Hmod) as Hlt.
  rewrite (namespace_attr_old base st st' m) by (done || apply Hwf).
  destruct (namespace_attr st m "_DatetimeUtil") as [u|] eqn:Hu; [|done]. cbn.
  apply (namespace_attr_old base); [apply Hwf|done..|].
  by eapply namespace_attr_child.
Qed.

Lemma helper_of_stable base st st' :
  well_formed base st → singletons_sane (heap st') →
  (∀ y, 3 ≤ y < base → body_at st' y = body_at st y) →
  sys_modules st' = sys_modules st →
  convertToPyTime st' = convertToPyTime st →
  helper_of st' = helper_of st.
Proof.
  intros Hwf Hs' Hold Hm Hc. unfold helper_of. rewrite Hc.
  destruct (convertToPyTime st) as [c|] eqn:Hcache; cbn.
  - f_equal. apply (callable_at_old base); [apply Hwf|done..|].
    by apply (wf_cache _ _ Hwf).
  - rewrite (resolve_helper_stable base st st') by done.
    destruct (resolve_helper st) as [c|] eqn:Hr; [|done]. cbn. f_equal.
    apply (callable_at_old base); [apply Hwf|done..|].
    by eapply resolve_helper_old.
Qed.

(** ** Steps that keep a conversion on course *)

Lemma body_at_heap st st' x :
  heap st' !! x = heap st !! x → body_at st' x = body_at st x.
Proof. unfold body_at. by intros ->. Qed.

Lemma evolves_intro base from st st' :
  well_formed base st →
  next_loc st ≤ next_loc st' →
  heap_bounded st' →
  singletons_sane (heap st') →
  (∀ x, base ≤ x < from → heap st' !! x = heap st !! x) →
  (∀ x, 3 ≤ x < base → body_at st' x = body_at st x) →
  sys_modules st' = sys_modules st →
  convertToPyTime st' = convertToPyTime st →
  evolves base from st st'.
Proof.
  intros Hwf Hn Hb Hs Hfr Hold Hm Hc. split; try done.
  - split; try done.
    + pose proof (wf_base _ _ Hwf). lia.
    + intros name m. rewrite Hm. apply Hwf.
    + intros x o c Hx Ho Hin. destruct (decide (3 ≤ x)).
      * assert (Hbody : body_at st x = Some (ob_body o)).
        { rewrite <- Hold by lia. unfold body_at. by rewrite Ho. }
        unfold body_at in Hbody.
        destruct (heap st !! x) as [o0|] eqn:Ho0; [|done].
        injection Hbody as Hbody.
        apply (wf_old _ _ Hwf x o0 c); [done..|]. by rewrite Hbody.
      * rewrite (singleton_children _ x o Hs) in Hin; [|lia|done].
        by inversion Hin.
    + intros c. rewrite Hc. apply Hwf.
  - by apply (helper_of_stable base).
Qed.

Lemma evolves_refl base from st : well_formed base st → evolves base from st st.
Proof. intros Hwf. apply evolves_intro; try done; apply Hwf. Qed.

Lemma evolves_trans base from st1 st2 st3 :
  evolves base from st1 st2 → evolves base from st2 st3 →
  evolves base from st1 st3.
Proof.
  intros [W1 N1 F1 O1 M1 H1] [W2 N2 F2 O2 M2 H2]. split; try done.
  - lia.
  - intros x Hx. rewrite F2 by done. by apply F1.
  - intros x Hx. rewrite O2 by done. by apply O1.
  - congruence.
  - congruence.
Qed.

Lemma evolves_weaken base from from' st st' :
  from' ≤ from → evolves base from st st' → evolves base from' st st'.
Proof.
  intros Hle [W N F O M H]. split; try done. intros x Hx. apply F. lia.
Qed.

(** Any change outside the heap that keeps the modules and the cache. *)
Lemma evolves_same_heap base from st st' :
  well_formed base st →
  heap st' = heap st → next_loc st' = next_loc st →
  sys_modules st' = sys_modules st →
  convertToPyTime st' = convertToPyTime st →
  evolves base from st st'.
Proof.
  intros Hwf Hh Hn Hm Hc.
  apply evolves_intro; try done.
  - lia.
  - eapply heap_bounded_fields; [done..|apply Hwf].
  - rewrite Hh. apply Hwf.
  - intros. by rewrite Hh.
  - intros. apply body_at_heap. by rewrite Hh.
Qed.

Lemma evolves_log base from st ev :
  well_formed base st → evolves base from st (log ev st).
Proof. intros. by apply evolves_same_heap. Qed.

Lemma evolves_Py_INCREF base from st l :
  well_formed base st → l < base ∨ from ≤ l →
  evolves base from st (exec (Py_INCREF l) st).
Proof.
  intros Hwf Hl.
  pose proof (outside_heap_fields _ _ (Py_INCREF_outside_heap l st))
    as (Hn & _ & Hm & _ & _ & Hc & _).
  assert (Hsub : sub_heap (heap (exec (Py_INCREF l) st)) (heap st)).
  { unfold exec, Py_INCREF, modify. cbn.
    destruct (heap st !! l) as [o|] eqn:Ho; cbn; [|apply sub_heap_refl].
    by eapply sub_heap_insert. }
  assert (Hne : ∀ x, x ≠ l →
                     heap (exec (Py_INCREF l) st) !! x = heap st !! x).
  { intros x Hx. unfold exec, Py_INCREF, modify. cbn.
    destruct (heap st !! l) as [o|] eqn:Ho; cbn; [|done].
    by rewrite lookup_insert_ne. }
  apply evolves_intro; try done.
  - lia.
  - apply heap_bounded_Py_INCREF, Hwf.
  - eapply singletons_sane_sub; [done|apply Hwf].
  - intros x Hx. apply Hne. pose proof (wf_base _ _ Hwf). lia.
  - intros x Hx. apply body_at_Py_INCREF.
Qed.

Lemma evolves_new_object base from st b :
  well_formed base st → from ≤ next_loc st →
  evolves base from st (exec (new_object b) st).
Proof.
  intros Hwf Hfrom. pose proof (wf_base _ _ Hwf).
  assert (Hne : ∀ x, x ≠ next_loc st →
                     heap (exec (new_object b) st) !! x = heap st !! x).
  { intros x Hx. unfold exec, new_object. cbn. by rewrite lookup_insert_ne. }
  apply evolves_intro; try done.
  - cbn. lia.
  - apply heap_bounded_new_object, Hwf.
  - intros x o Hx. rewrite Hne by lia. by apply Hwf.
  - intros x Hx. apply Hne. lia.
  - intros x Hx. apply body_at_heap, Hne. lia.
Qed.

Lemma evolves_Py_DECREF base from st l lo hi :
  well_formed base st → base ≤ from → from ≤ lo →
  region_closed (heap st) lo hi → l < 3 ∨ lo ≤ l < hi →
  evolves base from st (exec (Py_DECREF l) st).
Proof.
  intros Hwf Hbf Hfl Hc Hl. pose proof (wf_base _ _ Hwf).
  destruct (Py_DECREF_region l st lo hi Hc (wf_singletons _ _ Hwf) Hl)
    as (Hsub & Hfr & Hout).
  pose proof (outside_heap_fields _ _ Hout) as (Hn & _ & Hm & _ & _ & Hcache & _).
  apply evolves_intro; try done.
  - lia.
  - apply heap_bounded_Py_DECREF, Hwf.
  - eapply singletons_sane_sub; [done|apply Hwf].
  - intros x Hx. apply Hfr; lia.
  - intros x Hx. apply body_at_heap, Hfr; lia.
Qed.

Lemma evolves_step base from st s s' :
  evolves base from st s →
  (well_formed base s → evolves base from s s') →
  evolves base from st s'.
Proof. intros E H. eapply evolves_trans; [done|]. apply H, E. Qed.

Lemma evolves_set_blpapiDatetimeModule base from st p :
  well_formed base st → evolves base from st (set_blpapiDatetimeModule p st).
Proof. intros. by apply evolves_same_heap. Qed.

Lemma evolves_set_datetimeUtil base from st p :
  well_formed base st → evolves base from st (set_datetimeUtil p st).
Proof. intros. by apply evolves_same_heap. Qed.

(** Peel the outermost state transformer off the target of [evolves]. *)
Ltac evolve :=
  lazymatch goal with
  | |- evolves _ _ ?st ?st => apply evolves_refl; try done
  | |- evolves _ _ ?st (log ?ev ?s) =>
      apply (evolves_step _ _ st s);
      [evolve | let W := fresh "W" in intros W; by apply evolves_log]
  | |- evolves _ _ ?st (set_blpapiDatetimeModule ?p ?s) =>
      apply (evolves_step _ _ st s);
      [evolve
      | let W := fresh "W" in
        intros W; by apply evolves_set_blpapiDatetimeModule]
  | |- evolves _ _ ?st (set_datetimeUtil ?p ?s) =>
      apply (evolves_step _ _ st s);
      [evolve
      | let W := fresh "W" in intros W; by apply evolves_set_datetimeUtil]
  | |- evolves _ _ ?st (exec (Py_INCREF ?l) ?s) =>
      apply (evolves_step _ _ st s);
      [evolve
      | let W := fresh "W" in
        intros W; apply evolves_Py_INCREF; [exact W|]]
  | |- evolves _ _ ?st (exec (new_object ?b) ?s) =>
      apply (evolves_step _ _ st s);
      [evolve
      | let W := fresh "W" in
        intros W; apply evolves_new_object; [exact W|]]
  | |- evolves _ _ ?st (exec (PyUnicode_FromString ?b) ?s) =>
      apply (evolves_step _ _ st s);
      [evolve
      | let W := fresh "W" in
        intros W; apply evolves_new_object; [exact W|]]
  | |- _ => idtac
  end.

(** ** Running the monad, one call at a time *)

Lemma run_bind {A B : Type} (m : M A) (k : A → M B) st :
  bind m k st = k (eval m st) (exec m st).
Proof. apply bind_run. Qed.

Lemma run_pair {A : Type} (m : M A) st : m st = (eval m st, exec m st).
Proof. unfold eval, exec. by destruct (m st). Qed.

Lemma eval_bind {A B : Type} (m : M A) (k : A → M B) st :
  eval (bind m k) st = eval (k (eval m st)) (exec m st).
Proof. unfold eval at 1. by rewrite run_bind. Qed.

Lemma exec_bind {A B : Type} (m : M A) (k : A → M B) st :
  exec (bind m k) st = exec (k (eval m st)) (exec m st).
Proof. unfold exec at 1. by rewrite run_bind. Qed.

Lemma eval_ret {A : Type} (a : A) st : eval (ret a) st = a.
Proof. done. Qed.
Lemma exec_ret {A : Type} (a : A) st : exec (ret a) st = st.
Proof. done. Qed.
Lemma eval_modify f st : eval (modify f) st = tt.
Proof. done. Qed.
Lemma exec_modify f st : exec (modify f) st = f st.
Proof. done. Qed.
Lemma eval_native {A : Type} e c (a : A) st : eval (native e c a) st = a.
Proof. done. Qed.
Lemma exec_native {A : Type} e c (a : A) st :
  exec (native e c a) st = log (Native e c) st.
Proof. done. Qed.
Lemma eval_PyErr_SetString exc msg st : eval (PyErr_SetString exc msg) st = tt.
Proof. done. Qed.
Lemma exec_PyErr_SetString exc msg st :
  exec (PyErr_SetString exc msg) st
  = set_err (Some {| exc_type := exc; exc_msg := msg |}) st.
Proof. done. Qed.
Lemma eval_PyErr_Occurred st : eval PyErr_Occurred st = err st.
Proof. done. Qed.
Lemma exec_PyErr_Occurred st : exec PyErr_Occurred st = st.
Proof. done. Qed.
Lemma eval_get_convertToPyTime st :
  eval get_convertToPyTime st = convertToPyTime st.
Proof. done. Qed.
Lemma exec_get_convertToPyTime st : exec get_convertToPyTime st = st.
Proof. done. Qed.
Lemma eval_new_object b st : eval (new_object b) st = Some (next_loc st).
Proof. done. Qed.
Lemma eval_PyImport_ImportModule name st :
  eval (PyImport_ImportModule name) st = sys_modules st !! name.
Proof.
  unfold eval. rewrite PyImport_ImportModule_run. by case_match.
Qed.
Lemma exec_PyImport_ImportModule name st :
  exec (PyImport_ImportModule name) st
  = match sys_modules st !! name with
    | Some m => exec (Py_INCREF m) (log (Import name) st)
    | None =>
        set_err (Some {| exc_type := PyExc_ImportError; exc_msg := name |})
          (log (Import name) st)
    end.
Proof.
  unfold exec at 1. rewrite PyImport_ImportModule_run. by case_match.
Qed.

Create Rewrite HintDb run.

#[export] Hint Rewrite @eval_bind @exec_bind @eval_ret @exec_ret
  eval_modify exec_modify @eval_native @exec_native
  eval_PyErr_SetString exec_PyErr_SetString
  eval_PyErr_Occurred exec_PyErr_Occurred
  eval_get_convertToPyTime exec_get_convertToPyTime
  eval_new_object eval_PyImport_ImportModule : run.

Lemma eval_PyUnicode_FromString u st :
  eval (PyUnicode_FromString u) st = Some (next_loc st).
Proof. done. Qed.
Lemma eval_Py_INCREF l st : eval (Py_INCREF l) st = tt.
Proof. done. Qed.
Lemma eval_Py_DECREF l st : eval (Py_DECREF l) st = tt.
Proof. done. Qed.
Lemma eval_Py_XDECREF l st : eval (Py_XDECREF l) st = tt.
Proof. by destruct l. Qed.

#[export] Hint Rewrite eval_PyUnicode_FromString eval_Py_INCREF
  eval_Py_DECREF eval_Py_XDECREF : run.

(** ** Representations of values *)

Lemma repr_ind' h lo hi (P : loc → PyValue → Prop) :
  P Py_None V_None →
  (∀ b : bool, P (if b then Py_True else Py_False) (V_Bool b)) →
  (∀ l o v, lo ≤ l < hi → h !! l = Some o →
            atom_value (ob_body o) = Some v → P l v) →
  (∀ l o items vs, lo ≤ l < hi → h !! l = Some o → ob_body o = PyList items →
     Forall2 (fun it v => ∃ c, it = Some c ∧ repr h lo hi c v ∧ P c v)
       items vs →
     P l (V_List vs)) →
  (∀ l o entries m, lo ≤ l < hi → h !! l = Some o →
     ob_body o = PyDict entries →
     (∀ k, option_Forall2 (fun c v => repr h lo hi c v ∧ P c v)
             (entries !! k) (m !! k)) →
     P l (V_Dict m)) →
  ∀ l v, repr h lo hi l v → P l v.
Proof.
  intros HN HB HA HL HD. fix IH 3.
  intros l v [ |b|l' o v' Hr Ho Hv|l' o items vs Hr Ho Hb Hall
             |l' o entries m Hr Ho Hb Hall].
  - exact HN.
  - apply HB.
  - by eapply HA.
  - eapply HL; [done..|]. clear Hb Ho.
    induction Hall as [|it v' its vs' (c & -> & Hc) _ IHall];
      [constructor|].
    constructor; [|exact IHall].
    exists c. split; [done|]. split; [done|]. by apply IH.
  - eapply HD; [done..|]. intros k.
    destruct (Hall k) as [c v' Hc|]; constructor. split; [done|]. by apply IH.
Qed.

(** A representation survives any change of the heap that keeps the bodies
    of the objects in its range, and any widening of the range. *)
Lemma repr_transfer h h' lo hi lo' hi' l v :
  (∀ x o, lo ≤ x < hi → h !! x = Some o →
          ∃ o', h' !! x = Some o' ∧ ob_body o' = ob_body o) →
  lo' ≤ lo → hi ≤ hi' →
  repr h lo hi l v → repr h' lo' hi' l v.
Proof.
  intros Hbody Hlo Hhi Hrepr.
  induction Hrepr as [ |b|l o v Hr Ho Hv|l o items vs Hr Ho Hb Hall
                     |l o entries m Hr Ho Hb Hall] using repr_ind'.
  - constructor.
  - constructor.
  - destruct (Hbody l o Hr Ho) as (o' & Ho' & Hb').
    apply (repr_atom _ _ _ l o'); [lia|done|by rewrite Hb'].
  - destruct (Hbody l o Hr Ho) as (o' & Ho' & Hb').
    apply (repr_List _ _ _ l o' items); [lia|done|congruence|].
    eapply Forall2_impl; [exact Hall|].
    intros it v (c & -> & _ & Hc). eauto.
  - destruct (Hbody l o Hr Ho) as (o' & Ho' & Hb').
    apply (repr_Dict _ _ _ l o' entries); [lia|done|congruence|].
    intros k. destruct (Hall k) as [c v [_ Hc]|]; by constructor.
Qed.

Lemma repr_frame h h' lo hi l v :
  (∀ x, lo ≤ x < hi → h' !! x = h !! x) →
  repr h lo hi l v → repr h' lo hi l v.
Proof.
  intros Hfr. apply repr_transfer; [|lia..].
  intros x o Hx Ho. exists o. split; [|done]. by rewrite Hfr.
Qed.

Lemma repr_widen h lo hi lo' hi' l v :
  lo' ≤ lo → hi ≤ hi' → repr h lo hi l v → repr h lo' hi' l v.
Proof. intros. eapply repr_transfer; [|done..]. eauto. Qed.

(** The address of a representation is a singleton or lies in the range. *)
Lemma repr_address h lo hi l v : repr h lo hi l v → l < 3 ∨ lo ≤ l < hi.
Proof.
  intros [ |[]| | | ]; auto; left; unfold Py_None, Py_True, Py_False; lia.
Qed.

(** ** Closed regions *)

Lemma region_closed_empty h lo : region_closed h lo lo.
Proof. intros x o c Hx. lia. Qed.

Lemma region_closed_union h lo mid hi :
  lo ≤ mid ≤ hi →
  region_closed h lo mid → region_closed h mid hi → region_closed h lo hi.
Proof.
  intros Hm H1 H2 x o c Hx Ho Hc. destruct (decide (x < mid)).
  - destruct (H1 x o c) as [|]; [lia|done|done|by left|right; lia].
  - destruct (H2 x o c) as [|]; [lia|done|done|by left|right; lia].
Qed.

Lemma region_closed_frame h h' lo hi :
  (∀ x, lo ≤ x < hi → h' !! x = h !! x) →
  region_closed h lo hi → region_closed h' lo hi.
Proof.
  intros Hfr Hc x o c Hx Ho Hin. apply (Hc x o c); [done| |done].
  by rewrite <- Hfr.
Qed.

Lemma region_closed_widen h lo hi lo' hi' :
  (∀ x, lo' ≤ x < hi' → ¬ (lo ≤ x < hi) → h !! x = None) →
  lo' ≤ lo → hi ≤ hi' →
  region_closed h lo hi → region_closed h lo' hi'.
Proof.
  intros Hnone Hlo Hhi Hc x o c Hx Ho Hin.
  destruct (decide (lo ≤ x < hi)) as [Hin'|Hout].
  - destruct (Hc x o c Hin' Ho Hin); [by left|right; lia].
  - rewrite Hnone in Ho; done.
Qed.

Lemma region_closed_new_object st b lo :
  heap_bounded st → lo ≤ next_loc st → children b = [] →
  region_closed (heap st) lo (next_loc st) →
  region_closed (heap (exec (new_object b) st)) lo (S (next_loc st)).
Proof.
  intros Hb Hlo Hleaf Hc x o c Hx. cbn. rewrite lookup_insert.
  case_decide as Hn.
  - intros [= <-]. cbn. rewrite Hleaf. by intros ?%elem_of_nil.
  - intros Ho Hin. destruct (Hc x o c) as [|]; [lia|done|done|by left|].
    right. lia.
Qed.

Lemma sub_heap_Py_INCREF l st : sub_heap (heap (exec (Py_INCREF l) st)) (heap st).
Proof.
  unfold exec, Py_INCREF, modify. cbn.
  destruct (heap st !! l) as [o|] eqn:Ho; cbn; [|apply sub_heap_refl].
  by eapply sub_heap_insert.
Qed.

(** ** Resolving the date/time helper *)

Lemma body_at_new_object_fresh st b :
  body_at (exec (new_object b) st) (next_loc st) = Some b.
Proof. rewrite body_at_new_object. by case_decide. Qed.

Lemma evolves_set_cache base from st c :
  well_formed base st → convertToPyTime st = None →
  resolve_helper st = Some c →
  evolves base from st (set_convertToPyTime (Some c) st).
Proof.
  intros Hwf Hnone Hres.
  pose proof (resolve_helper_old _ _ _ Hwf Hres) as Hc.
  split; try done.
  - destruct Hwf as [B Hb Hs Hm Ho Hca]. split; try done.
    cbn. by intros ? [= <-].
  - unfold helper_of. cbn. rewrite Hnone, Hres. done.
Qed.

(** One attribute lookup of the initialisation: allocate the name, look
    it up, take a reference. *)
Lemma eval_GetAttr_fresh_name (o : loc) (name : string) st :
  heap_bounded st →
  eval (PyObject_GetAttr o (Some (next_loc st)))
       (exec (PyUnicode_FromString name) st)
  = namespace_attr st o name.
Proof.
  intros Hb. unfold eval.
  rewrite (PyObject_GetAttr_run o (next_loc st) name)
    by apply body_at_new_object_fresh.
  unfold PyUnicode_FromString. rewrite namespace_attr_new_object by done.
  by destruct (namespace_attr st o name).
Qed.

Lemma exec_GetAttr_fresh_name (o : loc) (name : string) st :
  heap_bounded st →
  exec (PyObject_GetAttr o (Some (next_loc st)))
       (exec (PyUnicode_FromString name) st)
  = match namespace_attr st o name with
    | Some v =>
        exec (Py_INCREF v)
          (log (GetAttr o name) (exec (PyUnicode_FromString name) st))
    | None =>
        set_err (Some {| exc_type := PyExc_AttributeError; exc_msg := name |})
          (log (GetAttr o name) (exec (PyUnicode_FromString name) st))
    end.
Proof.
  intros Hb. unfold exec at 1.
  rewrite (PyObject_GetAttr_run o (next_loc st) name)
    by apply body_at_new_object_fresh.
  unfold PyUnicode_FromString. rewrite namespace_attr_new_object by done.
  by destruct (namespace_attr st o name).
Qed.

Lemma resolving_start st : heap_bounded st → resolving st st [].
Proof.
  intros Hb. split; try done; [by rewrite app_nil_r|].
  apply region_closed_empty.
Qed.

(** A reference is taken to an object that exists already, after [ev] is
    logged. *)
Lemma resolving_INCREF st s evs ev (v : loc) :
  resolving st s evs →
  (∀ base, well_formed base st → v < base) →
  resolving st (exec (Py_INCREF v) (log ev s)) (evs ++ [ev]).
Proof.
  intros [Hb Ha Ht He Hm Hc Hev Hn Hcl] Hv.
  pose proof (outside_heap_fields _ _ (Py_INCREF_outside_heap v (log ev s)))
    as (Dn & De & Dm & _ & _ & Dc & _ & _ & Dt).
  split.
  - apply heap_bounded_Py_INCREF. by apply (heap_bounded_fields s).
  - intros o a. rewrite namespace_attr_Py_INCREF. apply Ha.
  - rewrite Dt. cbn. by rewrite Ht, <- app_assoc.
  - by rewrite De.
  - by rewrite Dm.
  - by rewrite Dc.
  - intros base from Hwf Hfrom. eapply evolves_trans; [by apply Hev|].
    evolve; [apply (Hev base from Hwf Hfrom)|]. left. by apply Hv.
  - by rewrite Dn.
  - rewrite Dn. eapply region_closed_sub; [apply sub_heap_Py_INCREF|done].
Qed.

Lemma resolving_name st s evs name :
  resolving st s evs →
  resolving st (exec (PyUnicode_FromString name) s) evs.
Proof.
  intros [Hb Ha Ht He Hm Hc Hev Hn Hcl]. split; try done.
  - by apply heap_bounded_new_object.
  - intros o a. unfold PyUnicode_FromString.
    rewrite namespace_attr_new_object by done. apply Ha.
  - intros base from Hwf Hfrom. eapply evolves_trans; [by apply Hev|].
    evolve; [apply (Hev base from Hwf Hfrom)|].
    pose proof (ev_next _ _ _ _ (Hev base from Hwf Hfrom)). lia.
  - cbn. lia.
  - by apply region_closed_new_object.
Qed.

Lemma resolving_same st s s' evs :
  resolving st s evs →
  heap s' = heap s → next_loc s' = next_loc s → trace s' = trace s →
  err s' = err s → sys_modules s' = sys_modules s →
  convertToPyTime s' = convertToPyTime s →
  resolving st s' evs.
Proof.
  intros [Hb Ha Ht He Hm Hc Hev Hnx Hcl] Hh Hn Htr Her Hmo Hca. split.
  - by apply (heap_bounded_fields s).
  - intros o a. rewrite <- Ha. unfold namespace_attr, body_at. by rewrite Hh.
  - congruence.
  - congruence.
  - congruence.
  - congruence.
  - intros base from Hwf Hfrom. eapply evolves_trans; [by apply Hev|].
    apply evolves_same_heap; try done. apply (Hev base from Hwf Hfrom).
  - by rewrite Hn.
  - by rewrite Hh, Hn.
Qed.

Lemma resolving_set_blpapiDatetimeModule st s evs p :
  resolving st s evs → resolving st (set_blpapiDatetimeModule p s) evs.
Proof. intros R. by apply (resolving_same st s). Qed.

Lemma resolving_set_datetimeUtil st s evs p :
  resolving st s evs → resolving st (set_datetimeUtil p s) evs.
Proof. intros R. by apply (resolving_same st s). Qed.

Lemma abandoning_start st s evs :
  resolving st s evs → abandoning st s evs (convertToPyTime st).
Proof. intros R. split_and!; apply R. Qed.

Lemma abandoning_log st s evs ev cache :
  abandoning st s evs cache → abandoning st (log ev s) (evs ++ [ev]) cache.
Proof.
  intros (Hb & Ht & Hc).
  split_and!; [by apply (heap_bounded_fields s)| |done].
  cbn. by rewrite Ht, <- app_assoc.
Qed.

Lemma abandoning_set_err st s evs e cache :
  abandoning st s evs cache → abandoning st (set_err e s) evs cache.
Proof.
  intros (Hb & Ht & Hc). split_and!; [by apply (heap_bounded_fields s)|done..].
Qed.

Lemma abandoning_set_datetimeUtil st s evs p cache :
  abandoning st s evs cache → abandoning st (set_datetimeUtil p s) evs cache.
Proof.
  intros (Hb & Ht & Hc). split_and!; [by apply (heap_bounded_fields s)|done..].
Qed.

Lemma abandoning_set_convertToPyTime st s evs p cache :
  abandoning st s evs cache → abandoning st (set_convertToPyTime p s) evs p.
Proof.
  intros (Hb & Ht & Hc). split_and!; [by apply (heap_bounded_fields s)|done..].
Qed.

Lemma abandoning_DECREF st s evs l cache :
  abandoning st s evs cache → abandoning st (exec (Py_DECREF l) s) evs cache.
Proof.
  intros (Hb & Ht & Hc).
  pose proof (outside_heap_fields _ _ (Py_DECREF_outside_heap l s))
    as (Dn & De & Dm & _ & _ & Dc & _ & _ & Dt).
  split_and!; [by apply heap_bounded_Py_DECREF|congruence..].
Qed.

Lemma initialize_static_variables_run st :
  heap_bounded st →
  let st' := exec initialize_static_variables st in
  eval initialize_static_variables st = bool_decide (is_Some (resolve_helper st))
  ∧ trace st' = trace st ++ resolution_lookups st
  ∧ heap_bounded st'
  ∧ match resolve_helper st with
    | Some c =>
        convertToPyTime st' = Some c
        ∧ err st' = err st
        ∧ region_closed (heap st') (next_loc st) (next_loc st')
        ∧ ∀ base from, well_formed base st → convertToPyTime st = None →
                       from ≤ next_loc st → evolves base from st st'
    | None =>
        is_Some (err st')
        ∧ (convertToPyTime st = None → convertToPyTime st' = None)
    end.
Proof.
  intros Hb. cbv zeta.
  unfold resolve_helper, resolution_lookups, initialize_static_variables.
  rewrite eval_bind, exec_bind, eval_PyImport_ImportModule,
    exec_PyImport_ImportModule.
  destruct (sys_modules st !! "blpapi.datetime") as [m|] eqn:Hm;
    cbn [mbind option_bind].
  2: { autorewrite with run. cbn. split_and!; eauto. }
  (* the module is found *)
  autorewrite with run.
  assert (R1 : resolving st
                 (set_blpapiDatetimeModule (Some m)
                    (exec (Py_INCREF m) (log (Import "blpapi.datetime") st)))
                 ([] ++ [Import "blpapi.datetime"])).
  { apply resolving_set_blpapiDatetimeModule.
    apply (resolving_INCREF st st [] _ m (resolving_start st Hb)).
    intros base Hwf. apply (wf_modules base st Hwf _ _ Hm). }
  revert R1.
  generalize (set_blpapiDatetimeModule (Some m)
                (exec (Py_INCREF m) (log (Import "blpapi.datetime") st))).
  intros s1 R1.
  rewrite (eval_GetAttr_fresh_name m "_DatetimeUtil" s1) by apply R1.
  rewrite (exec_GetAttr_fresh_name m "_DatetimeUtil" s1) by apply R1.
  rewrite (rs_attr _ _ _ R1).
  destruct (namespace_attr st m "_DatetimeUtil") as [u|] eqn:Hu;
    cbn [mbind option_bind].
  2: { autorewrite with run.
       match goal with |- context [exec (Py_DECREF m) ?s] =>
         assert (A : abandoning st (exec (Py_DECREF m) s)
                       (([] ++ [Import "blpapi.datetime"])
                        ++ [GetAttr m "_DatetimeUtil"])
                       (convertToPyTime st));
         [|revert A; generalize (exec (Py_DECREF m) s)]
       end.
       { apply abandoning_DECREF, abandoning_set_datetimeUtil,
           abandoning_set_err, abandoning_log, abandoning_start.
         by apply resolving_name. }
       intros sd (Ab & At & Ac). cbn.
       split_and!; [done|by rewrite At|..|eauto|intros; congruence].
       by eapply heap_bounded_fields; [| |apply Ab]. }
  (* the utility class is found *)
  autorewrite with run.
  assert (R2 : resolving st
                 (set_datetimeUtil (Some u)
                    (exec (Py_INCREF u)
                       (log (GetAttr m "_DatetimeUtil")
                          (exec (PyUnicode_FromString "_DatetimeUtil") s1))))
                 (([] ++ [Import "blpapi.datetime"])
                  ++ [GetAttr m "_DatetimeUtil"])).
  { apply resolving_set_datetimeUtil.
    apply resolving_INCREF; [by apply resolving_name|].
    intros base Hwf.
    apply (namespace_attr_child base st m "_DatetimeUtil" u Hwf);
      [apply (wf_modules base st Hwf _ _ Hm)|done]. }
  revert R2.
  generalize (set_datetimeUtil (Some u)
                (exec (Py_INCREF u)
                   (log (GetAttr m "_DatetimeUtil")
                      (exec (PyUnicode_FromString "_DatetimeUtil") s1)))).
  clear R1 s1. intros s2 R2.
  rewrite (eval_GetAttr_fresh_name u "toPyTimeFromInts" s2) by apply R2.
  rewrite (exec_GetAttr_fresh_name u "toPyTimeFromInts" s2) by apply R2.
  rewrite (rs_attr _ _ _ R2).
  destruct (namespace_attr st u "toPyTimeFromInts") as [c|] eqn:Hc;
    cbn [mbind option_bind].
  2: { autorewrite with run.
       match goal with |- context [exec (Py_DECREF u) ?s] =>
         assert (A : abandoning st (exec (Py_DECREF u) s)
                       ((([] ++ [Import "blpapi.datetime"])
                         ++ [GetAttr m "_DatetimeUtil"])
                        ++ [GetAttr u "toPyTimeFromInts"])
                       NULL);
         [|revert A; generalize (exec (Py_DECREF u) s)]
       end.
       { apply abandoning_DECREF, abandoning_DECREF.
         eapply abandoning_set_convertToPyTime, abandoning_set_err,
           abandoning_log, abandoning_start.
         by apply resolving_name. }
       intros sd (Ab & At & Ac). cbn.
       split_and!; [done|by rewrite At|..|eauto|intros _; exact Ac].
       by eapply heap_bounded_fields; [| |apply Ab]. }
  (* the helper is found *)
  autorewrite with run.
  assert (R3 : resolving st
                 (exec (Py_INCREF c)
                    (log (GetAttr u "toPyTimeFromInts")
                       (exec (PyUnicode_FromString "toPyTimeFromInts") s2)))
                 ((([] ++ [Import "blpapi.datetime"])
                   ++ [GetAttr m "_DatetimeUtil"])
                  ++ [GetAttr u "toPyTimeFromInts"])).
  { apply resolving_INCREF; [by apply resolving_name|].
    intros base Hwf. apply (resolve_helper_old base st c Hwf).
    unfold resolve_helper. rewrite Hm. cbn. by rewrite Hu. }
  revert R3.
  generalize (exec (Py_INCREF c)
                (log (GetAttr u "toPyTimeFromInts")
                   (exec (PyUnicode_FromString "toPyTimeFromInts") s2))).
  clear R2 s2. intros s3 R3. cbn.
  split_and!.
  - done.
  - apply R3.
  - eapply heap_bounded_fields; [| |apply R3]; done.
  - done.
  - apply R3.
  - apply R3.
  - intros base from Hwf Hnone Hfrom.
    assert (Hres : resolve_helper st = Some c).
    { unfold resolve_helper. rewrite Hm. cbn. rewrite Hu. done. }
    pose proof (rs_evolves _ _ _ R3 base from Hwf Hfrom) as E3.
    eapply evolves_trans; [exact E3|].
    apply evolves_set_cache; [apply E3| |].
    + rewrite (rs_cache _ _ _ R3). done.
    + rewrite (resolve_helper_stable base st s3); [done|done|apply E3..].
Qed.

(** ** The date/time adapter *)

Lemma PyObject_CallFunction_run c args st :
  PyObject_CallFunction c args st
  = match callable_at st c with
    | Some f =>
        match f args with
        | inl e => (NULL, set_err (Some e) (log (Call c args) st))
        | inr fields =>
            (Some (next_loc st),
             exec (new_object (PyTemporal fields)) (log (Call c args) st))
        end
    | None =>
        (NULL,
         set_err (Some {| exc_type := PyExc_TypeError;
                          exc_msg := "object is not callable" |})
           (log (Call c args) st))
    end.
Proof.
  unfold PyObject_CallFunction, callable_at, body_at, bind, modify. cbn.
  destruct (heap st !! c) as [[rc []]|]; cbn; done.
Qed.

Lemma resolution_lookups_log ev st :
  resolution_lookups (log ev st) = resolution_lookups st.
Proof. done. Qed.

Lemma resolve_helper_log ev st : resolve_helper (log ev st) = resolve_helper st.
Proof. done. Qed.

(** The part of the date/time case that follows the resolution. *)
Lemma read_temporal_run element index f st :
  convertToPyTime st = Some f →
  let read :=
    (r <-- blpapi_Element_getValueAsHighPrecisionDatetime element index ;;
     match r with
     | None =>
         PyErr_SetString PyExc_Exception "Internal error getting datetime" ;;;
         ret NULL
     | Some highPrecisionDatetimeBuffer =>
         if (parts (datetime highPrecisionDatetimeBuffer) =? 0)%Z then
           Py_RETURN_NONE
         else
           callee <-- get_convertToPyTime ;;
           match callee with
           | Some f =>
               PyObject_CallFunction f
                 (convertToPyTime_arguments highPrecisionDatetimeBuffer)
           | None => ret NULL
           end
     end) in
  let st1 := log (Native element (N_getValueAsHighPrecisionDatetime index)) st in
  read st
  = match el_getValueAsHighPrecisionDatetime element index with
    | None => (NULL, set_err (error "Internal error getting datetime") st1)
    | Some v =>
        if (parts (datetime v) =? 0)%Z then
          (Some Py_None, exec (Py_INCREF Py_None) st1)
        else PyObject_CallFunction f (convertToPyTime_arguments v) st1
    end.
Proof.
  intros Hc. cbv zeta. rewrite run_bind.
  unfold blpapi_Element_getValueAsHighPrecisionDatetime.
  rewrite eval_native, exec_native.
  destruct (el_getValueAsHighPrecisionDatetime element index) as [v|]; [|done].
  destruct (parts (datetime v) =? 0)%Z; [done|].
  rewrite run_bind, eval_get_convertToPyTime, exec_get_convertToPyTime.
  cbn [convertToPyTime log]. by rewrite Hc.
Qed.

Lemma as_int_small z : (0 ≤ z < 2 ^ 31)%Z → as_int z = z.
Proof.
  intros Hz. unfold as_int. rewrite Z.mod_small by lia.
  destruct (Z.ltb_spec z (2 ^ 31)); lia.
Qed.

Lemma as_unsigned_int_small z : (0 ≤ z < 2 ^ 32)%Z → as_unsigned_int z = z.
Proof. intros Hz. unfold as_unsigned_int. by rewrite Z.mod_small by lia. Qed.

Lemma subsecond_argument_exact (v : blpapi_HighPrecisionDatetime_t) :
  (0 ≤ milliSeconds (datetime v) < 2 ^ 16)%Z →
  (0 ≤ picoseconds v < 2 ^ 32)%Z →
  subsecond_argument v
  = (milliSeconds (datetime v) * 1000 + Z.quot (picoseconds v) 1000000)%Z.
Proof.
  intros Hms Hps. unfold subsecond_argument.
  assert (0 ≤ Z.quot (picoseconds v) 1000000 < 4295)%Z.
  { rewrite Z.quot_div_nonneg by lia. split.
    - apply Z.div_pos; lia.
    - apply Z.div_lt_upper_bound; lia. }
  rewrite (as_int_small (milliSeconds (datetime v) * 1000)) by lia.
  rewrite as_unsigned_int_small by lia.
  apply as_int_small. lia.
Qed.

(** The date/time case, once the helper is in the cache. *)
Lemma getScalarValue_datetime_cached element index f st :
  convertToPyTime st = Some f →
  getScalarValue_datetime element index st
  = let st1 := log (Native element (N_getValueAsHighPrecisionDatetime index)) st in
    match el_getValueAsHighPrecisionDatetime element index with
    | None => (NULL, set_err (error "Internal error getting datetime") st1)
    | Some v =>
        if (parts (datetime v) =? 0)%Z then
          (Some Py_None, exec (Py_INCREF Py_None) st1)
        else PyObject_CallFunction f (convertToPyTime_arguments v) st1
    end.
Proof.
  intros Hc. unfold getScalarValue_datetime.
  rewrite run_bind, eval_get_convertToPyTime, exec_get_convertToPyTime, Hc.
  rewrite run_bind, eval_ret, exec_ret.
  by apply read_temporal_run.
Qed.

(** The date/time case when the cache is empty. *)
Lemma getScalarValue_datetime_uncached element index st :
  convertToPyTime st = None →
  heap_bounded st →
  getScalarValue_datetime element index st
  = let s := exec initialize_static_variables st in
    match resolve_helper st with
    | None => (NULL, s)
    | Some f =>
        let st1 :=
          log (Native element (N_getValueAsHighPrecisionDatetime index)) s in
        match el_getValueAsHighPrecisionDatetime element index with
        | None => (NULL, set_err (error "Internal error getting datetime") st1)
        | Some v =>
            if (parts (datetime v) =? 0)%Z then
              (Some Py_None, exec (Py_INCREF Py_None) st1)
            else PyObject_CallFunction f (convertToPyTime_arguments v) st1
        end
    end.
Proof.
  intros Hc Hb. unfold getScalarValue_datetime.
  rewrite run_bind, eval_get_convertToPyTime, exec_get_convertToPyTime, Hc.
  rewrite run_bind.
  destruct (initialize_static_variables_run st Hb) as (Hok & _ & _ & Hres).
  rewrite Hok. cbv zeta.
  destruct (resolve_helper st) as [f|]; cbn [bool_decide decide_rel]; [|done].
  rewrite bool_decide_eq_true_2 by eauto.
  apply read_temporal_run. apply Hres.
Qed.

Lemma getScalarValue_temporal element index st :
  is_temporal (el_datatype element) = true →
  getScalarValue element index st
  = getScalarValue_datetime element index (log (Native element N_datatype) st).
Proof.
  intros Ht. unfold getScalarValue.
  rewrite run_bind. unfold blpapi_Element_datatype at 1 2.
  rewrite eval_native, exec_native.
  by destruct (el_datatype element).
Qed.

Lemma trace_PyObject_CallFunction c args st :
  trace (exec (PyObject_CallFunction c args) st) = trace st ++ [Call c args].
Proof.
  unfold exec. rewrite PyObject_CallFunction_run.
  destruct (callable_at st c) as [f|]; [|done]. by destruct (f args).
Qed.

Lemma trace_Py_INCREF l st : trace (exec (Py_INCREF l) st) = trace st.
Proof.
  by destruct (outside_heap_fields _ _ (Py_INCREF_outside_heap l st))
    as (_ & _ & _ & _ & _ & _ & _ & _ & ->).
Qed.

Lemma resolved_state_calls element st ev :
  heap_bounded st →
  ev ∈ trace (resolved_state element st) → is_call ev → ev ∈ trace st.
Proof.
  intros Hb. unfold resolved_state.
  assert (Hlook : ∀ ev, ev ∈ resolution_lookups st → ¬ is_call ev).
  { intros ev'. unfold resolution_lookups.
    destruct (sys_modules st !! "blpapi.datetime") as [m|];
      [destruct (namespace_attr st m "_DatetimeUtil")|];
      rewrite ?elem_of_cons, ?elem_of_nil; intros H; intros Hcall;
      repeat (destruct H as [->|H]; [done|]); done. }
  destruct (convertToPyTime st).
  - cbn. rewrite elem_of_app, list_elem_of_singleton.
    intros [?| ->]; [done|]. done.
  - destruct (initialize_static_variables_run (log (Native element N_datatype) st))
      as (_ & -> & _); [done|].
    cbn. rewrite !elem_of_app, list_elem_of_singleton.
    intros [[?| ->]|Hin]; [done|done|]. intros Hcall. by apply Hlook in Hin.
Qed.

Lemma getScalarValue_temporal_resolved element index st f :
  is_temporal (el_datatype element) = true →
  heap_bounded st →
  helper_location st = Some f →
  getScalarValue element index st
  = let st1 := log (Native element (N_getValueAsHighPrecisionDatetime index))
                 (resolved_state element st) in
    match el_getValueAsHighPrecisionDatetime element index with
    | None => (NULL, set_err (error "Internal error getting datetime") st1)
    | Some v =>
        if (parts (datetime v) =? 0)%Z then
          (Some Py_None, exec (Py_INCREF Py_None) st1)
        else PyObject_CallFunction f (convertToPyTime_arguments v) st1
    end.
Proof.
  intros Ht Hb Hf. rewrite getScalarValue_temporal by done.
  unfold helper_location in Hf. unfold resolved_state.
  destruct (convertToPyTime st) as [c|] eqn:Hc.
  - injection Hf as ->. by apply getScalarValue_datetime_cached.
  - rewrite getScalarValue_datetime_uncached by done.
    rewrite resolve_helper_log, Hf. done.
Qed.

(** C4: for a date/time element whose timestamp is read successfully,
    an empty parts indicator converts to [None], whatever the other fields
    hold, and the helper is not called; otherwise the conversion is the
    call of the helper with the nine integer arguments, the last of which
    is [milliSeconds * 1000 + picoseconds / 1000000] in exact integer
    arithmetic with truncating division. *)
Theorem temporal_conversion element index st v f :
  is_temporal (el_datatype element) = true →
  heap_bounded st →
  helper_location st = Some f →
  el_getValueAsHighPrecisionDatetime element index = Some v →
  let r := eval (getScalarValue element index) st in
  let st' := exec (getScalarValue element index) st in
  (parts (datetime v) = 0%Z →
   r = Some Py_None
   ∧ (∀ ev, ev ∈ trace st' → is_call ev → ev ∈ trace st))
  ∧ (parts (datetime v) ≠ 0%Z →
     ∃ s, getScalarValue element index st
          = PyObject_CallFunction f (convertToPyTime_arguments v) s
          ∧ trace st' = trace s ++ [Call f (convertToPyTime_arguments v)]
          ∧ (∀ ev, ev ∈ trace s → is_call ev → ev ∈ trace st))
  ∧ ((0 ≤ milliSeconds (datetime v) < 2 ^ 16)%Z →
     (0 ≤ picoseconds v < 2 ^ 32)%Z →
     convertToPyTime_arguments v
     = [ parts (datetime v); offset (datetime v); year (datetime v);
         month (datetime v); day (datetime v); hours (datetime v);
         minutes (datetime v); seconds (datetime v);
         (milliSeconds (datetime v) * 1000
          + Z.quot (picoseconds v) 1000000)%Z ]).
Proof.
  intros Ht Hb Hf Hv. cbv zeta. unfold eval, exec.
  rewrite (getScalarValue_temporal_resolved element index st f) by done.
  cbv zeta. rewrite Hv. split_and!.
  - intros ->. cbn [Z.eqb fst snd]. split; [done|].
    intros ev. rewrite trace_Py_INCREF. cbn [trace log].
    rewrite elem_of_app, list_elem_of_singleton. intros [Hin| ->] Hcall;
      [|done]. by apply (resolved_state_calls element st).
  - intros Hparts. destruct (Z.eqb_spec (parts (datetime v)) 0); [done|].
    eexists. split; [done|]. split.
    + apply trace_PyObject_CallFunction.
    + intros ev. cbn [trace log].
      rewrite elem_of_app, list_elem_of_singleton. intros [Hin| ->] Hcall;
        [|done]. by apply (resolved_state_calls element st).
  - intros Hms Hps. unfold convertToPyTime_arguments.
    by rewrite subsecond_argument_exact.
Qed.

Lemma PyObject_CallFunction_fields c args st :
  let st' := exec (PyObject_CallFunction c args) st in
  (heap_bounded st → heap_bounded st')
  ∧ convertToPyTime st' = convertToPyTime st.
Proof.
  cbv zeta. unfold exec. rewrite PyObject_CallFunction_run.
  destruct (callable_at st c) as [f|]; [destruct (f args)|]; cbn [snd];
    (split; [intros Hb|done]).
  - by apply (heap_bounded_fields st).
  - apply heap_bounded_new_object. by apply (heap_bounded_fields st).
  - by apply (heap_bounded_fields st).
Qed.

(** What the date/time case does after the resolution, in any state whose
    cache holds the helper. *)
Lemma read_temporal_fields element index f s :
  let st1 := log (Native element (N_getValueAsHighPrecisionDatetime index)) s in
  let out :=
    match el_getValueAsHighPrecisionDatetime element index with
    | None => (NULL, set_err (error "Internal error getting datetime") st1)
    | Some v =>
        if (parts (datetime v) =? 0)%Z then
          (Some Py_None, exec (Py_INCREF Py_None) st1)
        else PyObject_CallFunction f (convertToPyTime_arguments v) st1
    end in
  (heap_bounded s → heap_bounded out.2)
  ∧ convertToPyTime out.2 = convertToPyTime s
  ∧ ∃ rest, trace out.2 = trace s ++ rest ∧ ∀ ev, ev ∈ rest → ¬ is_lookup ev.
Proof.
  cbv zeta.
  destruct (el_getValueAsHighPrecisionDatetime element index) as [v|];
    [destruct (parts (datetime v) =? 0)%Z|]; cbn [snd].
  - split_and!.
    + intros Hb. apply heap_bounded_Py_INCREF. by apply (heap_bounded_fields s).
    + by destruct (outside_heap_fields _ _
        (Py_INCREF_outside_heap Py_None
           (log (Native element (N_getValueAsHighPrecisionDatetime index)) s)))
        as (_ & _ & _ & _ & _ & -> & _).
    + eexists. split; [by rewrite trace_Py_INCREF|].
      intros ev. rewrite list_elem_of_singleton. intros -> Hl. exact Hl.
  - destruct (PyObject_CallFunction_fields f (convertToPyTime_arguments v)
                (log (Native element (N_getValueAsHighPrecisionDatetime index)) s))
      as [Hb' Hc'].
    split_and!.
    + intros Hb. apply Hb'. by apply (heap_bounded_fields s).
    + exact Hc'.
    + eexists. split.
      * change (?x.2) with (exec (PyObject_CallFunction f (convertToPyTime_arguments v))
                 (log (Native element (N_getValueAsHighPrecisionDatetime index)) s)).
        rewrite trace_PyObject_CallFunction. cbn [trace log].
        by rewrite <- app_assoc.
      * intros ev. cbn. rewrite elem_of_cons, list_elem_of_singleton.
        intros [-> | ->] Hl; exact Hl.
  - split_and!; [intros Hb; by apply (heap_bounded_fields s)|done|].
    eexists. split; [done|].
    intros ev. rewrite list_elem_of_singleton. intros -> Hl. exact Hl.
Qed.

(** C5: the helper is resolved lazily and at most once: with the helper
    in the cache a conversion performs no lookup and leaves the cache as
    it is; with an empty cache it performs the lookups of one resolution
    (import, utility class, function), stopping at the first that fails;
    a failure makes the conversion fail with the error set and leaves the
    cache empty, so that a later conversion resolves the helper as soon
    as the lookups succeed. *)
Theorem helper_resolved_once element index st :
  is_temporal (el_datatype element) = true →
  heap_bounded st →
  let r := eval (getScalarValue element index) st in
  let st' := exec (getScalarValue element index) st in
  heap_bounded st'
  ∧ (∀ f, convertToPyTime st = Some f →
          convertToPyTime st' = Some f
          ∧ ∀ ev, ev ∈ trace st' → is_lookup ev → ev ∈ trace st)
  ∧ (convertToPyTime st = None →
     (∃ rest,
        trace st' = trace st ++ Native element N_datatype
                             :: resolution_lookups st ++ rest
        ∧ ∀ ev, ev ∈ rest → ¬ is_lookup ev)
     ∧ match resolve_helper st with
       | Some f => convertToPyTime st' = Some f
       | None => r = NULL ∧ is_Some (err st') ∧ convertToPyTime st' = None
       end)
  ∧ (∀ element2 index2 st2 f,
       is_temporal (el_datatype element2) = true → heap_bounded st2 →
       convertToPyTime st2 = None → resolve_helper st2 = Some f →
       convertToPyTime (exec (getScalarValue element2 index2) st2) = Some f).
Proof.
  intros Ht Hb. cbv zeta.
  assert (Hgen : ∀ e i s,
    is_temporal (el_datatype e) = true → heap_bounded s →
    convertToPyTime s = None →
    let s' := exec (getScalarValue e i) s in
    heap_bounded s'
    ∧ (∃ rest,
         trace s' = trace s ++ Native e N_datatype
                            :: resolution_lookups s ++ rest
         ∧ ∀ ev, ev ∈ rest → ¬ is_lookup ev)
    ∧ match resolve_helper s with
      | Some f => convertToPyTime s' = Some f
      | None => eval (getScalarValue e i) s = NULL ∧ is_Some (err s')
                ∧ convertToPyTime s' = None
      end).
  { clear. intros e i s Ht Hb Hc. cbv zeta. unfold eval, exec.
    rewrite getScalarValue_temporal by done.
    rewrite getScalarValue_datetime_uncached by done. cbv zeta.
    rewrite resolve_helper_log.
    destruct (initialize_static_variables_run (log (Native e N_datatype) s))
      as (_ & Htr & Hb' & Hres); [done|].
    rewrite resolve_helper_log, resolution_lookups_log in *.
    cbn [trace log] in Htr.
    destruct (resolve_helper s) as [f|]; cbn [fst snd].
    - destruct Hres as (Hcache & _).
      destruct (read_temporal_fields e i f
                  (exec initialize_static_variables (log (Native e N_datatype) s)))
        as (Hb2 & Hc2 & rest & Htr2 & Hrest).
      cbv zeta in Hb2, Hc2, Htr2 |- *.
      split_and!; [by apply Hb2| |congruence].
      exists rest. split; [|done].
      rewrite Htr2, Htr, <- !app_assoc. done.
    - destruct Hres as [Herr Hcache].
      split_and!; [done| |done|done|by apply Hcache].
      exists []. split; [|by intros ev Hin; inversion Hin].
      by rewrite Htr, <- !app_assoc, app_nil_r. }
  split_and!.
  - destruct (convertToPyTime st) as [f|] eqn:Hc; [|by apply Hgen].
    unfold exec. rewrite getScalarValue_temporal by done.
    rewrite (getScalarValue_datetime_cached _ _ f) by done.
    by apply read_temporal_fields.
  - intros f Hc. unfold exec. rewrite getScalarValue_temporal by done.
    rewrite (getScalarValue_datetime_cached _ _ f) by done.
    destruct (read_temporal_fields element index f
                (log (Native element N_datatype) st))
      as (_ & Hc2 & rest & Htr2 & Hrest).
    cbv zeta in Hc2, Htr2 |- *.
    split; [by rewrite Hc2|].
    intros ev. rewrite Htr2. cbn [trace log].
    rewrite !elem_of_app, list_elem_of_singleton.
    intros [[?| ->]|Hin] Hl; [done|done|]. by apply Hrest in Hin.
  - intros Hc. destruct (Hgen element index st Ht Hb Hc) as (_ & H1 & H2).
    by split.
  - intros e2 i2 st2 f Ht2 Hb2 Hc2 Hres.
    destruct (Hgen e2 i2 st2 Ht2 Hb2 Hc2) as (_ & _ & H2).
    by rewrite Hres in H2.
Qed.

(** ** The scalar converter refines its specification *)

Lemma atom_value_children b v : atom_value b = Some v → children b = [].
Proof. by destruct b. Qed.

Lemma body_at_Some st x b :
  body_at st x = Some b ↔ ∃ o, heap st !! x = Some o ∧ ob_body o = b.
Proof.
  unfold body_at. destruct (heap st !! x) as [o|]; cbn.
  - split; [intros [= <-]; eauto|]. by intros (o' & [= <-] & <-).
  - split; [done|]. by intros (o' & ? & _).
Qed.

Lemma refcount_new_object st b :
  refcount (exec (new_object b) st) (next_loc st) = Some 1%Z.
Proof. unfold refcount. cbn. by rewrite lookup_insert_eq. Qed.

Lemma converted_singleton base st s (l : loc) val :
  evolves base (next_loc st) st s →
  region_closed (heap s) (next_loc st) (next_loc s) →
  repr (heap s) (next_loc st) (next_loc s) l val → l < 3 →
  converted base st (exec (Py_INCREF l) s) l val.
Proof.
  intros Hev Hcl Hrepr Hl.
  pose proof (outside_heap_fields _ _ (Py_INCREF_outside_heap l s))
    as (Dn & _).
  pose proof (wf_base _ _ (ev_wf _ _ _ _ Hev)).
  pose proof (ev_next _ _ _ _ Hev).
  split.
  - eapply evolves_trans; [done|]. apply evolves_Py_INCREF; [apply Hev|].
    left. lia.
  - rewrite Dn. eapply region_closed_sub; [apply sub_heap_Py_INCREF|done].
  - rewrite Dn. eapply repr_transfer; [|reflexivity..|done].
    intros x o Hx Ho. apply body_at_Some.
    rewrite body_at_Py_INCREF. apply body_at_Some. eauto.
  - by left.
Qed.

Lemma converted_fresh base st s b val :
  evolves base (next_loc st) st s →
  region_closed (heap s) (next_loc st) (next_loc s) →
  atom_value b = Some val →
  converted base st (exec (new_object b) s) (next_loc s) val.
Proof.
  intros Hev Hcl Hval.
  pose proof (ev_next _ _ _ _ Hev).
  split.
  - eapply evolves_trans; [done|]. apply evolves_new_object; [apply Hev|done].
  - apply region_closed_new_object; [apply Hev|done|by eapply atom_value_children|done].
  - apply (repr_atom _ _ _ _ {| ob_refcnt := 1; ob_body := b |}); [cbn; lia| |done].
    cbn. apply lookup_insert_eq.
  - right. apply refcount_new_object.
Qed.

Lemma resolved_state_evolves base element st f :
  well_formed base st → helper_location st = Some f →
  let s := resolved_state element st in
  evolves base (next_loc st) st s
  ∧ region_closed (heap s) (next_loc st) (next_loc s)
  ∧ convertToPyTime s = Some f.
Proof.
  intros Hwf Hf. cbv zeta. unfold resolved_state, helper_location in *.
  destruct (convertToPyTime st) as [c|] eqn:Hc.
  - injection Hf as ->. split_and!; [by apply evolves_log| |done].
    apply region_closed_empty.
  - pose proof (evolves_log base (next_loc st) st (Native element N_datatype) Hwf)
      as E0.
    destruct (initialize_static_variables_run (log (Native element N_datatype) st))
      as (_ & _ & _ & Hres); [by apply (heap_bounded_fields st), Hwf|].
    rewrite resolve_helper_log, Hf in Hres.
    destruct Hres as (Hcache & _ & Hcl & Hev).
    split_and!; [|done..].
    eapply evolves_trans; [exact E0|].
    apply Hev; [apply E0|done|done].
Qed.

Lemma helper_of_location st :
  helper_of st = callable_at st <$> helper_location st.
Proof. done. Qed.

Lemma getScalarValue_converted base st element index :
  well_formed base st →
  let r := eval (getScalarValue element index) st in
  let st' := exec (getScalarValue element index) st in
  match scalar_value (helper_of st) element index with
  | Some val => ∃ l, r = Some l ∧ converted base st st' l val
  | None => r = NULL ∧ is_Some (err st')
  end.
Proof.
  intros Hwf. cbv zeta.
  destruct (is_temporal (el_datatype element)) eqn:Ht.
  - (* date, time, date-time *)
    assert (Hspec : scalar_value (helper_of st) element index
                    = h ← helper_of st;
                      v ← el_getValueAsHighPrecisionDatetime element index;
                      temporal_value h v).
    { unfold scalar_value. by destruct (el_datatype element). }
    rewrite Hspec. clear Hspec.
    rewrite helper_of_location.
    destruct (helper_location st) as [f|] eqn:Hf; cbn [fmap option_fmap option_map mbind option_bind].
    2: { unfold helper_location in Hf.
         destruct (convertToPyTime st) eqn:Hc; [done|].
         unfold eval, exec. rewrite getScalarValue_temporal by done.
         rewrite getScalarValue_datetime_uncached; [|done|].
         2: { apply (heap_bounded_fields st); [done..|apply Hwf]. }
         rewrite resolve_helper_log, Hf. cbv zeta. cbn [fst snd].
         split; [done|].
         destruct (initialize_static_variables_run (log (Native element N_datatype) st))
           as (_ & _ & _ & Hres);
           [by apply (heap_bounded_fields st), Hwf|].
         rewrite resolve_helper_log, Hf in Hres. apply Hres. }
    destruct (resolved_state_evolves base element st f Hwf Hf)
      as (Hev & Hcl & Hcache).
    unfold eval, exec.
    rewrite (getScalarValue_temporal_resolved element index st f);
      [|done|apply Hwf|done].
    cbv zeta.
    assert (Hcall : callable_at (resolved_state element st) f = callable_at st f).
    { pose proof (ev_helper _ _ _ _ Hev) as Hh.
      rewrite !helper_of_location in Hh. rewrite Hf in Hh.
      unfold helper_location in Hh. rewrite Hcache in Hh. cbn in Hh.
      by injection Hh. }
    revert Hev Hcl Hcache Hcall. generalize (resolved_state element st).
    intros s Hev Hcl Hcache Hcall.
    destruct (el_getValueAsHighPrecisionDatetime element index) as [v|];
      cbn [mbind option_bind fst snd]; [|split; [done|eauto]].
    assert (Hev1 : evolves base (next_loc st) st
                     (log (Native element (N_getValueAsHighPrecisionDatetime index)) s)).
    { eapply evolves_trans; [done|]. apply evolves_log, Hev. }
    unfold temporal_value.
    destruct (parts (datetime v) =? 0)%Z; cbn [fst snd].
    + exists Py_None. split; [done|].
      apply converted_singleton; [done|done|constructor|unfold Py_None; lia].
    + rewrite PyObject_CallFunction_run.
      change (callable_at (log ?ev s) f) with (callable_at s f).
      rewrite Hcall.
      destruct (callable_at st f) as [g|]; cbn [mbind option_bind fst snd];
        [|split; [done|eauto]].
      destruct (g (convertToPyTime_arguments v)) as [e|fields];
        cbn [fst snd]; [split; [done|eauto]|].
      eexists. split; [done|].
      apply (converted_fresh base st
               (log (Call f (convertToPyTime_arguments v))
                  (log (Native element (N_getValueAsHighPrecisionDatetime index)) s))).
      * eapply evolves_trans; [exact Hev1|]. apply evolves_log, Hev1.
      * done.
      * done.
  - (* the other datatypes *)
    assert (Hev : ∀ c, evolves base (next_loc st) st
                    (log (Native element c) (log (Native element N_datatype) st))).
    { intros c. evolve. }
    assert (Hcl : ∀ c, region_closed
                    (heap (log (Native element c)
                             (log (Native element N_datatype) st)))
                    (next_loc st)
                    (next_loc (log (Native element c)
                                 (log (Native element N_datatype) st)))).
    { intros c. apply region_closed_empty. }
    unfold eval, exec.
    destruct (getScalarValue element index st) as [r st'] eqn:Hrun.
    cbn [fst snd]. unfold getScalarValue in Hrun. unfold scalar_value.
    rewrite run_bind in Hrun. unfold blpapi_Element_datatype in Hrun.
    rewrite eval_native, exec_native in Hrun.
    destruct (el_datatype element) eqn:Hd; try discriminate Ht.
    all: try (rewrite run_pair in Hrun; injection Hrun as <- <-;
              split; [done|cbn; eauto]).
    all: rewrite run_bind in Hrun;
      unfold blpapi_Element_getValueAsBool, blpapi_Element_getValueAsInt64,
        blpapi_Element_getValueAsFloat64, blpapi_Element_getValueAsString,
        blpapi_Element_getValueAsBytes in Hrun;
      rewrite eval_native, exec_native in Hrun;
      match type of Hrun with
      | context [match ?x with Some _ => _ | None => _ end] =>
          destruct x as [v|]
      end;
      cbn [fmap option_fmap option_map];
      rewrite run_pair in Hrun; injection Hrun as <- <-;
      try (split; [done|cbn; eauto]);
      try (eexists; split; [reflexivity|];
           by eapply (converted_fresh base st _ _ _ (Hev _) (Hcl _))).
    (* booleans *)
    unfold PyBool_FromLong. cbv zeta. rewrite eval_bind, exec_bind.
    rewrite eval_ret, exec_ret.
    eexists. split; [reflexivity|].
    apply (converted_singleton base st _ _ _ (Hev _) (Hcl _)).
    + destruct (v =? 0)%Z; [apply (repr_Bool _ _ _ false)|apply (repr_Bool _ _ _ true)].
    + destruct (v =? 0)%Z; unfold Py_True, Py_False; lia.
Qed.

(** ** Filling a list *)

Lemma ERROR_label_fails (a b : option loc) (msg : string) st :
  let m :=
    (Py_XDECREF a ;;;
     Py_XDECREF b ;;;
     e <-- PyErr_Occurred ;;
     match e with
     | None => PyErr_SetString PyExc_Exception msg
     | Some _ => ret tt
     end ;;;
     ret (@NULL loc)) in
  eval m st = NULL
  ∧ is_Some (err (exec m st))
  ∧ (is_Some (err st) → err (exec m st) = err st).
Proof.
  cbv zeta. autorewrite with run.
  assert (He : ∀ o s, err (exec (Py_XDECREF o) s) = err s).
  { intros [l|] s; [|done].
    by destruct (outside_heap_fields _ _ (Py_DECREF_outside_heap l s))
      as (_ & ? & _). }
  destruct (err (exec (Py_XDECREF b) (exec (Py_XDECREF a) st))) as [e|] eqn:E;
    autorewrite with run.
  - rewrite E. rewrite !He in E. rewrite E. eauto.
  - cbn. split_and!; [done|eauto|]. rewrite !He in E. rewrite E.
    by intros [? [=]].
Qed.

Lemma arrayElementToPy_ERROR_fails a b st :
  eval (arrayElementToPy_ERROR a b) st = NULL
  ∧ is_Some (err (exec (arrayElementToPy_ERROR a b) st))
  ∧ (is_Some (err st) → err (exec (arrayElementToPy_ERROR a b) st) = err st).
Proof. apply ERROR_label_fails. Qed.

Lemma complexElementToPy_ERROR_fails a b st :
  eval (complexElementToPy_ERROR a b) st = NULL
  ∧ is_Some (err (exec (complexElementToPy_ERROR a b) st))
  ∧ (is_Some (err st) → err (exec (complexElementToPy_ERROR a b) st) = err st).
Proof. apply ERROR_label_fails. Qed.

Lemma PyList_SetItem_run (l : loc) i (v : loc) st n items :
  heap st !! l = Some {| ob_refcnt := n; ob_body := PyList items |} →
  items !! i = Some None →
  PyList_SetItem l i v st
  = (0%Z,
     set_heap <[l := {| ob_refcnt := n;
                        ob_body := PyList (<[i := Some v]> items) |}]> st).
Proof. intros Hl Hi. unfold PyList_SetItem. by rewrite Hl, Hi. Qed.

(** An object allocated by the conversion gets a new body. *)
Lemma evolves_update base from st (l : loc) o o' :
  well_formed base st → base ≤ from → from ≤ l →
  heap st !! l = Some o →
  evolves base from st (set_heap <[l := o']> st).
Proof.
  intros Hwf Hbf Hfl Ho. pose proof (wf_base _ _ Hwf).
  assert (Hne : ∀ x, x ≠ l → heap (set_heap <[l := o']> st) !! x = heap st !! x).
  { intros x Hx. cbn. by rewrite lookup_insert_ne. }
  apply evolves_intro; try done.
  - by eapply heap_bounded_set_refcnt; [|apply Hwf].
  - intros x o'' Hx. rewrite Hne by lia. by apply Hwf.
  - intros x Hx. apply Hne. lia.
  - intros x Hx. apply body_at_heap, Hne. lia.
Qed.

Lemma list_insert_next {A : Type} (cs : list A) (v : A) n i :
  length cs = i → i < n →
  <[i := Some v]> (map Some cs ++ replicate (n - i) None)
  = map Some (cs ++ [v]) ++ replicate (n - S i) None.
Proof.
  intros Hlen Hi. destruct (n - i) as [|k] eqn:Hk; [lia|].
  replace (n - S i) with k by lia. cbn.
  rewrite map_app. cbn. rewrite <- app_assoc. cbn.
  rewrite insert_app_r_alt by (rewrite length_map; lia).
  rewrite length_map, Hlen, Nat.sub_diag. done.
Qed.

Lemma list_built_step base l st s s1 n i vals (v : loc) val :
  list_built base l st s n i vals → i < n →
  converted base s s1 v val →
  eval (PyList_SetItem l i v) s1 = 0%Z
  ∧ list_built base l st (exec (PyList_SetItem l i v) s1) n (S i)
      (vals ++ [val]).
Proof.
  intros [Hbase Hev Hnext (cs & Hlen & Hl & Hitems) Hcl] Hi
         [Hev1 Hcl1 Hrepr1 Hcount1].
  pose proof (ev_next _ _ _ _ Hev1) as Hn1.
  assert (Hfr : ∀ x, S l ≤ x < next_loc s → heap s1 !! x = heap s !! x).
  { intros x Hx. apply (ev_frame _ _ _ _ Hev1). lia. }
  assert (Hl1 : heap s1 !! l
                = Some {| ob_refcnt := 1;
                          ob_body := PyList (map Some cs ++ replicate (n - i) None) |}).
  { rewrite (ev_frame _ _ _ _ Hev1) by lia. done. }
  assert (Hslot : (map Some cs ++ replicate (n - i) None) !! i = Some None).
  { rewrite lookup_app_r by (rewrite length_map; lia).
    rewrite length_map, Hlen, Nat.sub_diag.
    destruct (n - i) eqn:E; [lia|done]. }
  unfold eval, exec. rewrite (PyList_SetItem_run _ _ _ _ _ _ Hl1 Hslot).
  cbn [fst snd]. split; [done|].
  assert (Hfr2 : ∀ x, x ≠ l →
            heap (set_heap
                    <[l := {| ob_refcnt := 1;
                              ob_body := PyList (<[i := Some v]>
                                (map Some cs ++ replicate (n - i) None)) |}]> s1)
              !! x = heap s1 !! x).
  { intros x Hx. cbn. by rewrite lookup_insert_ne. }
  split.
  - done.
  - eapply evolves_trans; [exact Hev|].
    eapply evolves_trans; [by eapply evolves_weaken; [|exact Hev1]; lia|].
    eapply evolves_update; [apply Hev1|done..].
  - cbn. lia.
  - exists (cs ++ [v]). split_and!.
    + rewrite length_app. cbn. lia.
    + cbn. rewrite lookup_insert_eq. by rewrite list_insert_next.
    + apply Forall2_app.
      * eapply Forall2_impl; [exact Hitems|]. intros c w Hc. cbn.
        eapply repr_transfer; [| |exact Hn1|exact Hc]; [|done].
        intros x o Hx Ho. exists o. split; [|done].
        rewrite lookup_insert_ne by lia. by rewrite Hfr.
      * constructor; [|constructor]. cbn.
        eapply repr_transfer; [| | |exact Hrepr1]; [|lia|done].
        intros x o Hx Ho. exists o. split; [|done].
        rewrite lookup_insert_ne by lia. done.
  - cbn. apply (region_closed_frame (heap s1)).
    { intros x Hx. rewrite lookup_insert_ne by lia. done. }
    apply (region_closed_union _ _ (next_loc s)); [lia| |done].
    by apply (region_closed_frame (heap s)).
Qed.

Lemma omap_id_map_Some {A : Type} (cs : list A) : omap id (map Some cs) = cs.
Proof. induction cs as [|c cs IH]; [done|]. cbn. by rewrite IH. Qed.

Lemma list_built_done base st s n vals :
  list_built base (next_loc st) st s n n vals →
  converted base st s (next_loc st) (V_List vals).
Proof.
  intros [Hbase Hev Hnext (cs & Hlen & Hl & Hitems) Hcl].
  rewrite Nat.sub_diag, app_nil_r in Hl.
  split.
  - done.
  - intros x o c Hx Ho Hin. destruct (decide (x = next_loc st)) as [->|Hne].
    + rewrite Hl in Ho. injection Ho as <-. cbn in Hin.
      rewrite omap_id_map_Some in Hin.
      apply list_elem_of_lookup in Hin as [j Hj].
      destruct (Forall2_lookup_l _ _ _ _ _ Hitems Hj) as (w & _ & Hw).
      destruct (repr_address _ _ _ _ _ Hw); [by left|right; lia].
    + destruct (Hcl x o c) as [|]; [lia|done|done|by left|right; lia].
  - eapply repr_List; [lia|done|done|].
    apply Forall2_fmap_l. eapply Forall2_impl; [exact Hitems|].
    intros c w Hc. exists c. split; [done|].
    eapply repr_widen; [| |exact Hc]; lia.
  - right. unfold refcount. by rewrite Hl.
Qed.

Section filling.
Variables (base l : loc) (st : State) (n : nat).
Variable loop : nat → nat → option loc → M (option loc).
Variable item : nat → option PyValue.

Hypothesis loop_done : ∀ i pv s, loop 0 i pv s = (Some l, s).
Hypothesis loop_step : ∀ remaining i pv s,
  well_formed base s → helper_of s = helper_of st →
  match item i with
  | Some val =>
      ∃ v s1, converted base s s1 v val
              ∧ loop (S remaining) i pv s
                = (PyList_SetItem l i v ;;; loop remaining (S i) (Some v)) s1
  | None =>
      eval (loop (S remaining) i pv) s = NULL
      ∧ is_Some (err (exec (loop (S remaining) i pv) s))
  end.

Lemma filling_loop remaining i pv s vals :
  list_built base l st s n i vals → i + remaining = n →
  match array_values item remaining i with
  | Some rest =>
      eval (loop remaining i pv) s = Some l
      ∧ list_built base l st (exec (loop remaining i pv) s) n n (vals ++ rest)
  | None =>
      eval (loop remaining i pv) s = NULL
      ∧ is_Some (err (exec (loop remaining i pv) s))
  end.
Proof using loop_done loop_step.
  revert i pv s vals.
  induction remaining as [|remaining IH]; intros i pv s vals Hb Hi; cbn.
  - unfold eval, exec. rewrite loop_done. cbn. rewrite app_nil_r.
    split; [done|]. by replace n with i in * by lia.
  - pose proof (loop_step remaining i pv s
                  (ev_wf _ _ _ _ (lb_evolves _ _ _ _ _ _ _ Hb))
                  (ev_helper _ _ _ _ (lb_evolves _ _ _ _ _ _ _ Hb))) as Hs.
    destruct (item i) as [val|]; [|done].
    destruct Hs as (v & s1 & Hconv & Heq).
    unfold eval, exec. rewrite Heq, run_bind.
    destruct (list_built_step base l st s s1 n i vals v val Hb) as [_ Hb1];
      [lia|done|].
    specialize (IH (S i) (Some v) (exec (PyList_SetItem l i v) s1)
                  (vals ++ [val]) Hb1).
    destruct (array_values item remaining (S i)) as [rest|]; cbn.
    + rewrite <- app_assoc in IH. cbn in IH. apply IH. lia.
    + apply IH. lia.
Qed.
End filling.

Lemma converted_after base st s s' l v :
  well_formed base st →
  evolves base (next_loc st) st s →
  region_closed (heap s) (next_loc st) (next_loc s) →
  converted base s s' l v → converted base st s' l v.
Proof.
  intros Hwf Hev Hcl [Hev1 Hcl1 Hrepr1 Hcount1].
  pose proof (ev_next _ _ _ _ Hev). pose proof (ev_next _ _ _ _ Hev1).
  pose proof (wf_base _ _ Hwf).
  split.
  - eapply evolves_trans; [done|]. eapply evolves_weaken; [|done]. lia.
  - apply (region_closed_union _ _ (next_loc s)); [lia| |done].
    apply (region_closed_frame (heap s)); [|done].
    intros x Hx. apply (ev_frame _ _ _ _ Hev1). lia.
  - eapply repr_widen; [| |done]; lia.
  - done.
Qed.

Lemma converted_after_log base st ev s' l v :
  well_formed base st →
  converted base (log ev st) s' l v → converted base st s' l v.
Proof.
  intros Hwf. apply converted_after; [done|by apply evolves_log|].
  apply region_closed_empty.
Qed.

Lemma scalar_loop_step base st element (l : loc) remaining i pv s :
  well_formed base s → helper_of s = helper_of st →
  match scalar_value (helper_of st) element i with
  | Some val =>
      ∃ v s1, converted base s s1 v val
              ∧ arrayElementToPy_scalar_loop element l (S remaining) i pv s
                = (PyList_SetItem l i v ;;;
                   arrayElementToPy_scalar_loop element l remaining (S i) (Some v)) s1
  | None =>
      eval (arrayElementToPy_scalar_loop element l (S remaining) i pv) s = NULL
      ∧ is_Some (err (exec (arrayElementToPy_scalar_loop element l
                              (S remaining) i pv) s))
  end.
Proof.
  intros Hwf Hh. pose proof (getScalarValue_converted base s element i Hwf) as Hc.
  cbv zeta in Hc. rewrite Hh in Hc.
  cbn [arrayElementToPy_scalar_loop].
  destruct (scalar_value (helper_of st) element i) as [val|].
  - destruct Hc as (v & Hv & Hconv). exists v, (exec (getScalarValue element i) s).
    split; [done|]. rewrite run_bind. by rewrite Hv.
  - destruct Hc as [Hv Herr]. unfold eval, exec. rewrite run_bind, Hv.
    destruct (arrayElementToPy_ERROR_fails (Some l) NULL
                (exec (getScalarValue element i) s)) as (E1 & E2 & _).
    done.
Qed.

Lemma complex_loop_step base st element (l : loc) remaining i pv s :
  (∀ sub, el_getValueAsElement element i = Some sub → refines base sub) →
  well_formed base s → helper_of s = helper_of st →
  match match el_getValueAsElement element i with
        | Some sub => toPy_value (helper_of st) sub
        | None => None
        end with
  | Some val =>
      ∃ v s1, converted base s s1 v val
              ∧ arrayElementToPy_complex_loop blpapi_Element_toPy element l
                  (S remaining) i pv s
                = (PyList_SetItem l i v ;;;
                   arrayElementToPy_complex_loop blpapi_Element_toPy element l
                     remaining (S i) (Some v)) s1
  | None =>
      eval (arrayElementToPy_complex_loop blpapi_Element_toPy element l
              (S remaining) i pv) s = NULL
      ∧ is_Some (err (exec (arrayElementToPy_complex_loop blpapi_Element_toPy
                              element l (S remaining) i pv) s))
  end.
Proof.
  intros IH Hwf Hh. cbn [arrayElementToPy_complex_loop].
  unfold eval, exec. rewrite !run_bind.
  unfold blpapi_Element_getValueAsElement. rewrite eval_native, exec_native.
  destruct (el_getValueAsElement element i) as [sub|].
  2: { rewrite run_bind.
       match goal with |- context [arrayElementToPy_ERROR ?a ?b ?s] =>
         destruct (arrayElementToPy_ERROR_fails a b s) as (E1 & E2 & _) end.
       done. }
  pose proof (IH sub eq_refl
                (log (Native element (N_getValueAsElement i)) s)
                (ev_wf _ _ _ _ (evolves_log base base s _ Hwf))) as Hsub.
  change (helper_of (log ?ev s)) with (helper_of s) in Hsub.
  rewrite Hh in Hsub.
  destruct (toPy_value (helper_of st) sub) as [val|].
  - destruct Hsub as (v & Hv & Hconv).
    exists v, (exec (blpapi_Element_toPy sub)
                 (log (Native element (N_getValueAsElement i)) s)).
    split; [by eapply converted_after_log|].
    rewrite run_bind. by rewrite Hv.
  - destruct Hsub as [Hv Herr]. rewrite run_bind, Hv.
    destruct (arrayElementToPy_ERROR_fails (Some l) NULL
                (exec (blpapi_Element_toPy sub)
                   (log (Native element (N_getValueAsElement i)) s)))
      as (E1 & E2 & _).
    done.
Qed.

Lemma arrayElementToPy_run toPy element st :
  arrayElementToPy toPy element st
  = (if st_isComplexType (sd_type (el_definition element))
     then arrayElementToPy_complex_loop toPy element (next_loc st)
            (el_numValues element) 0 NULL
     else arrayElementToPy_scalar_loop element (next_loc st)
            (el_numValues element) 0 NULL)
      (log (Native element N_SchemaTypeDefinition_isComplexType)
         (log (Native element N_SchemaElementDefinition_type)
            (log (Native element N_definition)
               (exec (new_object
                        (PyList (replicate (el_numValues element) None)))
                  (log (Native element N_numValues) st))))).
Proof. reflexivity. Qed.

Lemma arrayElementToPy_refines base element :
  (∀ i sub, el_getValueAsElement element i = Some sub → refines base sub) →
  ∀ st, well_formed base st →
    match array_values
            (array_item (toPy_value (helper_of st)) (helper_of st) element)
            (el_numValues element) 0 with
    | Some vals =>
        ∃ l, eval (arrayElementToPy blpapi_Element_toPy element) st = Some l
             ∧ converted base st
                 (exec (arrayElementToPy blpapi_Element_toPy element) st) l
                 (V_List vals)
    | None =>
        eval (arrayElementToPy blpapi_Element_toPy element) st = NULL
        ∧ is_Some (err (exec (arrayElementToPy blpapi_Element_toPy element) st))
    end.
Proof.
  intros IH st Hwf. pose proof (wf_base _ _ Hwf) as Hbase.
  unfold eval, exec. rewrite arrayElementToPy_run.
  set (l := next_loc st).
  set (s0 := log (Native element N_SchemaTypeDefinition_isComplexType) _).
  assert (Hb0 : list_built base l st s0 (el_numValues element) 0 []).
  { split.
    - unfold l. lia.
    - unfold s0, l. evolve. done.
    - unfold l. cbn. lia.
    - exists []. split_and!; [done| |constructor].
      cbn. rewrite lookup_insert_eq. by rewrite Nat.sub_0_r.
    - apply region_closed_empty. }
  clearbody s0.
  assert (Hfin : ∀ s' vals,
            list_built base l st s' (el_numValues element)
              (el_numValues element) ([] ++ vals) →
            converted base st s' l (V_List vals)).
  { intros s' vals Hb. by apply (list_built_done _ _ _ (el_numValues element)). }
  unfold array_item.
  destruct (st_isComplexType (sd_type (el_definition element))).
  - pose proof (filling_loop base l st (el_numValues element)
                  (arrayElementToPy_complex_loop blpapi_Element_toPy element l)
                  (fun i => match el_getValueAsElement element i with
                            | Some sub => toPy_value (helper_of st) sub
                            | None => None
                            end)
                  (fun i pv s => eq_refl)) as Hloop.
    specialize (Hloop (fun remaining i pv s Hw Hh =>
      complex_loop_step base st element l remaining i pv s (IH i) Hw Hh)).
    specialize (Hloop (el_numValues element) 0 NULL s0 [] Hb0 eq_refl).
    destruct (array_values _ _ _) as [vals|].
    + destruct Hloop as [Hr Hb]. exists l. split; [done|]. by apply Hfin.
    + done.
  - pose proof (filling_loop base l st (el_numValues element)
                  (arrayElementToPy_scalar_loop element l)
                  (scalar_value (helper_of st) element)
                  (fun i pv s => eq_refl)) as Hloop.
    specialize (Hloop (fun remaining i pv s Hw Hh =>
      scalar_loop_step base st element l remaining i pv s Hw Hh)).
    specialize (Hloop (el_numValues element) 0 NULL s0 [] Hb0 eq_refl).
    destruct (array_values _ _ _) as [vals|].
    + destruct Hloop as [Hr Hb]. exists l. split; [done|]. by apply Hfin.
    + done.
Qed.

(** ** Filling a mapping *)

Lemma Py_INCREF_frame l st x :
  x ≠ l → heap (exec (Py_INCREF l) st) !! x = heap st !! x.
Proof.
  intros Hx. unfold exec, Py_INCREF, modify. cbn.
  destruct (heap st !! l); cbn; [|done]. by rewrite lookup_insert_ne.
Qed.

Lemma PyDict_SetItemString_run (d : loc) key (v : loc) st n entries :
  heap st !! d = Some {| ob_refcnt := n; ob_body := PyDict entries |} →
  PyDict_SetItemString d key v st
  = (0%Z,
     exec (Py_XDECREF (entries !! key))
       (set_heap <[d := {| ob_refcnt := n;
                           ob_body := PyDict (<[key := v]> entries) |}]>
          (exec (Py_INCREF v) st))).
Proof. intros Hd. unfold PyDict_SetItemString. by rewrite Hd. Qed.

(** Storing a converted value and giving up the reference the conversion
    returned: the mapping has the new entry, the value it replaces is
    released, and nothing else changes. *)
Lemma dict_store base (d : loc) s1 entries name (v : loc) A lo hi :
  well_formed base s1 → base ≤ d → d < A →
  heap s1 !! d = Some {| ob_refcnt := 1; ob_body := PyDict entries |} →
  v < 3 ∨ (A ≤ v ∧ refcount s1 v = Some 1%Z) →
  region_closed (heap s1) lo hi → d < lo → hi ≤ A →
  (∀ c, entries !! name = Some c → c < 3 ∨ lo ≤ c < hi) →
  let s2 := exec (Py_DECREF v) (exec (PyDict_SetItemString d name v) s1) in
  eval (PyDict_SetItemString d name v) s1 = 0%Z
  ∧ heap s2 !! d
    = Some {| ob_refcnt := 1; ob_body := PyDict (<[name := v]> entries) |}
  ∧ (∀ x, 3 ≤ x → x ≠ d → ¬ (lo ≤ x < hi) → heap s2 !! x = heap s1 !! x)
  ∧ (∀ x o', x ≠ d → heap s2 !! x = Some o' →
             ∃ o, heap s1 !! x = Some o ∧ ob_body o = ob_body o')
  ∧ next_loc s2 = next_loc s1
  ∧ evolves base d s1 s2.
Proof.
  intros Hwf Hbd HdA Hd Hv Hcl Hlo Hhi Hold. cbv zeta.
  pose proof (wf_base _ _ Hwf) as Hb3.
  assert (Hrun : exec (PyDict_SetItemString d name v) s1
                 = exec (Py_XDECREF (entries !! name))
                     (set_heap
                        <[d := {| ob_refcnt := 1%Z;
                                  ob_body := PyDict (<[name := v]> entries) |}]>
                        (exec (Py_INCREF v) s1))).
  { unfold exec at 1. by rewrite (PyDict_SetItemString_run _ _ _ _ _ _ Hd). }
  rewrite Hrun. clear Hrun.
  split; [unfold eval; by rewrite (PyDict_SetItemString_run _ _ _ _ _ _ Hd)|].
  (* the reference added for the mapping *)
  assert (EvA : evolves base d s1 (exec (Py_INCREF v) s1)).
  { apply evolves_Py_INCREF; [done|]. lia. }
  assert (FrA : ∀ x, x ≠ v → heap (exec (Py_INCREF v) s1) !! x = heap s1 !! x)
    by (intros; by apply Py_INCREF_frame).
  pose proof (sub_heap_Py_INCREF v s1) as SubA.
  assert (NA : next_loc (exec (Py_INCREF v) s1) = next_loc s1).
  { by destruct (outside_heap_fields _ _ (Py_INCREF_outside_heap v s1)). }
  assert (HvA : ∀ o, heap s1 !! v = Some o →
            heap (exec (Py_INCREF v) s1) !! v
            = Some (with_refcnt o (ob_refcnt o + 1))).
  { intros o Ho. unfold exec. rewrite (Py_INCREF_live _ _ _ Ho). cbn.
    by rewrite lookup_insert_eq. }
  revert EvA FrA SubA NA HvA. generalize (exec (Py_INCREF v) s1) as sA.
  intros sA EvA FrA SubA NA HvA.
  (* the entry *)
  set (D := {| ob_refcnt := 1%Z; ob_body := PyDict (<[name := v]> entries) |}).
  assert (HdA' : heap sA !! d = heap s1 !! d) by (apply FrA; lia).
  assert (EvB : evolves base d sA (set_heap <[d := D]> sA)).
  { eapply evolves_update; [apply EvA|done|done|]. by rewrite HdA', Hd. }
  assert (FrB : ∀ x, x ≠ d → heap (set_heap <[d := D]> sA) !! x = heap sA !! x).
  { intros x Hx. cbn. by rewrite lookup_insert_ne. }
  assert (HdB : heap (set_heap <[d := D]> sA) !! d = Some D).
  { cbn. by rewrite lookup_insert_eq. }
  assert (NB : next_loc (set_heap <[d := D]> sA) = next_loc sA) by done.
  revert EvB FrB HdB NB. generalize (set_heap <[d := D]> sA) as sB.
  intros sB EvB FrB HdB NB.
  assert (ClB : region_closed (heap sB) lo hi).
  { apply (region_closed_frame (heap s1)); [|done].
    intros x Hx. rewrite FrB, FrA by lia. done. }
  (* the value that was stored under the name *)
  assert (HC : sub_heap (heap (exec (Py_XDECREF (entries !! name)) sB)) (heap sB)
               ∧ (∀ x, 3 ≤ x → ¬ (lo ≤ x < hi) →
                       heap (exec (Py_XDECREF (entries !! name)) sB) !! x
                       = heap sB !! x)
               ∧ next_loc (exec (Py_XDECREF (entries !! name)) sB) = next_loc sB
               ∧ evolves base d sB (exec (Py_XDECREF (entries !! name)) sB)).
  { destruct (entries !! name) as [c|] eqn:Ec; cbn [Py_XDECREF].
    - destruct (Py_DECREF_region c sB lo hi ClB) as (S1 & S2 & S3);
        [apply EvB|by apply Hold|].
      split_and!; [done|done| |].
      + by destruct (outside_heap_fields _ _ S3).
      + eapply evolves_Py_DECREF; [apply EvB|done| |exact ClB|by apply Hold].
        lia.
    - split_and!; [apply sub_heap_refl|done|done|].
      apply evolves_refl, EvB. }
  revert HC. generalize (exec (Py_XDECREF (entries !! name)) sB) as sC.
  intros sC (SubC & FrC & NC & EvC).
  (* the reference the conversion returned *)
  assert (HD : sub_heap (heap (exec (Py_DECREF v) sC)) (heap sC)
               ∧ (∀ x, 3 ≤ x → x ≠ v →
                       heap (exec (Py_DECREF v) sC) !! x = heap sC !! x)
               ∧ (3 ≤ v → heap (exec (Py_DECREF v) sC) !! v = heap s1 !! v)
               ∧ next_loc (exec (Py_DECREF v) sC) = next_loc sC
               ∧ evolves base d sC (exec (Py_DECREF v) sC)).
  { destruct Hv as [Hv|[Hv Hcount]].
    - destruct (Py_DECREF_region v sC d d (region_closed_empty _ _))
        as (S1 & S2 & S3); [apply EvC|by left|].
      split_and!; [done| |lia| |].
      + intros x Hx _. apply S2; [done|lia].
      + by destruct (outside_heap_fields _ _ S3).
      + eapply (evolves_Py_DECREF _ _ _ _ d d); [apply EvC|done|done| |by left].
        apply region_closed_empty.
    - unfold refcount in Hcount.
      destruct (heap s1 !! v) as [o|] eqn:Ho; [|done].
      injection Hcount as Hcount.
      assert (HvC : heap sC !! v = Some (with_refcnt o (ob_refcnt o + 1))).
      { rewrite FrC, FrB by lia. by apply HvA. }
      unfold exec.
      rewrite (Py_DECREF_shared _ _ _ HvC) by (cbn; lia). cbn [snd].
      split_and!.
      + by eapply sub_heap_insert.
      + intros x _ Hx. cbn. by rewrite lookup_insert_ne.
      + intros _. cbn. rewrite lookup_insert_eq. f_equal.
        destruct o as [n b]. cbn in *. subst n. done.
      + done.
      + eapply evolves_update; [apply EvC|done|lia|exact HvC]. }
  revert HD. generalize (exec (Py_DECREF v) sC) as s2.
  intros s2 (SubD & FrD & HvD & ND & EvD).
  assert (Hvd : v ≠ d) by (destruct Hv; lia).
  split_and!.
  - rewrite FrD, FrC by lia. done.
  - intros x Hx Hxd Hxr. destruct (decide (x = v)) as [->|Hxv].
    + by apply HvD.
    + rewrite FrD, FrC, FrB, FrA by done. done.
  - intros x o' Hxd Ho'.
    destruct (SubD _ _ Ho') as (o1 & Ho1 & Hb1).
    destruct (SubC _ _ Ho1) as (o2 & Ho2 & Hb2).
    rewrite FrB in Ho2 by done.
    destruct (SubA _ _ Ho2) as (o3 & Ho3 & Hb3').
    exists o3. split; [done|]. congruence.
  - congruence.
  - eapply evolves_trans; [exact EvA|].
    eapply evolves_trans; [exact EvB|].
    eapply evolves_trans; [exact EvC|exact EvD].
Qed.

Lemma dict_built_step base d st s s1 m name (v : loc) val :
  dict_built base d st s m →
  converted base s s1 v val →
  eval (PyDict_SetItemString d name v) s1 = 0%Z
  ∧ dict_built base d st
      (exec (Py_DECREF v) (exec (PyDict_SetItemString d name v) s1))
      (<[name := val]> m).
Proof.
  intros [Hbase Hev Hnext (entries & reg & Hd & Hent & Hreg & Hdisj) Hcl]
         [Hev1 Hcl1 Hrepr1 Hcount1].
  pose proof (ev_next _ _ _ _ Hev1) as Hn1.
  pose proof (wf_base _ _ (ev_wf _ _ _ _ Hev)) as Hb3.
  assert (Fr1 : ∀ x, base ≤ x < next_loc s → heap s1 !! x = heap s !! x)
    by apply Hev1.
  assert (Hd1 : heap s1 !! d
                = Some {| ob_refcnt := 1; ob_body := PyDict entries |}).
  { rewrite Fr1 by lia. done. }
  set (old := match entries !! name with
              | Some _ => reg name
              | None => (next_loc s, next_loc s)
              end).
  assert (Hold : d < old.1 ∧ old.2 ≤ next_loc s
                 ∧ region_closed (heap s) old.1 old.2
                 ∧ (∀ c, entries !! name = Some c → c < 3 ∨ old.1 ≤ c < old.2)
                 ∧ (∀ k x, k ≠ name → is_Some (entries !! k) →
                           (reg k).1 ≤ x < (reg k).2 →
                           ¬ (old.1 ≤ x < old.2))).
  { unfold old. pose proof (Hent name) as Hn.
    destruct (entries !! name) as [c|] eqn:Ec.
    - destruct (Hreg name) as (R1 & R2 & R3); [by rewrite Ec|].
      split_and!; [done..| |].
      + intros c' [= <-]. inversion Hn; subst. by eapply repr_address.
      + intros k x Hk Hs Hx.
        destruct (Hdisj k name Hk Hs) as [D|D]; [by rewrite Ec|lia|lia].
    - cbn. split_and!; [lia|lia|apply region_closed_empty|done|].
      intros k x _ _ _. lia. }
  clearbody old. destruct old as [lo hi]. cbn [fst snd] in Hold.
  destruct Hold as (Hlo & Hhi & Hclo & Hc & Hother).
  destruct (dict_store base d s1 entries name v (next_loc s) lo hi)
    as (E0 & Hd2 & Fr2 & Sub2 & N2 & Ev2); try done.
  { apply Hev1. }
  { destruct Hcount1 as [?|Hc1]; [by left|].
    destruct (repr_address _ _ _ _ _ Hrepr1) as [?|?]; [by left|].
    right. split; [lia|done]. }
  { apply (region_closed_frame (heap s)); [|done]. intros x Hx. apply Fr1. lia. }
  split; [done|].
  revert Hd2 Fr2 Sub2 N2 Ev2.
  generalize (exec (Py_DECREF v) (exec (PyDict_SetItemString d name v) s1))
    as s2.
  intros s2 Hd2 Fr2 Sub2 N2 Ev2.
  assert (Fr : ∀ k x, k ≠ name → is_Some (entries !! k) →
                      (reg k).1 ≤ x < (reg k).2 →
                      heap s2 !! x = heap s !! x).
  { intros k x Hk Hs Hx. destruct (Hreg k Hs) as (R1 & R2 & R3).
    rewrite Fr2; [apply Fr1; lia|lia|lia|by eapply Hother]. }
  split.
  - done.
  - eapply evolves_trans; [exact Hev|].
    eapply evolves_trans; [|exact Ev2].
    eapply evolves_weaken; [|exact Hev1]. lia.
  - lia.
  - exists (<[name := v]> entries),
           (fun k => if decide (k = name) then (next_loc s, next_loc s1)
                     else reg k).
    split_and!.
    + done.
    + intros k. destruct (decide (k = name)) as [->|Hk].
      * rewrite !lookup_insert_eq. constructor. cbn.
        eapply repr_transfer; [| | |exact Hrepr1]; [|done..].
        intros x o Hx Ho. exists o. split; [|done].
        rewrite Fr2 by lia. done.
      * rewrite !lookup_insert_ne by done.
        pose proof (Hent k) as Hk'.
        destruct (entries !! k) as [c|] eqn:Ec;
          inversion Hk'; subst; constructor.
        eapply repr_frame; [|done]. intros x Hx. eapply Fr; [done| |done].
        by rewrite Ec.
    + intros k Hs. destruct (decide (k = name)) as [->|Hk]; cbn.
      * split_and!; [lia|lia|].
        apply (region_closed_frame (heap s1)); [|done].
        intros x Hx. apply Fr2; lia.
      * rewrite lookup_insert_ne in Hs by done.
        destruct (Hreg k Hs) as (R1 & R2 & R3). split_and!; [lia|lia|].
        apply (region_closed_frame (heap s)); [|done].
        intros x Hx. by eapply Fr.
    + intros k k' Hkk Hs Hs'.
      destruct (decide (k = name)) as [->|Hk],
               (decide (k' = name)) as [->|Hk']; cbn; [done| | |].
      * rewrite lookup_insert_ne in Hs' by done.
        destruct (Hreg k' Hs') as (R1 & R2 & R3). right. lia.
      * rewrite lookup_insert_ne in Hs by done.
        destruct (Hreg k Hs) as (R1 & R2 & R3). left. lia.
      * rewrite lookup_insert_ne in Hs, Hs' by done. by apply Hdisj.
  - intros x o' c Hx Ho' Hin.
    destruct (Sub2 x o') as (o & Ho & Hb); [lia|done|].
    rewrite <- Hb in Hin.
    destruct (decide (x < next_loc s)) as [Hxs|Hxs].
    + rewrite Fr1 in Ho by lia.
      destruct (Hcl x o c) as [?|?]; [lia|done|done|by left|right; lia].
    + destruct (Hcl1 x o c) as [?|?]; [lia|done|done|by left|right; lia].
Qed.

Lemma dict_built_done base st s m :
  dict_built base (next_loc st) st s m →
  converted base st s (next_loc st) (V_Dict m).
Proof.
  intros [Hbase Hev Hnext (entries & reg & Hd & Hent & Hreg & Hdisj) Hcl].
  assert (Hval : ∀ k c, entries !! k = Some c →
            ∃ w, m !! k = Some w
                 ∧ repr (heap s) (next_loc st) (next_loc s) c w).
  { intros k c Ec. pose proof (Hent k) as Hk. rewrite Ec in Hk.
    inversion Hk; subst. eexists. split; [done|].
    destruct (Hreg k) as (R1 & R2 & R3); [by rewrite Ec|].
    eapply repr_widen; [| |done]; lia. }
  split.
  - done.
  - intros x o c Hx Ho Hin. destruct (decide (x = next_loc st)) as [->|Hne].
    + rewrite Hd in Ho. injection Ho as <-. cbn in Hin.
      apply list_elem_of_fmap in Hin as ([k c'] & -> & Hin).
      apply elem_of_map_to_list in Hin. cbn.
      destruct (Hval _ _ Hin) as (w & _ & Hw).
      by eapply repr_address.
    + destruct (Hcl x o c) as [?|?]; [lia|done|done|by left|right; lia].
  - eapply repr_Dict; [|exact Hd|done|]; [lia|].
    intros k. pose proof (Hent k) as Hk.
    destruct (entries !! k) as [c|] eqn:Ec; inversion Hk; subst; constructor.
    destruct (Hval _ _ Ec) as (w & Hw & Hr). congruence.
  - right. unfold refcount. by rewrite Hd.
Qed.

Lemma dict_built_log base d st s m ev :
  dict_built base d st s m → dict_built base d st (log ev s) m.
Proof.
  intros [Hbase Hev Hnext Hent Hcl]. split; try done.
  eapply evolves_trans; [exact Hev|]. apply evolves_log, Hev.
Qed.

Lemma complexElementToPy_loop_run toPy element (d : loc) remaining i pv s :
  complexElementToPy_loop toPy element d (S remaining) i pv s
  = match el_getElementAt element i with
    | None =>
        (PyErr_SetString PyExc_Exception "Internal error in `Element.toPy`" ;;;
         complexElementToPy_ERROR (Some d) pv)
          (log (Native element (N_getElementAt i))
             (log (Native element N_numElements) s))
    | Some subElement =>
        (converted <-- toPy subElement ;;
         match converted with
         | None => complexElementToPy_ERROR (Some d) NULL
         | Some v =>
             status <-- PyDict_SetItemString d (el_nameString subElement) v ;;
             if (status =? 0)%Z then
               Py_DECREF v ;;;
               complexElementToPy_loop toPy element d remaining (S i) (Some v)
             else complexElementToPy_ERROR (Some d) (Some v)
         end)
          (log (Native subElement N_nameString)
             (log (Native element (N_getElementAt i))
                (log (Native element N_numElements) s)))
    end.
Proof.
  cbn [complexElementToPy_loop].
  unfold blpapi_Element_numElements, blpapi_Element_getElementAt,
    blpapi_Element_nameString.
  rewrite !run_bind, !eval_native, !exec_native.
  destruct (el_getElementAt element i); [|done].
  by rewrite !run_bind, !eval_native, !exec_native.
Qed.

Lemma complexElementToPy_loop_refines base st element (d : loc) :
  (∀ j sub, el_getElementAt element j = Some sub → refines base sub) →
  ∀ remaining i pv s m,
    dict_built base d st s m →
    match record_value (toPy_value (helper_of st)) element remaining i m with
    | Some m' =>
        eval (complexElementToPy_loop blpapi_Element_toPy element d
                remaining i pv) s = Some d
        ∧ dict_built base d st
            (exec (complexElementToPy_loop blpapi_Element_toPy element d
                     remaining i pv) s) m'
    | None =>
        eval (complexElementToPy_loop blpapi_Element_toPy element d
                remaining i pv) s = NULL
        ∧ is_Some (err (exec (complexElementToPy_loop blpapi_Element_toPy
                                element d remaining i pv) s))
    end.
Proof.
  intros IHsub remaining.
  induction remaining as [|remaining IH]; intros i pv s m Hb.
  { cbn. split; [done|]. by apply dict_built_log. }
  cbn [record_value]. unfold eval, exec.
  rewrite complexElementToPy_loop_run.
  destruct (el_getElementAt element i) as [sub|] eqn:Esub.
  2: { rewrite run_bind.
       match goal with |- context [complexElementToPy_ERROR ?a ?b ?s] =>
         destruct (complexElementToPy_ERROR_fails a b s) as (E1 & E2 & _) end.
       done. }
  assert (Hb' : dict_built base d st
                  (log (Native sub N_nameString)
                     (log (Native element (N_getElementAt i))
                        (log (Native element N_numElements) s))) m)
    by (by do 3 apply dict_built_log).
  revert Hb'.
  generalize (log (Native sub N_nameString)
                (log (Native element (N_getElementAt i))
                   (log (Native element N_numElements) s))) as s'.
  intros s' Hb'.
  pose proof (IHsub i sub Esub s' (ev_wf _ _ _ _ (db_evolves _ _ _ _ _ Hb')))
    as Hsub.
  rewrite (ev_helper _ _ _ _ (db_evolves _ _ _ _ _ Hb')) in Hsub.
  rewrite run_bind.
  destruct (toPy_value (helper_of st) sub) as [val|].
  - destruct Hsub as (v & Hv & Hconv). rewrite Hv.
    destruct (dict_built_step base d st s' _ m (el_nameString sub) v val
                Hb' Hconv) as [E0 Hb2].
    rewrite run_bind. fold (eval (PyDict_SetItemString d (el_nameString sub) v)
                              (exec (blpapi_Element_toPy sub) s')).
    rewrite E0. cbn [Z.eqb]. rewrite run_bind.
    apply (IH (S i) (Some v) _ _ Hb2).
  - destruct Hsub as [Hv Herr]. rewrite Hv.
    destruct (complexElementToPy_ERROR_fails (Some d) NULL
                (exec (blpapi_Element_toPy sub) s')) as (E1 & E2 & _).
    done.
Qed.

Lemma complexElementToPy_refines base element :
  (∀ j sub, el_getElementAt element j = Some sub → refines base sub) →
  ∀ st, well_formed base st →
    match record_value (toPy_value (helper_of st)) element
            (el_numElements element) 0 ∅ with
    | Some m =>
        ∃ l, eval (complexElementToPy blpapi_Element_toPy element) st = Some l
             ∧ converted base st
                 (exec (complexElementToPy blpapi_Element_toPy element) st) l
                 (V_Dict m)
    | None =>
        eval (complexElementToPy blpapi_Element_toPy element) st = NULL
        ∧ is_Some (err (exec (complexElementToPy blpapi_Element_toPy element) st))
    end.
Proof.
  intros IHsub st Hwf. pose proof (wf_base _ _ Hwf) as Hbase.
  assert (Hrun : complexElementToPy blpapi_Element_toPy element st
                 = complexElementToPy_loop blpapi_Element_toPy element
                     (next_loc st) (el_numElements element) 0 NULL
                     (exec (new_object (PyDict ∅)) st)) by reflexivity.
  unfold eval, exec. rewrite Hrun.
  assert (Hb0 : dict_built base (next_loc st) st
                  (exec (new_object (PyDict ∅)) st) ∅).
  { split.
    - lia.
    - evolve. done.
    - cbn. lia.
    - exists ∅, (fun _ => (0, 0)). split_and!.
      + cbn. by rewrite lookup_insert_eq.
      + intros k. rewrite !lookup_empty. constructor.
      + intros k [? Hk]. by rewrite lookup_empty in Hk.
      + intros k k' _ [? Hk]. by rewrite lookup_empty in Hk.
    - apply region_closed_empty. }
  pose proof (complexElementToPy_loop_refines base st element (next_loc st)
                IHsub (el_numElements element) 0 NULL _ ∅ Hb0) as Hloop.
  destruct (record_value _ _ _ _ _) as [m|].
  - destruct Hloop as [Hr Hb]. exists (next_loc st). split; [done|].
    by apply dict_built_done.
  - done.
Qed.

(** ** The conversion refines the specification *)

(** Induction on an element: a property that holds of an element whenever
    it holds of every value and sub-element the element yields, holds of
    every element. *)
Lemma blpapi_Element_induction (P : blpapi_Element_t → Prop) :
  (∀ e,
     (∀ i sub, el_getValueAsElement e i = Some sub → P sub) →
     (∀ i sub, el_getElementAt e i = Some sub → P sub) →
     P e) →
  ∀ e, P e.
Proof.
  intros Hstep.
  refine (fix IH (e : blpapi_Element_t) : P e :=
            Hstep e
              (fun i sub =>
                 match el_getValueAsElement e i as o
                       return o = Some sub → P sub with
                 | Some s => fun E => eq_ind s P (IH s) sub _
                 | None => fun E => _
                 end)
              (fun i sub =>
                 match el_getElementAt e i as o
                       return o = Some sub → P sub with
                 | Some s => fun E => eq_ind s P (IH s) sub _
                 | None => fun E => _
                 end)); congruence.
Qed.

Lemma toPy_value_unfold helper e :
  toPy_value helper e
  = if el_isComplexType e then
      V_Dict <$> record_value (toPy_value helper) e (el_numElements e) 0 ∅
    else if el_isArray e then
      V_List <$> array_values (array_item (toPy_value helper) helper e)
                   (el_numValues e) 0
    else if el_isNull e then Some V_None
    else scalar_value helper e 0.
Proof. by destruct e. Qed.

Lemma blpapi_Element_toPy_run element st :
  blpapi_Element_toPy element st
  = if el_isComplexType element then
      complexElementToPy blpapi_Element_toPy element
        (log (Native element N_isComplexType) st)
    else if el_isArray element then
      arrayElementToPy blpapi_Element_toPy element
        (log (Native element N_isArray)
           (log (Native element N_isComplexType) st))
    else if el_isNull element then
      Py_RETURN_NONE
        (log (Native element N_isNull)
           (log (Native element N_isArray)
              (log (Native element N_isComplexType) st)))
    else
      getScalarValue element 0
        (log (Native element N_isNull)
           (log (Native element N_isArray)
              (log (Native element N_isComplexType) st))).
Proof.
  rewrite blpapi_Element_toPy_unfold.
  unfold blpapi_Element_isComplexType, blpapi_Element_isArray,
    blpapi_Element_isNull.
  rewrite run_bind, eval_native, exec_native.
  destruct (el_isComplexType element); [done|].
  rewrite run_bind, eval_native, exec_native.
  destruct (el_isArray element); [done|].
  rewrite run_bind, eval_native, exec_native.
  by destruct (el_isNull element).
Qed.

Lemma blpapi_Element_toPy_refines base e : refines base e.
Proof.
  induction e as [e IHvalues IHsubs] using blpapi_Element_induction.
  intros st Hwf. unfold eval, exec.
  rewrite blpapi_Element_toPy_run, toPy_value_unfold.
  set (s1 := log (Native e N_isComplexType) st).
  assert (W1 : well_formed base s1) by apply (evolves_log base base), Hwf.
  destruct (el_isComplexType e).
  { pose proof (complexElementToPy_refines base e IHsubs s1 W1) as H.
    change (helper_of s1) with (helper_of st) in H.
    destruct (record_value _ _ _ _ _) as [m|]; cbn [fmap option_fmap option_map].
    - destruct H as (l & Hl & Hc). exists l. split; [done|].
      by eapply converted_after_log.
    - done. }
  set (s2 := log (Native e N_isArray) s1).
  assert (W2 : well_formed base s2) by apply (evolves_log base base), W1.
  destruct (el_isArray e).
  { pose proof (arrayElementToPy_refines base e IHvalues s2 W2) as H.
    change (helper_of s2) with (helper_of st) in H.
    destruct (array_values _ _ _) as [vs|]; cbn [fmap option_fmap option_map].
    - destruct H as (l & Hl & Hc). exists l. split; [done|].
      eapply converted_after_log; [done|].
      by eapply converted_after_log.
    - done. }
  set (s3 := log (Native e N_isNull) s2).
  assert (W3 : well_formed base s3) by apply (evolves_log base base), W2.
  destruct (el_isNull e).
  { exists Py_None. split; [done|].
    apply (converted_singleton base st s3 Py_None V_None).
    - unfold s3, s2, s1. evolve.
    - apply region_closed_empty.
    - constructor.
    - unfold Py_None. lia. }
  pose proof (getScalarValue_converted base s3 e 0 W3) as H. cbv zeta in H.
  change (helper_of s3) with (helper_of st) in H.
  destruct (scalar_value (helper_of st) e 0) as [val|].
  - destruct H as (l & Hl & Hc). exists l. split; [done|].
    do 2 (eapply converted_after_log; [done|]).
    by eapply converted_after_log.
  - done.
Qed.

(** ** The values of arrays and records *)

Lemma array_values_Some item remaining i vals :
  array_values item remaining i = Some vals →
  length vals = remaining ∧ ∀ j, j < remaining → vals !! j = item (i + j).
Proof.
  revert i vals. induction remaining as [|remaining IH]; intros i vals; cbn.
  { intros [= <-]. split; [done|]. intros j Hj. lia. }
  destruct (item i) as [v|] eqn:Ev; [|done].
  destruct (array_values item remaining (S i)) as [rest|] eqn:Er; [|done].
  cbn. intros [= <-]. destruct (IH _ _ Er) as [Hlen Hat]. split.
  - cbn. by rewrite Hlen.
  - intros [|j] Hj; cbn.
    + by rewrite Nat.add_0_r.
    + rewrite Hat by lia. f_equal. lia.
Qed.

Lemma array_values_None item remaining i :
  array_values item remaining i = None ↔
  ∃ j, j < remaining ∧ item (i + j) = None.
Proof.
  revert i. induction remaining as [|remaining IH]; intros i; cbn.
  { split; [done|]. intros (j & Hj & _). lia. }
  destruct (item i) as [v|] eqn:Ev.
  - destruct (array_values item remaining (S i)) as [rest|] eqn:Er; cbn.
    + split; [done|]. intros ([|j] & Hj & Hn).
      * rewrite Nat.add_0_r in Hn. congruence.
      * assert (array_values item remaining (S i) = None); [|congruence].
        apply IH. exists j. split; [lia|].
        by replace (S i + j) with (i + S j) by lia.
    + split; [|done]. intros _. apply IH in Er as (j & Hj & Hn).
      exists (S j). split; [lia|].
      by replace (i + S j) with (S i + j) by lia.
  - split; [|done]. intros _. exists 0. split; [lia|].
    by rewrite Nat.add_0_r.
Qed.

Lemma record_value_Some toPy e remaining i acc m :
  record_value toPy e remaining i acc = Some m →
  (∀ j, i ≤ j < i + remaining →
        ∃ sub, el_getElementAt e j = Some sub ∧ is_Some (toPy sub))
  ∧ ∀ k,
      ((∀ j sub, i ≤ j < i + remaining → el_getElementAt e j = Some sub →
                 el_nameString sub ≠ k) →
       m !! k = acc !! k)
      ∧ (∀ j sub, i ≤ j < i + remaining → el_getElementAt e j = Some sub →
                  el_nameString sub = k →
                  (∀ j' sub', j < j' < i + remaining →
                              el_getElementAt e j' = Some sub' →
                              el_nameString sub' ≠ k) →
                  m !! k = toPy sub).
Proof.
  revert i acc. induction remaining as [|remaining IH]; intros i acc; cbn.
  { intros [= <-]. split; [intros j Hj; lia|]. intros k.
    split; [done|]. intros j sub Hj. lia. }
  destruct (el_getElementAt e i) as [sub0|] eqn:E0; [|done].
  destruct (toPy sub0) as [v0|] eqn:V0; [|done].
  intros Hrec. destruct (IH _ _ Hrec) as [Hall Hkeys]. split.
  { intros j Hj. destruct (decide (j = i)) as [->|Hne].
    - exists sub0. by rewrite V0.
    - apply Hall. lia. }
  intros k. destruct (Hkeys k) as [Hnone Hlast]. split.
  - intros Hk. rewrite Hnone.
    + rewrite lookup_insert_ne; [done|]. apply (Hk i); [lia|done].
    + intros j sub Hj. apply Hk. lia.
  - intros j sub Hj Hsub Hname Hlater.
    destruct (decide (j = i)) as [->|Hne].
    + assert (sub = sub0) as -> by congruence.
      rewrite Hnone.
      * subst k. by rewrite lookup_insert_eq.
      * intros j' sub' Hj'. apply Hlater. lia.
    + apply (Hlast j); [lia|done|done|].
      intros j' sub' Hj'. apply Hlater. lia.
Qed.

Lemma record_value_None toPy e remaining i acc :
  record_value toPy e remaining i acc = None ↔
  ∃ j, i ≤ j < i + remaining
       ∧ match el_getElementAt e j with
         | Some sub => toPy sub = None
         | None => True
         end.
Proof.
  revert i acc. induction remaining as [|remaining IH]; intros i acc; cbn.
  { split; [done|]. intros (j & Hj & _). lia. }
  destruct (el_getElementAt e i) as [sub0|] eqn:E0.
  2: { split; [|done]. intros _. exists i. split; [lia|]. by rewrite E0. }
  destruct (toPy sub0) as [v0|] eqn:V0.
  2: { split; [|done]. intros _. exists i. split; [lia|]. by rewrite E0. }
  rewrite IH. split.
  - intros (j & Hj & H). exists j. split; [lia|done].
  - intros (j & Hj & H). destruct (decide (j = i)) as [->|Hne].
    + rewrite E0 in H. congruence.
    + exists j. split; [lia|done].
Qed.

(** ** The events a conversion emits *)

Lemma within_step e y sub : within e y → child sub y → within e sub.
Proof.
  induction 1 as [|e s y Hc Hw IH]; intros Hsub.
  - eapply within_child; [done|constructor].
  - eapply within_child; [done|]. by apply IH.
Qed.

(** An element does not occur below itself. *)
Lemma within_acyclic e sub : child sub e → ¬ within sub e.
Proof.
  revert sub. induction e as [e IHv IHs] using blpapi_Element_induction.
  assert (IH : ∀ s, child s e → ∀ s', child s' s → ¬ within s' s).
  { intros s [i [Hs|Hs]]; [by eapply IHv|by eapply IHs]. }
  intros sub Hsub Hw. inversion Hw as [|s' y Hs' Hw']; subst.
  - by apply (IH e Hsub e Hsub).
  - apply (IH sub Hsub s' Hs'). by eapply within_step.
Qed.

Section emitting.
Context (P : Event → Prop).
Hypothesis P_python : ∀ ev, python_event ev → P ev.

Lemma emits_quiet {A : Type} (m : M A) :
  (∀ s, trace (exec m s) = trace s) → emits P m.
Proof using Type.
  intros Hq s. exists []. by rewrite Hq, app_nil_r.
Qed.

Lemma emits_ret {A : Type} (a : A) : emits P (ret a).
Proof using Type. by apply emits_quiet. Qed.

Lemma emits_bind {A B : Type} (m : M A) (k : A → M B) :
  emits P m → (∀ a, emits P (k a)) → emits P (bind m k).
Proof using Type.
  intros Hm Hk s. destruct (Hm s) as (n1 & E1 & F1).
  destruct (Hk (eval m s) (exec m s)) as (n2 & E2 & F2).
  exists (n1 ++ n2). rewrite exec_bind, E2, E1, app_assoc.
  split; [done|]. by apply Forall_app.
Qed.

Lemma emits_log ev : P ev → emits P (modify (log ev)).
Proof using Type. intros Hev s. exists [ev]. split; [done|]. by constructor. Qed.

Lemma emits_native {A : Type} e c (a : A) :
  P (Native e c) → emits P (native e c a).
Proof using Type. intros Hev s. exists [Native e c]. split; [done|]. by constructor. Qed.

Lemma emits_Py_INCREF l : emits P (Py_INCREF l).
Proof using Type. apply emits_quiet. intros s. apply trace_Py_INCREF. Qed.

Lemma trace_Py_DECREF l s : trace (exec (Py_DECREF l) s) = trace s.
Proof using Type.
  by destruct (outside_heap_fields _ _ (Py_DECREF_outside_heap l s))
    as (_ & _ & _ & _ & _ & _ & _ & _ & ->).
Qed.

Lemma trace_Py_XDECREF o s : trace (exec (Py_XDECREF o) s) = trace s.
Proof using Type. destruct o; [apply trace_Py_DECREF|done]. Qed.

Lemma emits_Py_DECREF l : emits P (Py_DECREF l).
Proof using Type. apply emits_quiet, trace_Py_DECREF. Qed.

Lemma emits_Py_XDECREF o : emits P (Py_XDECREF o).
Proof using Type. apply emits_quiet, trace_Py_XDECREF. Qed.

Lemma emits_PyErr_SetString exc msg : emits P (PyErr_SetString exc msg).
Proof using Type. by apply emits_quiet. Qed.

Lemma emits_new_object b : emits P (new_object b).
Proof using Type. by apply emits_quiet. Qed.

Lemma emits_Py_RETURN_NONE : emits P Py_RETURN_NONE.
Proof using Type.
  apply emits_bind; [apply emits_Py_INCREF|]. intros _. apply emits_ret.
Qed.

Lemma emits_PyBool_FromLong v : emits P (PyBool_FromLong v).
Proof using Type.
  apply emits_bind; [apply emits_Py_INCREF|]. intros _. apply emits_ret.
Qed.

Lemma emits_PyList_SetItem l i v : emits P (PyList_SetItem l i v).
Proof using Type.
  apply emits_quiet. intros s. unfold exec, PyList_SetItem.
  destruct (heap s !! l) as [[n []]|]; try done;
    try (cbn [snd]; fold (exec (Py_DECREF v ;;; PyErr_SetString PyExc_SystemError
           "bad argument to internal function") s);
         rewrite exec_bind, exec_PyErr_SetString; cbn;
         apply trace_Py_DECREF).
  destruct (items !! i) as [old|]; cbn [snd].
  - match goal with |- trace (Py_XDECREF ?o ?x).2 = _ =>
      apply (trace_Py_XDECREF o x) end.
  - fold (exec (Py_DECREF v ;;; PyErr_SetString PyExc_IndexError
           "list assignment index out of range") s).
    rewrite exec_bind, exec_PyErr_SetString. cbn. apply trace_Py_DECREF.
Qed.

Lemma emits_PyDict_SetItemString d k v : emits P (PyDict_SetItemString d k v).
Proof using Type.
  apply emits_quiet. intros s. unfold exec, PyDict_SetItemString.
  destruct (heap s !! d) as [[n []]|]; try done. cbn [snd].
  match goal with |- trace (Py_XDECREF ?o ?x).2 = _ =>
    etrans; [apply (trace_Py_XDECREF o x)|] end.
  cbn. apply trace_Py_INCREF.
Qed.

Lemma emits_PyImport_ImportModule name : emits P (PyImport_ImportModule name).
Proof using P_python.
  apply emits_bind; [by apply emits_log, P_python|]. intros _.
  apply emits_quiet. intros s. unfold exec.
  destruct (sys_modules s !! name); [apply trace_Py_INCREF|done].
Qed.

Lemma emits_PyObject_GetAttr o name : emits P (PyObject_GetAttr o name).
Proof using P_python.
  intros s. unfold exec, PyObject_GetAttr.
  destruct (name ≫= _) as [[n []]|]; try (exists []; by rewrite app_nil_r).
  lazymatch goal with
  | |- context [GetAttr o ?a] => rename a into attr; exists [GetAttr o attr]
  end.
  split; [|by constructor; [apply P_python|]].
  destruct (heap (log (GetAttr o attr) s) !! o) as [[n' []]|]; try done.
  destruct (attrs !! attr); [|done].
  cbn [snd]. match goal with |- trace (Py_INCREF ?l ?x).2 = _ =>
    apply (trace_Py_INCREF l x) end.
Qed.

Lemma emits_PyObject_CallFunction c args : emits P (PyObject_CallFunction c args).
Proof using P_python.
  intros s. exists [Call c args].
  split; [apply trace_PyObject_CallFunction|].
  constructor; [by apply P_python|done].
Qed.

Lemma emits_initialize_static_variables : emits P initialize_static_variables.
Proof using P_python.
  unfold initialize_static_variables.
  apply emits_bind; [apply emits_PyImport_ImportModule|]. intros m.
  apply emits_bind; [by apply emits_quiet|]. intros _.
  destruct m as [module|].
  2: { apply emits_bind; [apply emits_PyErr_SetString|]. intros _.
       apply emits_ret. }
  apply emits_bind; [apply emits_new_object|]. intros name.
  apply emits_bind; [apply emits_PyObject_GetAttr|]. intros u.
  apply emits_bind; [by apply emits_quiet|]. intros _.
  destruct u as [util|].
  2: { apply emits_bind; [apply emits_Py_DECREF|]. intros _.
       apply emits_bind; [apply emits_PyErr_SetString|]. intros _.
       apply emits_ret. }
  apply emits_bind; [apply emits_new_object|]. intros name'.
  apply emits_bind; [apply emits_PyObject_GetAttr|]. intros c.
  apply emits_bind; [by apply emits_quiet|]. intros _.
  destruct c as [f|]; [apply emits_ret|].
  apply emits_bind; [apply emits_Py_DECREF|]. intros _.
  apply emits_bind; [apply emits_Py_DECREF|]. intros _.
  apply emits_bind; [apply emits_PyErr_SetString|]. intros _.
  apply emits_ret.
Qed.

(** An accessor call followed by the construction of the value. *)
Lemma emits_read {A : Type} e c (a : option A) msg (k : A → M (option loc)) :
  P (Native e c) → (∀ v, emits P (k v)) →
  emits P (r <-- native e c a ;;
           match r with
           | None => PyErr_SetString PyExc_Exception msg ;;; ret NULL
           | Some v => k v
           end).
Proof using Type.
  intros Hc Hk. apply emits_bind; [by apply emits_native|]. intros [v|].
  - apply Hk.
  - apply emits_bind; [apply emits_PyErr_SetString|]. intros _.
    apply emits_ret.
Qed.

Lemma emits_getScalarValue_datetime e i :
  (∀ c, c ≠ N_SchemaTypeDefinition_isComplexType → P (Native e c)) →
  emits P (getScalarValue_datetime e i).
Proof using P_python.
  intros He. unfold getScalarValue_datetime.
  apply emits_bind; [by apply emits_quiet|]. intros cached.
  apply emits_bind.
  { destruct cached; [apply emits_ret|].
    apply emits_initialize_static_variables. }
  intros [|]; [|apply emits_ret].
  apply emits_read; [by apply He|]. intros v.
  destruct (parts (datetime v) =? 0)%Z; [apply emits_Py_RETURN_NONE|].
  apply emits_bind; [by apply emits_quiet|]. intros [f|].
  - apply emits_PyObject_CallFunction.
  - apply emits_ret.
Qed.

Lemma emits_getScalarValue e i :
  (∀ c, c ≠ N_SchemaTypeDefinition_isComplexType → P (Native e c)) →
  emits P (getScalarValue e i).
Proof using P_python.
  intros He. unfold getScalarValue.
  apply emits_bind; [by apply emits_native, He|]. intros datatype.
  destruct datatype;
    try (apply emits_read;
         [by apply He
         |intros v; first [apply emits_PyBool_FromLong|apply emits_new_object]]);
    try apply emits_getScalarValue_datetime; try done;
    (apply emits_bind; [apply emits_PyErr_SetString|]; intros _;
     apply emits_ret).
Qed.

Lemma emits_ERROR_label a b msg :
  emits P (Py_XDECREF a ;;;
           Py_XDECREF b ;;;
           e <-- PyErr_Occurred ;;
           match e with
           | None => PyErr_SetString PyExc_Exception msg
           | Some _ => ret tt
           end ;;;
           ret (@NULL loc)).
Proof using Type.
  apply emits_bind; [apply emits_Py_XDECREF|]. intros _.
  apply emits_bind; [apply emits_Py_XDECREF|]. intros _.
  apply emits_bind; [by apply emits_quiet|]. intros e.
  apply emits_bind; [|intros _; apply emits_ret].
  destruct e; [apply emits_ret|apply emits_PyErr_SetString].
Qed.

Lemma emits_scalar_loop e l remaining i pv :
  (∀ c, c ≠ N_SchemaTypeDefinition_isComplexType → P (Native e c)) →
  emits P (arrayElementToPy_scalar_loop e l remaining i pv).
Proof using P_python.
  intros He. revert i pv.
  induction remaining as [|remaining IH]; intros i pv; cbn.
  { apply emits_ret. }
  apply emits_bind; [by apply emits_getScalarValue|]. intros [v|].
  - apply emits_bind; [apply emits_PyList_SetItem|]. intros _. apply IH.
  - apply emits_ERROR_label.
Qed.

Lemma emits_complex_loop toPy e l remaining i pv :
  (∀ c, c ≠ N_SchemaTypeDefinition_isComplexType → P (Native e c)) →
  (∀ j sub, el_getValueAsElement e j = Some sub → emits P (toPy sub)) →
  emits P (arrayElementToPy_complex_loop toPy e l remaining i pv).
Proof using Type.
  intros He Hsub. revert i pv.
  induction remaining as [|remaining IH]; intros i pv; cbn.
  { apply emits_ret. }
  unfold blpapi_Element_getValueAsElement.
  intros s. rewrite exec_bind, eval_native, exec_native.
  destruct (el_getValueAsElement e i) as [sub|] eqn:Es.
  - assert (Hk : emits P (converted <-- toPy sub ;;
                          match converted with
                          | Some v =>
                              PyList_SetItem l i v ;;;
                              arrayElementToPy_complex_loop toPy e l remaining
                                (S i) (Some v)
                          | None => arrayElementToPy_ERROR (Some l) NULL
                          end)).
    { apply emits_bind; [by eapply Hsub|]. intros [v|].
      - apply emits_bind; [apply emits_PyList_SetItem|]. intros _. apply IH.
      - apply emits_ERROR_label. }
    destruct (Hk (log (Native e (N_getValueAsElement i)) s)) as (new & E & F).
    exists (Native e (N_getValueAsElement i) :: new).
    rewrite E. cbn. rewrite <- app_assoc. split; [done|].
    constructor; [by apply He|done].
  - assert (Hk : emits P (PyErr_SetString PyExc_Exception
                            "Internal error in blpapi_Element_getValueAsElement" ;;;
                          arrayElementToPy_ERROR (Some l) pv)).
    { apply emits_bind; [apply emits_PyErr_SetString|]. intros _.
      apply emits_ERROR_label. }
    destruct (Hk (log (Native e (N_getValueAsElement i)) s)) as (new & E & F).
    exists (Native e (N_getValueAsElement i) :: new).
    rewrite E. cbn. rewrite <- app_assoc. split; [done|].
    constructor; [by apply He|done].
Qed.

Lemma emits_arrayElementToPy toPy e :
  (∀ c, P (Native e c)) →
  (∀ j sub, el_getValueAsElement e j = Some sub → emits P (toPy sub)) →
  emits P (arrayElementToPy toPy e).
Proof using P_python.
  intros He Hsub. unfold arrayElementToPy.
  apply emits_bind; [by apply emits_native|]. intros n.
  apply emits_bind; [apply emits_new_object|]. intros pyList.
  apply emits_bind; [by apply emits_native|]. intros d.
  apply emits_bind; [by apply emits_native|]. intros t.
  destruct pyList as [l|]; [|apply emits_ERROR_label].
  apply emits_bind; [by apply emits_native|]. intros [|].
  - apply emits_complex_loop; [by intros; apply He|done].
  - apply emits_scalar_loop. by intros; apply He.
Qed.

Lemma emits_complexElementToPy_loop toPy e d remaining i pv :
  (∀ c, P (Native e c)) →
  (∀ j sub, el_getElementAt e j = Some sub →
            (∀ c, P (Native sub c)) ∧ emits P (toPy sub)) →
  emits P (complexElementToPy_loop toPy e d remaining i pv).
Proof using Type.
  intros He Hsub. revert i pv.
  induction remaining as [|remaining IH]; intros i pv; cbn.
  { apply emits_bind; [by apply emits_native|]. intros _. apply emits_ret. }
  apply emits_bind; [by apply emits_native|]. intros _.
  unfold blpapi_Element_getElementAt.
  intros s. rewrite exec_bind, eval_native, exec_native.
  destruct (el_getElementAt e i) as [sub|] eqn:Es.
  - destruct (Hsub _ _ Es) as [Hn Ht].
    assert (Hk : emits P (name <-- blpapi_Element_nameString sub ;;
                          converted <-- toPy sub ;;
                          match converted with
                          | None => complexElementToPy_ERROR (Some d) NULL
                          | Some v =>
                              status <-- PyDict_SetItemString d name v ;;
                              if (status =? 0)%Z then
                                Py_DECREF v ;;;
                                complexElementToPy_loop toPy e d remaining
                                  (S i) (Some v)
                              else complexElementToPy_ERROR (Some d) (Some v)
                          end)).
    { apply emits_bind; [by apply emits_native|]. intros name.
      apply emits_bind; [done|]. intros [v|]; [|apply emits_ERROR_label].
      apply emits_bind; [apply emits_PyDict_SetItemString|]. intros status.
      destruct (status =? 0)%Z; [|apply emits_ERROR_label].
      apply emits_bind; [apply emits_Py_DECREF|]. intros _. apply IH. }
    destruct (Hk (log (Native e (N_getElementAt i)) s)) as (new & E & F).
    exists (Native e (N_getElementAt i) :: new).
    rewrite E. cbn. rewrite <- app_assoc. split; [done|].
    constructor; [by apply He|done].
  - assert (Hk : emits P (PyErr_SetString PyExc_Exception
                            "Internal error in `Element.toPy`" ;;;
                          complexElementToPy_ERROR (Some d) pv)).
    { apply emits_bind; [apply emits_PyErr_SetString|]. intros _.
      apply emits_ERROR_label. }
    destruct (Hk (log (Native e (N_getElementAt i)) s)) as (new & E & F).
    exists (Native e (N_getElementAt i) :: new).
    rewrite E. cbn. rewrite <- app_assoc. split; [done|].
    constructor; [by apply He|done].
Qed.

Lemma emits_complexElementToPy toPy e :
  (∀ c, P (Native e c)) →
  (∀ j sub, el_getElementAt e j = Some sub →
            (∀ c, P (Native sub c)) ∧ emits P (toPy sub)) →
  emits P (complexElementToPy toPy e).
Proof using Type.
  intros He Hsub. unfold complexElementToPy.
  apply emits_bind; [apply emits_new_object|]. intros [d|].
  - by apply emits_complexElementToPy_loop.
  - apply emits_ERROR_label.
Qed.

(** A conversion only makes native calls on the element and on what
    occurs below it. *)
Lemma emits_blpapi_Element_toPy e :
  (∀ y c, within e y → P (Native y c)) →
  emits P (blpapi_Element_toPy e).
Proof using P_python.
  induction e as [e IHv IHs] using blpapi_Element_induction.
  intros He. rewrite blpapi_Element_toPy_unfold.
  assert (Hself : ∀ c, P (Native e c)) by (intros; apply He; constructor).
  apply emits_bind; [by apply emits_native|]. intros [|].
  { apply emits_complexElementToPy; [done|]. intros j sub Hs.
    assert (Hc : child sub e) by (exists j; by right).
    split.
    - intros c. apply He. eapply within_child; [done|constructor].
    - apply (IHs j sub Hs). intros y c Hy. apply He.
      by eapply within_child. }
  apply emits_bind; [by apply emits_native|]. intros [|].
  { apply emits_arrayElementToPy; [done|]. intros j sub Hs.
    assert (Hc : child sub e) by (exists j; by left).
    apply (IHv j sub Hs). intros y c Hy. apply He.
    by eapply within_child. }
  apply emits_bind; [by apply emits_native|]. intros [|].
  - apply emits_Py_RETURN_NONE.
  - apply emits_getScalarValue. intros; apply Hself.
Qed.
End emitting.

(** ** Arrays *)

Lemma within_not_parent e sub y c c' :
  child sub e → within sub y → Native y c ≠ Native e c'.
Proof.
  intros Hc Hw [= -> _]. by apply (within_acyclic e sub).
Qed.

Lemma python_event_not_native ev e c : python_event ev → ev ≠ Native e c.
Proof. by destruct ev. Qed.

(** C6: an array element converts to a list of as many entries as the
    array has values; entry [i] is the value of the full recursive
    conversion of the sub-element at index [i] when the schema type
    definition of the array is complex, and of the scalar conversion at
    index [i] otherwise, so the order is the native one; if some item has
    no value the conversion fails.  The schema type definition is asked
    once whether it is complex: after the six calls that open the
    conversion no event reads it again. *)
Theorem array_conversion base element st :
  well_formed base st →
  el_isComplexType element = false → el_isArray element = true →
  let helper := helper_of st in
  let n := el_numValues element in
  let complex := st_isComplexType (sd_type (el_definition element)) in
  let item i :=
    if complex then
      match el_getValueAsElement element i with
      | Some sub => toPy_value helper sub
      | None => None
      end
    else scalar_value helper element i in
  let r := eval (blpapi_Element_toPy element) st in
  let st' := exec (blpapi_Element_toPy element) st in
  ((∀ i, i < n → is_Some (item i)) →
   ∃ l vals, r = Some l ∧ converted base st st' l (V_List vals)
             ∧ length vals = n ∧ ∀ i, i < n → vals !! i = item i)
  ∧ ((∃ i, i < n ∧ item i = None) → r = NULL ∧ is_Some (err st'))
  ∧ (∀ i v, item i = Some v →
       if complex then
         ∃ sub l, el_getValueAsElement element i = Some sub
                  ∧ eval (blpapi_Element_toPy sub) st = Some l
                  ∧ converted base st (exec (blpapi_Element_toPy sub) st) l v
       else
         ∃ l, eval (getScalarValue element i) st = Some l
              ∧ converted base st (exec (getScalarValue element i) st) l v)
  ∧ ∃ rest,
      trace st'
      = trace st
        ++ [Native element N_isComplexType; Native element N_isArray;
            Native element N_numValues; Native element N_definition;
            Native element N_SchemaElementDefinition_type;
            schema_read element]
        ++ rest
      ∧ Forall (fun ev => ev ≠ schema_read element) rest.
Proof.
  intros Hwf Hc Ha. cbv zeta.
  pose proof (blpapi_Element_toPy_refines base element st Hwf) as Href.
  rewrite toPy_value_unfold, Hc, Ha in Href. unfold array_item in Href.
  set (item := fun i =>
         if st_isComplexType (sd_type (el_definition element)) then
           match el_getValueAsElement element i with
           | Some sub => toPy_value (helper_of st) sub
           | None => None
           end
         else scalar_value (helper_of st) element i) in *.
  split_and!.
  - intros Hall.
    destruct (array_values item (el_numValues element) 0) as [vals|] eqn:Ev.
    + destruct Href as (l & Hl & Hconv). exists l, vals.
      destruct (array_values_Some _ _ _ _ Ev) as [Hlen Hat].
      split_and!; [done..|]. intros i Hi. by rewrite Hat.
    + apply array_values_None in Ev as (j & Hj & Hn).
      destruct (Hall j Hj) as [v Hv]. cbn in Hn. congruence.
  - intros (i & Hi & Hn).
    assert (Ev : array_values item (el_numValues element) 0 = None).
    { apply array_values_None. by exists i. }
    by rewrite Ev in Href.
  - intros i v Hv. unfold item in Hv.
    destruct (st_isComplexType (sd_type (el_definition element))).
    + destruct (el_getValueAsElement element i) as [sub|] eqn:Es; [|done].
      pose proof (blpapi_Element_toPy_refines base sub st Hwf) as Hsub.
      rewrite Hv in Hsub. destruct Hsub as (l & Hl & Hconv). by exists sub, l.
    + pose proof (getScalarValue_converted base st element i Hwf) as Hs.
      cbv zeta in Hs. by rewrite Hv in Hs.
  - clear Href item. unfold exec at 1.
    rewrite blpapi_Element_toPy_run, Hc, Ha, arrayElementToPy_run.
    set (P := fun ev => ev ≠ schema_read element).
    assert (HP : ∀ ev, python_event ev → P ev)
      by (intros ev Hev; by apply python_event_not_native).
    assert (He : ∀ c, c ≠ N_SchemaTypeDefinition_isComplexType →
                      P (Native element c))
      by (intros c Hne [= ?]; done).
    match goal with |- context [(?loop ?s0).2] =>
      assert (Hloop : emits P loop); [|destruct (Hloop s0) as (rest & E & F)]
    end.
    { destruct (st_isComplexType (sd_type (el_definition element))).
      - apply emits_complex_loop; [done|]. intros j sub Hs.
        apply emits_blpapi_Element_toPy; [done|]. intros y c Hy.
        apply (within_not_parent element sub); [|done]. exists j. by left.
      - by apply emits_scalar_loop. }
    exists rest. split; [|done]. etrans; [exact E|]. cbn.
    by rewrite <- !app_assoc.
Qed.

(** ** Records *)

Lemma fetched_before e i j pre evs :
  Forall (fun ev => ∀ k, ev ≠ Native e (N_getElementAt k)) pre →
  fetched_in_order e i j evs → fetched_in_order e i j (pre ++ evs).
Proof.
  induction 1 as [|ev pre Hev _ IH]; intros Hf; [done|].
  cbn. apply fetched_other; [done|]. by apply IH.
Qed.

Lemma fetched_after e i j evs post :
  fetched_in_order e i j evs →
  Forall (fun ev => ∀ k, ev ≠ Native e (N_getElementAt k)) post →
  fetched_in_order e i j (evs ++ post).
Proof.
  intros Hf Hpost. induction Hf as [i|i j ev evs Hev _ IH|i j evs _ IH]; cbn.
  - rewrite <- (app_nil_r post). apply fetched_before; [done|constructor].
  - by apply fetched_other.
  - by apply fetched_next.
Qed.

Lemma complexElementToPy_loop_fetches e (d : loc) remaining i pv s :
  let m := complexElementToPy_loop blpapi_Element_toPy e d remaining i pv in
  ∃ new j,
    trace (exec m s) = trace s ++ new
    ∧ fetched_in_order e i j new
    ∧ j ≤ i + remaining
    ∧ (is_Some (eval m s) → j = i + remaining).
Proof.
  cbv zeta. set (P := fun ev => ∀ k, ev ≠ Native e (N_getElementAt k)).
  assert (HP : ∀ ev, python_event ev → P ev).
  { intros ev Hev k. by apply python_event_not_native. }
  assert (Hself : ∀ c, (∀ k, c ≠ N_getElementAt k) → P (Native e c)).
  { intros c Hc k [= ?]. by apply (Hc k). }
  revert i pv s. induction remaining as [|remaining IH]; intros i pv s.
  { exists [Native e N_numElements], i. split_and!; [done| |lia|intros; lia].
    apply fetched_other; [by apply Hself|constructor]. }
  unfold eval, exec. rewrite complexElementToPy_loop_run.
  destruct (el_getElementAt e i) as [sub|] eqn:Es.
  2: { assert (Hk : emits P (PyErr_SetString PyExc_Exception
                               "Internal error in `Element.toPy`" ;;;
                             complexElementToPy_ERROR (Some d) pv)).
       { apply emits_bind; [apply emits_PyErr_SetString|]. intros _.
         apply emits_ERROR_label. }
       match goal with |- context [(?m ?s0).2] =>
         destruct (Hk s0) as (n1 & E1 & F1);
         exists ([Native e N_numElements; Native e (N_getElementAt i)] ++ n1),
                (S i)
       end.
       split_and!.
       - etrans; [exact E1|]. cbn. by rewrite <- !app_assoc.
       - cbn. apply fetched_other; [by apply Hself|]. apply fetched_next.
         rewrite <- (app_nil_r n1). apply fetched_before; [done|constructor].
       - lia.
       - rewrite run_bind.
         match goal with |- context [complexElementToPy_ERROR ?a ?b ?x] =>
           destruct (complexElementToPy_ERROR_fails a b x) as (E & _) end.
         unfold eval in E. rewrite E. by intros [? [=]]. }
  assert (Hsub : emits P (blpapi_Element_toPy sub)).
  { apply emits_blpapi_Element_toPy; [done|]. intros y c Hy k.
    apply (within_not_parent e sub); [|done]. exists i. by right. }
  set (s3 := log (Native sub N_nameString)
               (log (Native e (N_getElementAt i))
                  (log (Native e N_numElements) s))).
  assert (Hs3 : trace s3
                = trace s ++ [Native e N_numElements; Native e (N_getElementAt i);
                              Native sub N_nameString]).
  { cbn. by rewrite <- !app_assoc. }
  assert (Hname : P (Native sub N_nameString)).
  { intros k. apply (within_not_parent e sub); [|constructor].
    exists i. by right. }
  clearbody s3. rewrite run_bind.
  destruct (Hsub s3) as (n1 & E1 & F1). revert E1.
  generalize (exec (blpapi_Element_toPy sub) s3) as s4. intros s4 E1.
  assert (Hfail : ∀ b,
            ∃ new j,
              trace (complexElementToPy_ERROR (Some d) b s4).2 = trace s ++ new
              ∧ fetched_in_order e i j new ∧ j ≤ i + S remaining
              ∧ (is_Some (complexElementToPy_ERROR (Some d) b s4).1 →
                 j = i + S remaining)).
  { intros b.
    destruct (emits_ERROR_label P (Some d) b
                "Internal error converting a complex Element" s4)
      as (n2 & E2 & F2).
    exists ([Native e N_numElements; Native e (N_getElementAt i)]
            ++ (Native sub N_nameString :: n1) ++ n2), (S i).
    split_and!.
    - etrans; [exact E2|]. rewrite E1, Hs3. cbn. by rewrite <- !app_assoc.
    - cbn. apply fetched_other; [by apply Hself|]. apply fetched_next.
      apply fetched_other; [done|].
      rewrite <- (app_nil_r (n1 ++ n2)).
      apply fetched_before; [by apply Forall_app|constructor].
    - lia.
    - destruct (complexElementToPy_ERROR_fails (Some d) b s4) as (E & _).
      unfold eval in E. rewrite E. by intros [? [=]]. }
  destruct (eval (blpapi_Element_toPy sub) s3) as [v|]; [|apply Hfail].
  rewrite run_bind.
  destruct (emits_PyDict_SetItemString P d (el_nameString sub) v s4)
    as (n2 & E2 & F2).
  revert E2.
  generalize (exec (PyDict_SetItemString d (el_nameString sub) v) s4) as s5.
  intros s5 E2.
  destruct (eval (PyDict_SetItemString d (el_nameString sub) v) s4 =? 0)%Z.
  2: { destruct (emits_ERROR_label P (Some d) (Some v)
                   "Internal error converting a complex Element" s5)
         as (n3 & E3 & F3).
       exists ([Native e N_numElements; Native e (N_getElementAt i)]
               ++ (Native sub N_nameString :: n1 ++ n2) ++ n3), (S i).
       split_and!.
       - etrans; [exact E3|]. rewrite E2, E1, Hs3. cbn.
         by rewrite <- !app_assoc.
       - cbn. apply fetched_other; [by apply Hself|]. apply fetched_next.
         apply fetched_other; [done|].
         rewrite <- (app_nil_r ((n1 ++ n2) ++ n3)).
         apply fetched_before; [|constructor].
         apply Forall_app. split; [by apply Forall_app|done].
       - lia.
       - destruct (complexElementToPy_ERROR_fails (Some d) (Some v) s5)
           as (E & _).
         unfold eval in E. rewrite E. by intros [? [=]]. }
  rewrite run_bind.
  pose proof (trace_Py_DECREF v s5) as E3. revert E3.
  generalize (exec (Py_DECREF v) s5) as s6. intros s6 E3.
  destruct (IH (S i) (Some v) s6) as (new & j & E & Hf & Hj & Hdone).
  exists ([Native e N_numElements; Native e (N_getElementAt i)]
          ++ (Native sub N_nameString :: n1 ++ n2) ++ new), j.
  split_and!.
  - etrans; [exact E|]. rewrite E3, E2, E1, Hs3. cbn.
    by rewrite <- !app_assoc.
  - cbn. apply fetched_other; [by apply Hself|]. apply fetched_next.
    apply fetched_other; [done|].
    apply fetched_before; [by apply Forall_app|done].
  - lia.
  - intros Hs. rewrite Hdone by done. lia.
Qed.

Lemma complexElementToPy_run toPy element s :
  complexElementToPy toPy element s
  = complexElementToPy_loop toPy element (next_loc s) (el_numElements element)
      0 NULL (exec (new_object (PyDict ∅)) s).
Proof. reflexivity. Qed.

(** C7: a record element converts to a mapping.  The sub-elements are
    fetched at the indices 0, 1, ... in this order, each once; each is
    stored under the name the sub-element itself reports, with the value of
    its own conversion; a name no sub-element reports has no entry, and of
    several sub-elements with one name the last one gives the entry.  If a
    sub-element cannot be fetched or converted the conversion fails. *)
Theorem record_conversion base element st :
  well_formed base st →
  el_isComplexType element = true →
  let helper := helper_of st in
  let n := el_numElements element in
  let r := eval (blpapi_Element_toPy element) st in
  let st' := exec (blpapi_Element_toPy element) st in
  ((∀ i, i < n → ∃ sub, el_getElementAt element i = Some sub
                        ∧ is_Some (toPy_value helper sub)) →
   ∃ l m,
     r = Some l ∧ converted base st st' l (V_Dict m)
     ∧ (∀ k, (∀ i sub, i < n → el_getElementAt element i = Some sub →
                       el_nameString sub ≠ k) →
             m !! k = None)
     ∧ (∀ i sub, i < n → el_getElementAt element i = Some sub →
                 (∀ j sub', i < j < n → el_getElementAt element j = Some sub' →
                            el_nameString sub' ≠ el_nameString sub) →
                 m !! el_nameString sub = toPy_value helper sub))
  ∧ ((∃ i, i < n ∧ match el_getElementAt element i with
                   | Some sub => toPy_value helper sub = None
                   | None => True
                   end) →
     r = NULL ∧ is_Some (err st'))
  ∧ (∀ i sub v, el_getElementAt element i = Some sub →
                toPy_value helper sub = Some v →
                ∃ l, eval (blpapi_Element_toPy sub) st = Some l
                     ∧ converted base st (exec (blpapi_Element_toPy sub) st) l v)
  ∧ ∃ rest j,
      trace st' = trace st ++ Native element N_isComplexType :: rest
      ∧ fetched_in_order element 0 j rest
      ∧ j ≤ n ∧ (is_Some r → j = n).
Proof.
  intros Hwf Hc. cbv zeta.
  pose proof (blpapi_Element_toPy_refines base element st Hwf) as Href.
  rewrite toPy_value_unfold, Hc in Href.
  split_and!.
  - intros Hall.
    destruct (record_value (toPy_value (helper_of st)) element
                (el_numElements element) 0 ∅) as [m|] eqn:Em.
    + destruct Href as (l & Hl & Hconv). exists l, m.
      destruct (record_value_Some _ _ _ _ _ _ Em) as [_ Hkeys].
      split_and!; [done..| |].
      * intros k Hk. destruct (Hkeys k) as [Hnone _]. rewrite Hnone; [done|].
        intros j sub Hj. apply Hk. lia.
      * intros i sub Hi Hsub Hlater.
        destruct (Hkeys (el_nameString sub)) as [_ Hlast].
        apply (Hlast i sub); [lia|done|done|].
        intros j sub' Hj. apply Hlater. lia.
    + apply record_value_None in Em as (j & Hj & Hn).
      destruct (Hall j) as (sub & Hsub & [v Hv]); [lia|].
      rewrite Hsub in Hn. congruence.
  - intros (i & Hi & Hn).
    assert (Em : record_value (toPy_value (helper_of st)) element
                   (el_numElements element) 0 ∅ = None).
    { apply record_value_None. exists i. split; [lia|done]. }
    by rewrite Em in Href.
  - intros i sub v Hsub Hv.
    pose proof (blpapi_Element_toPy_refines base sub st Hwf) as Hs.
    by rewrite Hv in Hs.
  - clear Href. unfold eval, exec.
    rewrite blpapi_Element_toPy_run, Hc.
    rewrite complexElementToPy_run.
    match goal with |- context [(?loop ?s0).2] =>
      destruct (complexElementToPy_loop_fetches element
                  (next_loc (log (Native element N_isComplexType) st))
                  (el_numElements element) 0 NULL s0)
        as (rest & j & E & Hf & Hj & Hdone)
    end.
    exists rest, j. split_and!; [|done|lia|].
    + etrans; [exact E|]. cbn. by rewrite <- app_assoc.
    + intros Hs. by rewrite Hdone.
Qed.

(** ** The dispatcher *)

(** C2: the dispatcher asks whether the element is complex, then whether it
    is an array, then whether it is null, and routes to the record
    converter, the array converter, [None], or the scalar converter at
    index 0, in this order.  A null element that is neither complex nor an
    array converts to [None] after these three questions and no other
    native call.  Whether or not it is null, an array without values
    converts to a new empty list and a record without sub-elements to a new
    empty dictionary, never to [None]. *)
Theorem blpapi_Element_toPy_dispatch element st :
  let r := eval (blpapi_Element_toPy element) st in
  let st' := exec (blpapi_Element_toPy element) st in
  let s1 := log (Native element N_isComplexType) st in
  let s2 := log (Native element N_isArray) s1 in
  let s3 := log (Native element N_isNull) s2 in
  blpapi_Element_toPy element st
  = (if el_isComplexType element then
       complexElementToPy blpapi_Element_toPy element s1
     else if el_isArray element then
       arrayElementToPy blpapi_Element_toPy element s2
     else if el_isNull element then Py_RETURN_NONE s3
     else getScalarValue element 0 s3)
  ∧ (el_isComplexType element = false → el_isArray element = false →
     el_isNull element = true →
     r = Some Py_None
     ∧ trace st'
       = trace st ++ [Native element N_isComplexType; Native element N_isArray;
                      Native element N_isNull]
     ∧ st' = exec (Py_INCREF Py_None) s3)
  ∧ (el_isComplexType element = false → el_isArray element = true →
     el_numValues element = 0 →
     r = Some (next_loc st)
     ∧ heap st' = <[next_loc st := {| ob_refcnt := 1; ob_body := PyList [] |}]>
                    (heap st)
     ∧ err st' = err st
     ∧ ∀ base, well_formed base st →
               converted base st st' (next_loc st) (V_List [])
               ∧ next_loc st ≠ Py_None)
  ∧ (el_isComplexType element = true → el_numElements element = 0 →
     r = Some (next_loc st)
     ∧ heap st' = <[next_loc st := {| ob_refcnt := 1; ob_body := PyDict ∅ |}]>
                    (heap st)
     ∧ err st' = err st
     ∧ ∀ base, well_formed base st →
               converted base st st' (next_loc st) (V_Dict ∅)
               ∧ next_loc st ≠ Py_None).
Proof.
  cbv zeta. split_and!.
  - apply blpapi_Element_toPy_run.
  - intros Hc Ha Hn. unfold eval, exec.
    rewrite blpapi_Element_toPy_run, Hc, Ha, Hn.
    split_and!; [done| |done].
    etrans; [apply (trace_Py_INCREF Py_None)|]. cbn. by rewrite <- !app_assoc.
  - intros Hc Ha Hn. split_and!.
    1-3: unfold eval, exec;
         rewrite blpapi_Element_toPy_run, Hc, Ha, arrayElementToPy_run, Hn;
         by destruct (st_isComplexType (sd_type (el_definition element))).
    intros base Hwf.
    pose proof (blpapi_Element_toPy_refines base element st Hwf) as Href.
    rewrite toPy_value_unfold, Hc, Ha, Hn in Href. cbn in Href.
    destruct Href as (l & Hl & Hconv).
    assert (l = next_loc st) as ->.
    { revert Hl. unfold eval.
      rewrite blpapi_Element_toPy_run, Hc, Ha, arrayElementToPy_run, Hn.
      destruct (st_isComplexType (sd_type (el_definition element)));
        by intros [= <-]. }
    split; [done|]. pose proof (wf_base _ _ Hwf). unfold Py_None. lia.
  - intros Hc Hn. split_and!.
    1-3: unfold eval, exec;
         by rewrite blpapi_Element_toPy_run, Hc, complexElementToPy_run, Hn.
    intros base Hwf.
    pose proof (blpapi_Element_toPy_refines base element st Hwf) as Href.
    rewrite toPy_value_unfold, Hc, Hn in Href. cbn in Href.
    destruct Href as (l & Hl & Hconv).
    assert (l = next_loc st) as ->.
    { revert Hl. unfold eval.
      rewrite blpapi_Element_toPy_run, Hc, complexElementToPy_run, Hn.
      by intros [= <-]. }
    split; [done|]. pose proof (wf_base _ _ Hwf). unfold Py_None. lia.
Qed.

Lemma well_formed_check_sound base st :
  well_formed_check base st = true → well_formed base st.
Proof.
  unfold well_formed_check. rewrite !andb_true_iff, !bool_decide_eq_true.
  intros (((Hb & Hh) & Hm) & Hc). split.
  - done.
  - intros l [o Hl]. by destruct (Hh l o Hl).
  - intros x o Hx Hl. destruct (Hh x o Hl) as (_ & Hs & _).
    specialize (Hs Hx). destruct (ob_body o); try done; cbn in Hs.
    + apply bool_decide_eq_true in Hs. by rewrite decide_True.
    + apply andb_true_iff in Hs as [H1 H2].
      apply bool_decide_eq_true in H1, H2. rewrite decide_False by done.
      by rewrite H2.
  - intros name m Hn. by apply (Hm name m).
  - intros x o c Hx Hl Hin. destruct (Hh x o Hl) as (_ & _ & Hch).
    by apply (proj1 (Forall_forall _ _) (Hch Hx)).
  - intros c Hcc. rewrite Hcc in Hc. by apply bool_decide_eq_true in Hc.
Qed.

Lemma interpreter_well_formed : well_formed 6 interpreter.
Proof. apply well_formed_check_sound. by vm_compute. Qed.


(** ** The error path *)

(** *** Releasing a container and then a value it owned *)

Lemma Py_DECREF_rec_missing fuel l st :
  heap st !! l = None → Py_DECREF_rec fuel l st = add_fault l st.
Proof. intros Hl. destruct fuel; cbn; by rewrite Hl. Qed.

Lemma Py_DECREF_rec_dealloc fuel l st o :
  heap st !! l = Some o → ob_refcnt o = 1%Z →
  Py_DECREF_rec (S fuel) l st
  = foldl (fun s c => Py_DECREF_rec fuel c s) (set_heap (delete l) st)
      (children (ob_body o)).
Proof. intros Hl Hc. cbn. by rewrite Hl, Hc. Qed.

Lemma Py_DECREF_rec_sub_heap fuel l st :
  sub_heap (heap (Py_DECREF_rec fuel l st)) (heap st).
Proof.
  revert l st. induction fuel as [|fuel IH]; intros l st; cbn.
  - destruct (heap st !! l) as [o|] eqn:Ho; [|apply sub_heap_refl].
    case_match; [apply sub_heap_refl|]. by eapply sub_heap_insert.
  - destruct (heap st !! l) as [o|] eqn:Ho; [|apply sub_heap_refl].
    case_match; [|by eapply sub_heap_insert].
    eapply sub_heap_trans; [|apply (sub_heap_delete _ l)].
    change (delete l (heap st)) with (heap (set_heap (delete l) st)).
    generalize (set_heap (delete l) st). intros s.
    induction (children (ob_body o)) as [|c cs IHc] in s |- *; cbn;
      [apply sub_heap_refl|].
    eapply sub_heap_trans; [apply IHc|apply IH].
Qed.

Lemma sub_heap_None h' h x : sub_heap h' h → h !! x = None → h' !! x = None.
Proof.
  intros Hsub Hx. destruct (h' !! x) as [o'|] eqn:Ho'; [|done].
  destruct (Hsub _ _ Ho') as (o & Ho & _). congruence.
Qed.

Lemma heap_size_two (h : gmap loc PyObject) x y :
  x ≠ y → is_Some (h !! x) → is_Some (h !! y) → ∃ fuel, size h = S (S fuel).
Proof.
  intros Hne Hx Hy.
  pose proof (map_size_delete_Some x h Hx) as Hd.
  assert (Hy' : is_Some (delete x h !! y)) by by rewrite lookup_delete_ne.
  pose proof (map_size_ne_0_lookup_2 _ _ Hy') as Hnz.
  destruct (size h) as [|[|fuel]]; cbn in Hd; [lia|lia|by exists fuel].
Qed.

(** The value [v] is the only reference the container [c] holds, and the
    container holds the only reference to it: releasing the container
    frees both, and releasing [v] afterwards releases a freed object. *)
Lemma container_and_item_released s (c v : loc) oc ov :
  heap s !! c = Some oc → ob_refcnt oc = 1%Z → children (ob_body oc) = [v] →
  v ≠ c → heap s !! v = Some ov → ob_refcnt ov = 1%Z →
  let s1 := exec (Py_XDECREF (Some c)) s in
  heap s1 !! v = None
  ∧ exec (Py_XDECREF (Some v)) s1 = add_fault v s1.
Proof.
  intros Hc Hcc Hch Hne Hv Hvc. cbv zeta.
  assert (Hfreed : heap (exec (Py_XDECREF (Some c)) s) !! v = None).
  { unfold exec. cbn [Py_XDECREF Py_DECREF modify snd].
    destruct (heap_size_two (heap s) c v) as [fuel ->]; [done|eauto..].
    rewrite (Py_DECREF_rec_dealloc _ _ _ _ Hc Hcc), Hch. cbn [foldl].
    rewrite (Py_DECREF_rec_dealloc _ _ _ ov);
      [|by cbn; rewrite lookup_delete_ne|done].
    match goal with |- heap (foldl _ ?s0 ?cs) !! v = None =>
      assert (Hsub : sub_heap (heap (foldl (fun s c => Py_DECREF_rec fuel c s)
                                       s0 cs)) (heap s0));
        [|apply (sub_heap_None _ _ _ Hsub); cbn; by rewrite lookup_delete_eq]
    end.
    generalize (set_heap (delete v) (set_heap (delete c) s)). intros s0.
    induction (children (ob_body ov)) as [|x xs IH] in s0 |- *; cbn;
      [apply sub_heap_refl|].
    eapply sub_heap_trans; [apply IH|apply Py_DECREF_rec_sub_heap]. }
  split; [done|].
  unfold exec at 1. cbn [Py_XDECREF Py_DECREF modify snd].
  by apply Py_DECREF_rec_missing.
Qed.

(** The [ERROR:] label entered with [pyDict] (or [pyList]) and a stale
    pointer to the one value the container owns. *)
Lemma ERROR_label_stale (c v : loc) (msg : string) s oc ov e0 :
  heap s !! c = Some oc → ob_refcnt oc = 1%Z → children (ob_body oc) = [v] →
  v ≠ c → heap s !! v = Some ov → ob_refcnt ov = 1%Z →
  err s = Some e0 →
  let m :=
    (Py_XDECREF (Some c) ;;;
     Py_XDECREF (Some v) ;;;
     e <-- PyErr_Occurred ;;
     match e with
     | None => PyErr_SetString PyExc_Exception msg
     | Some _ => ret tt
     end ;;;
     ret (@NULL loc)) in
  eval m s = NULL
  ∧ err (exec m s) = Some e0
  ∧ heap (exec m s) !! v = None
  ∧ ∃ fs, faults (exec m s) = fs ++ [v].
Proof.
  intros Hc Hcc Hch Hne Hv Hvc He. cbv zeta.
  destruct (container_and_item_released s c v oc ov) as [Hfreed Hagain];
    try done.
  destruct (ERROR_label_fails (Some c) (Some v) msg s) as (E1 & _ & E3).
  cbv zeta in E1, E3. split; [exact E1|]. split; [rewrite E3; eauto|].
  autorewrite with run. rewrite Hagain.
  assert (Herr : err (add_fault v (exec (Py_XDECREF (Some c)) s)) = Some e0).
  { change (err (exec (Py_DECREF c) s) = Some e0).
    by destruct (outside_heap_fields _ _ (Py_DECREF_outside_heap c s))
      as (_ & -> & _). }
  rewrite Herr. autorewrite with run. split; [done|]. by eexists.
Qed.

Lemma repr_not_singleton h lo hi l v :
  repr h lo hi l v → v ≠ V_None → (∀ b, v ≠ V_Bool b) → lo ≤ l < hi.
Proof. intros Hr Hn Hb. inversion Hr; subst; try done. by destruct (Hb b). Qed.

Lemma omap_id_replicate_None {A : Type} n :
  omap id (replicate n (@None A)) = [].
Proof. induction n as [|n IH]; [done|]. by cbn. Qed.

Lemma arrayElementToPy_complex_loop_run toPy element (l : loc) remaining i pv s :
  arrayElementToPy_complex_loop toPy element l (S remaining) i pv s
  = match el_getValueAsElement element i with
    | None =>
        (PyErr_SetString PyExc_Exception
           "Internal error in blpapi_Element_getValueAsElement" ;;;
         arrayElementToPy_ERROR (Some l) pv)
          (log (Native element (N_getValueAsElement i)) s)
    | Some result =>
        (converted <-- toPy result ;;
         match converted with
         | None => arrayElementToPy_ERROR (Some l) NULL
         | Some v =>
             PyList_SetItem l i v ;;;
             arrayElementToPy_complex_loop toPy element l remaining (S i)
               (Some v)
         end)
          (log (Native element (N_getValueAsElement i)) s)
    end.
Proof.
  cbn [arrayElementToPy_complex_loop].
  unfold blpapi_Element_getValueAsElement.
  rewrite run_bind, eval_native, exec_native.
  by destruct (el_getValueAsElement element i).
Qed.

(** A record whose first sub-element converts to an object of its own and
    whose second sub-element cannot be fetched. *)
Lemma complexElementToPy_stale_release base st element sub val :
  well_formed base st →
  toPy_value (helper_of st) sub = Some val →
  val ≠ V_None → (∀ b, val ≠ V_Bool b) →
  el_isComplexType element = true → 2 ≤ el_numElements element →
  el_getElementAt element 0 = Some sub → el_getElementAt element 1 = None →
  let st' := exec (blpapi_Element_toPy element) st in
  eval (blpapi_Element_toPy element) st = NULL
  ∧ err st' = error "Internal error in `Element.toPy`"
  ∧ ∃ v fs, next_loc st < v ∧ heap st' !! v = None ∧ faults st' = fs ++ [v].
Proof.
  intros Hwf Hval Hnone Hbool Hc Hn Hsub0 Hsub1. cbv zeta.
  pose proof (wf_base _ _ Hwf) as Hbase.
  unfold eval, exec.
  rewrite blpapi_Element_toPy_run, Hc, complexElementToPy_run.
  destruct (el_numElements element) as [|[|remaining]]; [lia|lia|].
  rewrite complexElementToPy_loop_run, Hsub0, run_bind.
  set (d := next_loc (log (Native element N_isComplexType) st)).
  set (s3 := log (Native sub N_nameString) _).
  assert (Hdst : d = next_loc st) by reflexivity.
  assert (Hb3 : dict_built base d st s3 ∅).
  { do 3 apply dict_built_log. split.
    - unfold d. cbn. lia.
    - unfold d. evolve. done.
    - unfold d. cbn. lia.
    - exists ∅, (fun _ => (0, 0)). split_and!.
      + cbn. by rewrite lookup_insert_eq.
      + intros k. rewrite !lookup_empty. constructor.
      + intros k [? Hk]. by rewrite lookup_empty in Hk.
      + intros k k' _ [? Hk]. by rewrite lookup_empty in Hk.
    - apply region_closed_empty. }
  assert (Hd3 : heap s3 !! d = Some {| ob_refcnt := 1; ob_body := PyDict ∅ |}).
  { cbn. by rewrite lookup_insert_eq. }
  assert (Hn3 : next_loc s3 = S d) by done.
  pose proof (ev_wf _ _ _ _ (db_evolves _ _ _ _ _ Hb3)) as W3.
  pose proof (blpapi_Element_toPy_refines base sub s3 W3) as Href.
  rewrite (ev_helper _ _ _ _ (db_evolves _ _ _ _ _ Hb3)), Hval in Href.
  clearbody s3. destruct Href as (v & Hv & [Hev Hcl Hrepr Hcount]).
  rewrite Hv. revert Hev Hcl Hrepr Hcount.
  generalize (exec (blpapi_Element_toPy sub) s3) as s4.
  intros s4 Hev Hcl Hrepr Hcount.
  pose proof (repr_not_singleton _ _ _ _ _ Hrepr Hnone Hbool) as Hvr.
  assert (Hv1 : refcount s4 v = Some 1%Z) by (destruct Hcount; [lia|done]).
  assert (Hd4 : heap s4 !! d = Some {| ob_refcnt := 1; ob_body := PyDict ∅ |}).
  { rewrite (ev_frame _ _ _ _ Hev); [done|]. lia. }
  destruct (dict_store base d s4 ∅ (el_nameString sub) v (next_loc s3)
              (next_loc s3) (next_loc s3))
    as (E0 & Hd6 & Fr6 & _ & _ & _); try done.
  { apply Hev. }
  { lia. }
  { lia. }
  { right. split; [lia|done]. }
  { apply region_closed_empty. }
  { lia. }
  rewrite run_bind. fold (eval (PyDict_SetItemString d (el_nameString sub) v) s4).
  rewrite E0. cbn [Z.eqb]. rewrite run_bind.
  assert (Hv6 : heap (exec (Py_DECREF v)
                        (exec (PyDict_SetItemString d (el_nameString sub) v) s4))
                  !! v = heap s4 !! v).
  { apply Fr6; lia. }
  revert Hd6 Hv6.
  generalize (exec (Py_DECREF v)
                (exec (PyDict_SetItemString d (el_nameString sub) v) s4)) as s6.
  intros s6 Hd6 Hv6.
  rewrite complexElementToPy_loop_run, Hsub1, run_bind.
  unfold refcount in Hv1.
  destruct (heap s4 !! v) as [ov|] eqn:Hov; [|done]. injection Hv1 as Hv1.
  match goal with |- context [complexElementToPy_ERROR _ _ ?s] =>
    destruct (ERROR_label_stale d v
                "Internal error converting a complex Element" s
                {| ob_refcnt := 1;
                   ob_body := PyDict (<[el_nameString sub := v]> ∅) |} ov
                {| exc_type := PyExc_Exception;
                   exc_msg := "Internal error in `Element.toPy`" |})
      as (R1 & R2 & R3 & fs & R4)
  end; try done.
  { cbn. by rewrite insert_empty, map_to_list_singleton. }
  { lia. }
  split; [exact R1|]. split; [exact R2|].
  exists v, fs. split_and!; [|exact R3|exact R4].
  lia.
Qed.

(** An array of complex values whose first value converts to an object of
    its own and whose second value cannot be fetched. *)
Lemma arrayElementToPy_stale_release base st element sub val :
  well_formed base st →
  toPy_value (helper_of st) sub = Some val →
  val ≠ V_None → (∀ b, val ≠ V_Bool b) →
  el_isComplexType element = false → el_isArray element = true →
  st_isComplexType (sd_type (el_definition element)) = true →
  2 ≤ el_numValues element →
  el_getValueAsElement element 0 = Some sub →
  el_getValueAsElement element 1 = None →
  let st' := exec (blpapi_Element_toPy element) st in
  eval (blpapi_Element_toPy element) st = NULL
  ∧ err st' = error "Internal error in blpapi_Element_getValueAsElement"
  ∧ ∃ v fs, next_loc st < v ∧ heap st' !! v = None ∧ faults st' = fs ++ [v].
Proof.
  intros Hwf Hval Hnone Hbool Hc Ha Hschema Hn Hsub0 Hsub1. cbv zeta.
  pose proof (wf_base _ _ Hwf) as Hbase.
  unfold eval, exec.
  rewrite blpapi_Element_toPy_run, Hc, Ha, arrayElementToPy_run, Hschema.
  destruct (el_numValues element) as [|[|remaining]] eqn:En; [lia|lia|].
  rewrite arrayElementToPy_complex_loop_run, Hsub0, run_bind.
  set (l := next_loc (log (Native element N_isArray) _)).
  set (s1 := log (Native element (N_getValueAsElement 0)) _).
  assert (Hlst : l = next_loc st) by reflexivity.
  assert (Hev1 : evolves base l st s1).
  { unfold s1, l. evolve. done. }
  assert (Hl1 : heap s1 !! l
                = Some {| ob_refcnt := 1;
                          ob_body := PyList (replicate (S (S remaining)) None) |}).
  { cbn. by rewrite lookup_insert_eq. }
  assert (Hn1 : next_loc s1 = S l) by done.
  pose proof (ev_wf _ _ _ _ Hev1) as W1.
  pose proof (blpapi_Element_toPy_refines base sub s1 W1) as Href.
  rewrite (ev_helper _ _ _ _ Hev1), Hval in Href.
  clearbody s1. destruct Href as (v & Hv & [Hev Hcl Hrepr Hcount]).
  rewrite Hv. revert Hev Hcl Hrepr Hcount.
  generalize (exec (blpapi_Element_toPy sub) s1) as s4.
  intros s4 Hev Hcl Hrepr Hcount.
  pose proof (repr_not_singleton _ _ _ _ _ Hrepr Hnone Hbool) as Hvr.
  assert (Hv1 : refcount s4 v = Some 1%Z) by (destruct Hcount; [lia|done]).
  assert (Hl4 : heap s4 !! l
                = Some {| ob_refcnt := 1;
                          ob_body := PyList (replicate (S (S remaining)) None) |}).
  { rewrite (ev_frame _ _ _ _ Hev); [done|]. lia. }
  rewrite run_bind.
  assert (Hset : PyList_SetItem l 0 v s4
                 = (0%Z,
                    set_heap
                      <[l := {| ob_refcnt := 1;
                                ob_body := PyList (Some v
                                             :: replicate (S remaining) None) |}]>
                      s4)).
  { by rewrite (PyList_SetItem_run _ _ _ _ _ _ Hl4). }
  unfold eval, exec. rewrite Hset. cbn [fst snd].
  rewrite arrayElementToPy_complex_loop_run, Hsub1, run_bind.
  unfold refcount in Hv1.
  destruct (heap s4 !! v) as [ov|] eqn:Hov; [|done]. injection Hv1 as Hv1.
  match goal with |- context [arrayElementToPy_ERROR _ _ ?s] =>
    destruct (ERROR_label_stale l v
                "Internal error converting an array Element" s
                {| ob_refcnt := 1;
                   ob_body := PyList (Some v :: replicate (S remaining) None) |}
                ov
                {| exc_type := PyExc_Exception;
                   exc_msg := "Internal error in blpapi_Element_getValueAsElement" |})
      as (R1 & R2 & R3 & fs & R4)
  end; try done.
  { cbn. by rewrite lookup_insert_eq. }
  { cbn [ob_body children omap id]. cbn. by rewrite omap_id_replicate_None. }
  { lia. }
  { cbn. rewrite lookup_insert_ne by lia. done. }
  split; [exact R1|]. split; [exact R2|].
  exists v, fs. split_and!; [|exact R3|exact R4].
  lia.
Qed.

(** C1: the error path of the two converters releases a value twice.
    Take a record whose first sub-element converts to an object of its own
    (not to [None], [True] or [False]) and whose second sub-element cannot
    be fetched, or an array of complex values whose first value converts so
    and whose second cannot be fetched.  The conversion fails with the
    error of the fetch and returns [NULL]; but the value converted first
    is released once by the container and once more through the stale
    local: at the end it is no longer in the heap, and the last release
    recorded is a release of its address when it was already gone. *)
Theorem stale_value_released_again base st element sub val :
  well_formed base st →
  toPy_value (helper_of st) sub = Some val →
  val ≠ V_None → (∀ b, val ≠ V_Bool b) →
  let r := eval (blpapi_Element_toPy element) st in
  let st' := exec (blpapi_Element_toPy element) st in
  let released_again :=
    ∃ v fs, next_loc st < v ∧ heap st' !! v = None ∧ faults st' = fs ++ [v] in
  (el_isComplexType element = true → 2 ≤ el_numElements element →
   el_getElementAt element 0 = Some sub → el_getElementAt element 1 = None →
   r = NULL ∧ err st' = error "Internal error in `Element.toPy`"
   ∧ released_again)
  ∧ (el_isComplexType element = false → el_isArray element = true →
     st_isComplexType (sd_type (el_definition element)) = true →
     2 ≤ el_numValues element →
     el_getValueAsElement element 0 = Some sub →
     el_getValueAsElement element 1 = None →
     r = NULL
     ∧ err st' = error "Internal error in blpapi_Element_getValueAsElement"
     ∧ released_again).
Proof.
  intros Hwf Hval Hnone Hbool. cbv zeta. split.
  - intros. by eapply complexElementToPy_stale_release.
  - intros. by eapply arrayElementToPy_stale_release.
Qed.

(** The two error paths on sample inputs.  When the second fetch fails
    the heap is what it was before the conversion, and the address 7, the
    value converted first, is released again after it was freed; when
    instead the conversion of the second item fails, the local is [NULL]
    at the label and every value is released once. *)
Example error_path_sample :
  let fails (e : blpapi_Element_t) (msg : string) (released_again : list loc) :=
    eval (blpapi_Element_toPy e) interpreter = NULL
    ∧ err (exec (blpapi_Element_toPy e) interpreter) = error msg
    ∧ heap (exec (blpapi_Element_toPy e) interpreter) = heap interpreter
    ∧ faults (exec (blpapi_Element_toPy e) interpreter) = released_again in
  fails short_record "Internal error in `Element.toPy`" [7]
  ∧ fails short_array "Internal error in blpapi_Element_getValueAsElement" [7]
  ∧ fails (record_element "r" 2 [int64_field "a" 1; failing_field "b"])
      "Internal error getting int" []
  ∧ fails (record_array "xs" 2
             [record_element "r" 0 []; record_element "s" 1 [failing_field "b"]])
      "Internal error getting int" [].
Proof. cbv zeta. by vm_compute. Qed.

(** ** The theorems at sample inputs *)

Lemma list_of_lookups {A : Type} (l k : list A) :
  length l = length k → (∀ i, i < length k → l !! i = k !! i) → l = k.
Proof.
  intros Hlen Hat. apply list_eq. intros i.
  destruct (decide (i < length k)); [by apply Hat|].
  rewrite !lookup_ge_None_2 by lia. done.
Qed.

(** The array of the integers 1, 2, 3 converts to the list of 1, 2, 3. *)
Lemma array_conversion_sample :
  well_formed 6 interpreter
  ∧ ∃ l,
      eval (blpapi_Element_toPy (int64_array "xs" [1; 2; 3]%Z)) interpreter
      = Some l
      ∧ converted 6 interpreter
          (exec (blpapi_Element_toPy (int64_array "xs" [1; 2; 3]%Z)) interpreter)
          l (V_List [V_Long 1; V_Long 2; V_Long 3]).
Proof.
  split; [exact interpreter_well_formed|].
  destruct (array_conversion 6 (int64_array "xs" [1; 2; 3]%Z) interpreter
              interpreter_well_formed eq_refl eq_refl) as (Hok & _).
  cbv zeta in Hok. destruct Hok as (l & vals & Hl & Hconv & Hlen & Hat).
  { intros [|[|[|i]]] Hi; [vm_compute; eauto..|]. cbn in Hi. lia. }
  exists l. split; [exact Hl|].
  replace [V_Long 1; V_Long 2; V_Long 3] with vals; [exact Hconv|].
  apply list_of_lookups; [exact Hlen|].
  intros [|[|[|i]]] Hi; [by rewrite Hat by (vm_compute; lia)..|].
  cbn in Hi. lia.
Defined.

(** The record with the fields X = 1 and X = 2, in this order, converts to
    a mapping in which X is 2. *)
Lemma record_conversion_sample :
  well_formed 6 interpreter
  ∧ ∃ l m,
      eval (blpapi_Element_toPy
              (record_element "r" 2 [int64_field "X" 1; int64_field "X" 2]))
        interpreter = Some l
      ∧ converted 6 interpreter
          (exec (blpapi_Element_toPy
                   (record_element "r" 2 [int64_field "X" 1; int64_field "X" 2]))
             interpreter) l (V_Dict m)
      ∧ m !! "X" = Some (V_Long 2) ∧ m !! "Y" = None.
Proof.
  split; [exact interpreter_well_formed|].
  destruct (record_conversion 6
              (record_element "r" 2 [int64_field "X" 1; int64_field "X" 2])
              interpreter interpreter_well_formed eq_refl) as (Hok & _).
  cbv zeta in Hok. destruct Hok as (l & m & Hl & Hconv & Hnone & Hlast).
  { intros [|[|i]] Hi; [by eexists; split; [reflexivity|vm_compute; eauto]..|].
    vm_compute in Hi. lia. }
  exists l, m. split_and!; [exact Hl|exact Hconv| |].
  - apply (Hlast 1 (int64_field "X" 2)); [vm_compute; lia|reflexivity|].
    intros j sub' Hj. vm_compute in Hj. lia.
  - apply Hnone. intros [|[|i]] sub Hi; [by intros [= <-]..|].
    vm_compute in Hi. lia.
Defined.

(** The sample timestamp is converted by a call of the helper whose last
    argument is 123 * 1000 + 500000000 / 1000000. *)
Lemma temporal_conversion_sample :
  (heap_bounded interpreter ∧ helper_location interpreter = Some 5)
  ∧ convertToPyTime_arguments sample_timestamp
    = [255; 0; 2024; 2; 29; 12; 30; 45; 123500]%Z
  ∧ ∃ s, getScalarValue (datetime_field "t" sample_timestamp) 0 interpreter
         = PyObject_CallFunction 5 (convertToPyTime_arguments sample_timestamp) s.
Proof.
  assert (Hb : heap_bounded interpreter)
    by exact (wf_bounded _ _ interpreter_well_formed).
  assert (Hf : helper_location interpreter = Some 5) by (vm_compute; reflexivity).
  split; [by split|].
  destruct (temporal_conversion (datetime_field "t" sample_timestamp) 0
              interpreter sample_timestamp 5 eq_refl Hb Hf eq_refl)
    as (_ & Hcall & Hargs).
  split.
  - rewrite Hargs by (cbn; lia). reflexivity.
  - destruct Hcall as (s & Hs & _); [cbn; lia|]. by exists s.
Defined.

(** In the sample interpreter the first date/time conversion resolves the
    helper and caches it. *)
Lemma helper_resolved_once_sample :
  heap_bounded interpreter
  ∧ convertToPyTime interpreter = None
  ∧ convertToPyTime
      (exec (getScalarValue (datetime_field "t" sample_timestamp) 0) interpreter)
    = Some 5.
Proof.
  assert (Hb : heap_bounded interpreter)
    by exact (wf_bounded _ _ interpreter_well_formed).
  split_and!; [exact Hb|reflexivity|].
  destruct (helper_resolved_once (datetime_field "t" sample_timestamp) 0
              interpreter eq_refl Hb) as (_ & _ & Hun & _).
  destruct (Hun eq_refl) as [_ Hres].
  replace (resolve_helper interpreter) with (Some 5) in Hres
    by (vm_compute; reflexivity).
  exact Hres.
Defined.

(** Copying the handle at 100 to 200 and to 300 and destroying both copies
    leaves the count of the object at 5 as it was. *)
Lemma copy_copy_destroy_destroy_sample :
  let copy := ManagedPtr_copy 1 (-1) in
  let destroy := ManagedPtr_destroy 1 (-1) in
  refcount handles 5 = Some 1%Z
  ∧ refcount
      (exec (destroy 300%Z)
         (exec (destroy 200%Z)
            (exec (copy 300%Z 100%Z) (exec (copy 200%Z 100%Z) handles)))) 5
    = refcount handles 5.
Proof.
  cbv zeta. split; [by vm_compute|].
  assert (Hsrc : native_mem handles !! 100%Z
                 = Some {| pointer := Some 5; manager := 7777 |})
    by (vm_compute; reflexivity).
  assert (Hobj : heap handles !! 5
                 = Some {| ob_refcnt := 1; ob_body := PyFunction inr |})
    by (vm_compute; reflexivity).
  assert (Hd1 : is_Some (native_mem handles !! 200%Z)) by (vm_compute; eauto).
  assert (Hd2 : is_Some (native_mem handles !! 300%Z)) by (vm_compute; eauto).
  assert (Hops : (1 ≠ -1)%Z) by lia.
  assert (Hlive : (1 ≤ 1)%Z) by lia.
  exact (proj1 (proj2 (proj2 (proj2
           (copy_copy_destroy_destroy 1 (-1) handles 100 200 300 _ 5 _
              Hops Hsrc eq_refl Hobj Hlive Hd1 Hd2))))).
Defined.

(** The handle at 200 carries another manager; after [setmptr] it carries
    the bridge's own. *)
Lemma is_known_obj_own_manager_sample :
  is_known_obj 7777 200 handles = (Some 0%Z, handles)
  ∧ eval (is_known_obj 7777 200) (exec (setmptr 7777 200) handles) = Some 1%Z.
Proof.
  destruct (is_known_obj_own_manager 7777 handles 200
              {| pointer := None; manager := 0 |})
    as (_ & Hother & Hown & _); [by vm_compute|].
  split; [|exact Hown]. by apply Hother.
Defined.

(** The sample record that yields one of its two sub-elements: the value
    of the first is released again after it was freed. *)
Lemma stale_value_released_again_sample :
  well_formed 6 interpreter
  ∧ eval (blpapi_Element_toPy short_record) interpreter = NULL
  ∧ ∃ v fs,
      6 < v
      ∧ heap (exec (blpapi_Element_toPy short_record) interpreter) !! v = None
      ∧ faults (exec (blpapi_Element_toPy short_record) interpreter)
        = fs ++ [v].
Proof.
  split; [exact interpreter_well_formed|].
  assert (Hval : toPy_value (helper_of interpreter) (int64_field "a" 1)
                 = Some (V_Long 1)) by (vm_compute; reflexivity).
  assert (Hnone : V_Long 1 ≠ V_None) by discriminate.
  assert (Hbool : ∀ b, V_Long 1 ≠ V_Bool b) by discriminate.
  destruct (stale_value_released_again 6 interpreter short_record
              (int64_field "a" 1) (V_Long 1)
              interpreter_well_formed Hval Hnone Hbool) as [Hrecord _].
  destruct Hrecord as (Hr & _ & Hagain);
    [reflexivity|vm_compute; lia|reflexivity|reflexivity|].
  split; [exact Hr|exact Hagain].
Defined.

(** A null field converts to [None] after the three shape questions; a
    null array converts to a new empty list. *)
Lemma blpapi_Element_toPy_dispatch_sample :
  (eval (blpapi_Element_toPy (null_int64_field "f")) interpreter = Some Py_None
   ∧ trace (exec (blpapi_Element_toPy (null_int64_field "f")) interpreter)
     = [Native (null_int64_field "f") N_isComplexType;
        Native (null_int64_field "f") N_isArray;
        Native (null_int64_field "f") N_isNull])
  ∧ eval (blpapi_Element_toPy (null_int64_array "xs")) interpreter = Some 6
  ∧ heap (exec (blpapi_Element_toPy (null_int64_array "xs")) interpreter)
    = <[6 := {| ob_refcnt := 1; ob_body := PyList [] |}]> (heap interpreter).
Proof.
  pose proof (blpapi_Element_toPy_dispatch (null_int64_field "f") interpreter)
    as (_ & Hnull & _).
  pose proof (blpapi_Element_toPy_dispatch (null_int64_array "xs") interpreter)
    as (_ & _ & Harray & _).
  cbv zeta in Hnull, Harray.
  destruct (Hnull eq_refl eq_refl eq_refl) as (Hr & Ht & _).
  destruct (Harray eq_refl eq_refl eq_refl) as (Hl & Hh & _).
  split_and!; [exact Hr|exact Ht|exact Hl|exact Hh].
Defined.

(** A 64-bit integer field that holds 42 converts to a new integer 42. *)
Lemma getScalarValue_dispatch_sample :
  fresh_object interpreter
    (exec (getScalarValue (int64_field "a" 42) 0) interpreter)
    (eval (getScalarValue (int64_field "a" 42) 0) interpreter) (PyLong 42).
Proof.
  pose proof (getScalarValue_dispatch (int64_field "a" 42) 0 interpreter) as H.
  cbv zeta in H. cbn [el_datatype int64_field] in H.
  destruct H as [_ H]. exact H.
Defined.

(** An operation code that is neither copy (1) nor destroy (-1) changes
    nothing and returns 0. *)
Lemma managerFunc_unrecognised_operation_sample :
  managerFunc 1 (-1) 200 100 7 handles = (Some 0%Z, handles).
Proof.
  pose proof (managerFunc_unrecognised_operation 1 (-1) handles 200 100 7)
    as (Hother & _).
  apply Hother; lia.
Defined.

(** * Further properties of the code *)

(** ** [incref] and the manager callback *)

Lemma incref_run obj st : incref obj st = (tt, exec (Py_XINCREF obj) st).
Proof.
  unfold incref, bind, PyGILState_Ensure, PyGILState_Release, modify, exec.
  destruct obj as [l|]; cbn.
  - unfold Py_INCREF, modify. cbn.
    destruct (heap st !! l); cbn; by destruct st.
  - by destruct st.
Qed.

Lemma incref_live st l o :
  heap st !! l = Some o →
  incref (Some l) st
  = (tt, set_heap <[l := with_refcnt o (ob_refcnt o + 1)]> st).
Proof.
  intros Hl. rewrite incref_run. unfold exec. cbn [Py_XINCREF].
  by rewrite (Py_INCREF_live _ _ _ Hl).
Qed.

(** X1: [incref] adds one reference to a live object and changes nothing
    else, whatever the nesting depth of the lock when it is called; on a
    null pointer it changes nothing at all. *)
Theorem incref_adds_one_reference st :
  incref None st = (tt, st)
  ∧ ∀ l o, heap st !! l = Some o →
           incref (Some l) st
           = (tt, set_heap <[l := with_refcnt o (ob_refcnt o + 1)]> st)
           ∧ refcount (exec (incref (Some l)) st) l = Some (ob_refcnt o + 1)%Z
           ∧ ∀ x, x ≠ l → heap (exec (incref (Some l)) st) !! x = heap st !! x.
Proof.
  split; [by rewrite incref_run|]. intros l o Hl.
  pose proof (incref_live st l o Hl) as Hrun.
  split; [exact Hrun|]. unfold exec, refcount. rewrite Hrun. cbn. split.
  - by rewrite lookup_insert_eq.
  - intros x Hx. by rewrite lookup_insert_ne.
Qed.

(** X2: a reference taken with [incref] is the one a later destroy of a
    handle to the object gives back: the state after both is the state
    before. *)
Theorem incref_then_destroy COPY DESTROY st handle h l o :
  COPY ≠ DESTROY →
  native_mem st !! handle = Some h → pointer h = Some l →
  heap st !! l = Some o → (1 ≤ ob_refcnt o)%Z →
  managerFunc COPY DESTROY handle 0 DESTROY (exec (incref (Some l)) st)
  = (Some 0%Z, st).
Proof.
  intros Hne Hh Hp Hl Hlive.
  pose proof (incref_live st l o Hl) as Hrun.
  unfold exec. rewrite Hrun. cbn [snd].
  rewrite (managerFunc_destroy COPY DESTROY _ _ _ h Hne) by done.
  rewrite Hp. unfold exec. cbn [Py_XDECREF].
  rewrite (Py_DECREF_shared _ l (with_refcnt o (ob_refcnt o + 1)));
    [|by cbn; rewrite lookup_insert_eq|cbn; lia].
  f_equal. cbn. unfold set_heap. cbn. rewrite insert_insert_eq.
  destruct st as [hp ? ? ? ? ? ? ? ? ? ?]. cbn in *. f_equal.
  apply insert_id. rewrite Hl. f_equal. destruct o. unfold with_refcnt. cbn.
  f_equal. lia.
Qed.

Lemma Py_XINCREF_outside_heap o st :
  outside_heap (exec (Py_XINCREF o) st) = outside_heap st.
Proof. destruct o; [apply Py_INCREF_outside_heap|done]. Qed.

Lemma Py_XDECREF_outside_heap o st :
  outside_heap (exec (Py_XDECREF o) st) = outside_heap st.
Proof. destruct o; [apply Py_DECREF_outside_heap|done]. Qed.

Lemma Py_XDECREF_sub_heap o st :
  sub_heap (heap (exec (Py_XDECREF o) st)) (heap st).
Proof.
  destruct o as [l|]; [|apply sub_heap_refl].
  apply Py_DECREF_rec_sub_heap.
Qed.

Lemma Py_XINCREF_sub_heap o st :
  sub_heap (heap (exec (Py_XINCREF o) st)) (heap st).
Proof. destruct o as [l|]; [apply sub_heap_Py_INCREF|apply sub_heap_refl]. Qed.

(** X3: whatever the operation code, the manager callback changes nothing
    but reference counts and, for a copy, the destination handle: the
    nesting depth of the lock is the one it found, the error indicator,
    the trace and every other handle are untouched, no object is created
    and no object changes its contents. *)
Theorem managerFunc_frame COPY DESTROY st mptr sptr operation :
  is_Some (native_mem st !! mptr) →
  (operation = COPY → is_Some (native_mem st !! sptr)) →
  let st' := exec (managerFunc COPY DESTROY mptr sptr operation) st in
  gil st' = gil st ∧ err st' = err st ∧ trace st' = trace st
  ∧ next_loc st' = next_loc st
  ∧ (∀ a, a ≠ mptr → native_mem st' !! a = native_mem st !! a)
  ∧ (operation ≠ COPY → native_mem st' = native_mem st)
  ∧ sub_heap (heap st') (heap st).
Proof.
  intros [hm Hm] Hsrc. cbv zeta. unfold exec at 1 2 3 4 5 6 7.
  destruct (decide (operation = COPY)) as [->|Hc].
  { destruct (Hsrc eq_refl) as [hs Hs]. rewrite (managerFunc_copy _ _ _ _ _ _ _ Hs Hm). cbn [snd].
    destruct (outside_heap_fields _ _
                (Py_XINCREF_outside_heap (pointer hs)
                   (set_native_mem (<[mptr := hs]> (native_mem st)) st)))
      as (E1 & E2 & _ & _ & _ & _ & E3 & E4 & E5).
    split_and!; [done..| | |].
    - intros a Ha. rewrite E4. cbn. by rewrite lookup_insert_ne.
    - done.
    - apply (Py_XINCREF_sub_heap (pointer hs)
               (set_native_mem (<[mptr := hs]> (native_mem st)) st)). }
  destruct (decide (operation = DESTROY)) as [->|Hd].
  { rewrite (managerFunc_destroy COPY DESTROY _ _ _ hm (not_eq_sym Hc) Hm).
    cbn [snd].
    destruct (outside_heap_fields _ _
                (Py_XDECREF_outside_heap (pointer hm) st))
      as (E1 & E2 & _ & _ & _ & _ & E3 & E4 & E5).
    split_and!; [done..| | |].
    - intros a _. by rewrite E4.
    - done.
    - apply Py_XDECREF_sub_heap. }
  rewrite managerFunc_other by done. cbn [snd].
  split_and!; try done. apply sub_heap_refl.
Qed.

Lemma release_all_sub_heap fuel cs s :
  sub_heap (heap (foldl (fun s c => Py_DECREF_rec fuel c s) s cs)) (heap s).
Proof.
  induction cs as [|c cs IH] in s |- *; cbn; [apply sub_heap_refl|].
  eapply sub_heap_trans; [apply IH|apply Py_DECREF_rec_sub_heap].
Qed.

Lemma Py_DECREF_last st l o :
  heap st !! l = Some o → ob_refcnt o = 1%Z →
  heap (exec (Py_DECREF l) st) !! l = None
  ∧ (children (ob_body o) = [] → exec (Py_DECREF l) st = set_heap (delete l) st).
Proof.
  intros Hl Hc. unfold exec. cbn [Py_DECREF modify snd].
  destruct (size (heap st)) as [|fuel] eqn:Hsize.
  { by destruct (map_size_ne_0_lookup_2 (heap st) l). }
  rewrite (Py_DECREF_rec_dealloc _ _ _ _ Hl Hc). split.
  - apply (sub_heap_None _ _ _ (release_all_sub_heap _ _ _)).
    cbn. by rewrite lookup_delete_eq.
  - by intros ->.
Qed.

(** X4: destroying the handle that holds the last reference frees the
    object: it leaves the heap, nothing is created, and the handle keeps
    its pointer, so that a second destroy of the handle releases an object
    that is gone. *)
Theorem destroy_last_reference COPY DESTROY st handle h l o :
  COPY ≠ DESTROY →
  native_mem st !! handle = Some h → pointer h = Some l →
  heap st !! l = Some o → ob_refcnt o = 1%Z →
  let destroy := ManagedPtr_destroy COPY DESTROY handle in
  let st' := exec destroy st in
  heap st' !! l = None
  ∧ sub_heap (heap st') (heap st)
  ∧ native_mem st' = native_mem st
  ∧ (children (ob_body o) = [] → st' = set_heap (delete l) st)
  ∧ exec destroy st' = add_fault l st'.
Proof.
  intros Hne Hh Hp Hl Hc. cbv zeta. unfold ManagedPtr_destroy.
  assert (Hrun : exec (managerFunc COPY DESTROY handle 0 DESTROY) st
                 = exec (Py_DECREF l) st).
  { unfold exec at 1. rewrite (managerFunc_destroy COPY DESTROY _ _ _ h Hne Hh).
    by rewrite Hp. }
  rewrite Hrun. destruct (Py_DECREF_last st l o Hl Hc) as [Hgone Hleaf].
  destruct (outside_heap_fields _ _ (Py_DECREF_outside_heap l st))
    as (_ & _ & _ & _ & _ & _ & _ & Hmem & _).
  split_and!; [done|apply Py_DECREF_rec_sub_heap|done|done|].
  unfold exec at 1.
  rewrite (managerFunc_destroy COPY DESTROY _ _ _ h Hne) by by rewrite Hmem.
  rewrite Hp. cbn [snd]. unfold exec at 1. cbn [Py_XDECREF Py_DECREF modify snd].
  by apply Py_DECREF_rec_missing.
Qed.

(** X5: a copy hands the manager pointer on, so [is_known_obj] answers
    for the destination what it answered for the source, and 1 when the
    source was set up with [setmptr]; the source handle is left as it was,
    and a source with a null object pointer changes no object. *)
Theorem copy_inherits_manager COPY DESTROY own st dest src hs :
  native_mem st !! src = Some hs → is_Some (native_mem st !! dest) →
  let copy := ManagedPtr_copy COPY DESTROY dest src in
  eval (is_known_obj own dest) (exec copy st) = eval (is_known_obj own src) st
  ∧ eval (is_known_obj own dest) (exec copy (exec (setmptr own src) st))
    = Some 1%Z
  ∧ native_mem (exec copy st) = <[dest := hs]> (native_mem st)
  ∧ native_mem (exec copy st) !! src = Some hs
  ∧ (pointer hs = None → heap (exec copy st) = heap st).
Proof.
  intros Hs [hd Hd]. cbv zeta.
  assert (Hmem : ∀ s h, native_mem s !! src = Some h →
            is_Some (native_mem s !! dest) →
            native_mem (exec (ManagedPtr_copy COPY DESTROY dest src) s)
            = <[dest := h]> (native_mem s)
            ∧ (pointer h = None →
               heap (exec (ManagedPtr_copy COPY DESTROY dest src) s) = heap s)).
  { intros s h Hh [hd' Hd']. unfold ManagedPtr_copy, exec.
    rewrite (managerFunc_copy _ _ _ _ _ _ _ Hh Hd'). cbn [snd].
    destruct (outside_heap_fields _ _
                (Py_XINCREF_outside_heap (pointer h)
                   (set_native_mem (<[dest := h]> (native_mem s)) s)))
      as (_ & _ & _ & _ & _ & _ & _ & E & _).
    split; [exact E|]. by intros ->. }
  assert (Hknown : ∀ s a h, native_mem s !! a = Some h →
            eval (is_known_obj own a) s
            = Some (if (manager h =? own)%Z then 1%Z else 0%Z)).
  { intros s a h Ha. unfold eval, is_known_obj, bind, read_manager, ret. cbn.
    by rewrite Ha. }
  destruct (Hmem st hs Hs (ex_intro _ hd Hd)) as [E Hnull].
  split_and!.
  - rewrite (Hknown _ dest hs) by by rewrite E, lookup_insert_eq.
    by rewrite (Hknown _ src hs).
  - set (s1 := exec (setmptr own src) st).
    assert (Hs1 : native_mem s1
                  = <[src := {| pointer := pointer hs; manager := own |}]>
                      (native_mem st)).
    { unfold s1, exec, setmptr, write_manager. by rewrite Hs. }
    destruct (Hmem s1 {| pointer := pointer hs; manager := own |}) as [E1 _].
    { by rewrite Hs1, lookup_insert_eq. }
    { rewrite Hs1, lookup_insert. case_decide; eauto. }
    rewrite (Hknown _ dest {| pointer := pointer hs; manager := own |})
      by by rewrite E1, lookup_insert_eq.
    cbn. by rewrite Z.eqb_refl.
  - done.
  - rewrite E, lookup_insert. by case_decide.
  - done.
Qed.

(** ** No failure without an error *)

Lemma reports_failure_bind {A : Type} (m : M A) (k : A → M (option loc)) :
  (∀ a, reports_failure (k a)) → reports_failure (bind m k).
Proof. intros Hk s. rewrite eval_bind, exec_bind. apply Hk. Qed.

Lemma reports_failure_Some (m : M (option loc)) :
  (∀ s, is_Some (eval m s)) → reports_failure m.
Proof. intros Hm s Hs. destruct (Hm s) as [l Hl]. by rewrite Hl in Hs. Qed.

Lemma reports_failure_raise exc msg :
  reports_failure (PyErr_SetString exc msg ;;; ret NULL).
Proof. intros s _. rewrite exec_bind, exec_ret, exec_PyErr_SetString. cbn. eauto. Qed.

Lemma reports_failure_ERROR_label a b msg :
  reports_failure
    (Py_XDECREF a ;;;
     Py_XDECREF b ;;;
     e <-- PyErr_Occurred ;;
     match e with
     | None => PyErr_SetString PyExc_Exception msg
     | Some _ => ret tt
     end ;;;
     ret (@NULL loc)).
Proof. intros s _. by destruct (ERROR_label_fails a b msg s) as (_ & ? & _). Qed.

Lemma reports_failure_PyObject_CallFunction f args :
  reports_failure (PyObject_CallFunction f args).
Proof.
  intros s. unfold eval, exec. rewrite PyObject_CallFunction_run.
  destruct (callable_at s f) as [g|]; [|cbn; eauto].
  destruct (g args); cbn; [eauto|done].
Qed.

Lemma initialize_static_variables_success st :
  eval initialize_static_variables st = true →
  is_Some (convertToPyTime (exec initialize_static_variables st)).
Proof.
  unfold eval, exec, initialize_static_variables.
  rewrite bind_run. cbv beta. rewrite bind_run. cbv beta.
  destruct (PyImport_ImportModule "blpapi.datetime" st) as [[m|] st1]; cbn;
    [|done].
  rewrite !bind_run. cbv beta.
  destruct (PyObject_GetAttr m _ _) as [[u|] st2]; cbn; [|done].
  rewrite !bind_run. cbv beta.
  destruct (PyObject_GetAttr u _ _) as [[c|] st3]; cbn; [eauto|done].
Qed.

Lemma reports_failure_getScalarValue_datetime element index :
  reports_failure (getScalarValue_datetime element index).
Proof.
  intros s. unfold getScalarValue_datetime.
  rewrite eval_bind, exec_bind, eval_get_convertToPyTime,
    exec_get_convertToPyTime.
  destruct (convertToPyTime s) as [f|] eqn:Hc.
  - rewrite eval_bind, exec_bind, eval_ret, exec_ret.
    unfold eval, exec. rewrite (read_temporal_run element index f s Hc).
    cbv zeta. destruct (el_getValueAsHighPrecisionDatetime element index) as [v|];
      [|cbn; eauto].
    destruct (parts (datetime v) =? 0)%Z; [done|].
    apply reports_failure_PyObject_CallFunction.
  - rewrite eval_bind, exec_bind.
    destruct (eval initialize_static_variables s) eqn:Hinit.
    + destruct (initialize_static_variables_success s Hinit) as [f Hf].
      revert Hf. generalize (exec initialize_static_variables s) as s1.
      intros s1 Hf. unfold eval, exec.
      rewrite (read_temporal_run element index f _ Hf).
      cbv zeta.
      destruct (el_getValueAsHighPrecisionDatetime element index) as [v|];
        [|cbn; eauto].
      destruct (parts (datetime v) =? 0)%Z; [done|].
      apply reports_failure_PyObject_CallFunction.
    + intros _. rewrite exec_ret.
      by apply initialize_static_variables_failure.
Qed.

Lemma reports_failure_getScalarValue element index :
  reports_failure (getScalarValue element index).
Proof.
  unfold getScalarValue. apply reports_failure_bind. intros datatype.
  destruct datatype;
    try apply reports_failure_getScalarValue_datetime;
    try apply reports_failure_raise;
    (apply reports_failure_bind; intros [v|];
     [apply reports_failure_Some; intros s; eauto
     |apply reports_failure_raise]).
Qed.

Lemma reports_failure_scalar_loop element l remaining i pv :
  reports_failure (arrayElementToPy_scalar_loop element l remaining i pv).
Proof.
  revert i pv. induction remaining as [|remaining IH]; intros i pv; cbn.
  { apply reports_failure_Some. intros s. eauto. }
  apply reports_failure_bind. intros [v|].
  - apply reports_failure_bind. intros _. apply IH.
  - apply reports_failure_ERROR_label.
Qed.

Lemma reports_failure_complex_loop toPy element l remaining i pv :
  reports_failure (arrayElementToPy_complex_loop toPy element l remaining i pv).
Proof.
  revert i pv. induction remaining as [|remaining IH]; intros i pv; cbn.
  { apply reports_failure_Some. intros s. eauto. }
  apply reports_failure_bind. intros [sub|].
  - apply reports_failure_bind. intros [v|].
    + apply reports_failure_bind. intros _. apply IH.
    + apply reports_failure_ERROR_label.
  - apply reports_failure_bind. intros _. apply reports_failure_ERROR_label.
Qed.

Lemma reports_failure_arrayElementToPy toPy element :
  reports_failure (arrayElementToPy toPy element).
Proof.
  unfold arrayElementToPy. do 4 (apply reports_failure_bind; intros ?).
  destruct a0 as [l|]; [|apply reports_failure_ERROR_label].
  apply reports_failure_bind. intros [|].
  - apply reports_failure_complex_loop.
  - apply reports_failure_scalar_loop.
Qed.

Lemma reports_failure_complexElementToPy_loop toPy element d remaining i pv :
  reports_failure (complexElementToPy_loop toPy element d remaining i pv).
Proof.
  revert i pv. induction remaining as [|remaining IH]; intros i pv; cbn.
  { apply reports_failure_bind. intros _.
    apply reports_failure_Some. intros s. eauto. }
  apply reports_failure_bind. intros _.
  apply reports_failure_bind. intros [sub|].
  - apply reports_failure_bind. intros name.
    apply reports_failure_bind. intros [v|];
      [|apply reports_failure_ERROR_label].
    apply reports_failure_bind. intros status.
    destruct (status =? 0)%Z; [|apply reports_failure_ERROR_label].
    apply reports_failure_bind. intros _. apply IH.
  - apply reports_failure_bind. intros _. apply reports_failure_ERROR_label.
Qed.

Lemma reports_failure_complexElementToPy toPy element :
  reports_failure (complexElementToPy toPy element).
Proof.
  unfold complexElementToPy. apply reports_failure_bind. intros [d|].
  - apply reports_failure_complexElementToPy_loop.
  - apply reports_failure_ERROR_label.
Qed.

(** X6: neither the scalar converter nor the conversion of an element ever
    returns [NULL] without the error indicator set, in any state and for
    any element, whichever step failed. *)
Theorem NULL_result_has_error element st :
  (∀ index, eval (getScalarValue element index) st = NULL →
            is_Some (err (exec (getScalarValue element index) st)))
  ∧ (eval (blpapi_Element_toPy element) st = NULL →
     is_Some (err (exec (blpapi_Element_toPy element) st))).
Proof.
  split; [intros index; apply reports_failure_getScalarValue|].
  revert st. change (reports_failure (blpapi_Element_toPy element)).
  rewrite blpapi_Element_toPy_unfold.
  apply reports_failure_bind. intros [|];
    [apply reports_failure_complexElementToPy|].
  apply reports_failure_bind. intros [|];
    [apply reports_failure_arrayElementToPy|].
  apply reports_failure_bind. intros [|].
  - apply reports_failure_Some. intros s. by eexists.
  - apply reports_failure_getScalarValue.
Qed.

(** X7: the [ERROR:] labels return [NULL] and touch neither the trace nor
    an error that is already set; only when none is set do they set the
    fallback error of the converter. *)
Theorem ERROR_label_error a b st :
  let fallback (label : M (option loc)) (msg : string) :=
    eval label st = NULL
    ∧ trace (exec label st) = trace st
    ∧ err (exec label st)
      = match err st with
        | Some e => Some e
        | None => error msg
        end in
  fallback (complexElementToPy_ERROR a b)
    "Internal error converting a complex Element"
  ∧ fallback (arrayElementToPy_ERROR a b)
      "Internal error converting an array Element".
Proof.
  cbv zeta.
  assert (H : ∀ msg,
    let m :=
      (Py_XDECREF a ;;;
       Py_XDECREF b ;;;
       e <-- PyErr_Occurred ;;
       match e with
       | None => PyErr_SetString PyExc_Exception msg
       | Some _ => ret tt
       end ;;;
       ret (@NULL loc)) in
    eval m st = NULL
    ∧ trace (exec m st) = trace st
    ∧ err (exec m st) = match err st with
                        | Some e => Some e
                        | None => error msg
                        end).
  { intros msg. cbv zeta.
    destruct (ERROR_label_fails a b msg st) as (E1 & _ & E3).
    cbv zeta in E1, E3. split; [exact E1|].
    assert (Hout : outside_heap (exec (Py_XDECREF b) (exec (Py_XDECREF a) st))
                   = outside_heap st).
    { by rewrite !Py_XDECREF_outside_heap. }
    destruct (outside_heap_fields _ _ Hout)
      as (_ & He & _ & _ & _ & _ & _ & _ & Ht).
    autorewrite with run. rewrite He.
    destruct (err st) as [e|] eqn:E; autorewrite with run.
    - by rewrite Ht, He.
    - cbn. by rewrite Ht. }
  split; apply H.
Qed.

(** ** What holds of every step holds of a conversion *)

Section along_a_conversion.
Variable Good : ∀ A : Type, M A → Prop.
Hypothesis Good_ret : ∀ (A : Type) (a : A), Good A (ret a).
Hypothesis Good_bind : ∀ (A B : Type) (m : M A) (k : A → M B),
  Good A m → (∀ s, Good B (k (eval m s))) → Good B (bind m k).
Hypothesis Good_native : ∀ (A : Type) e c (a : A), Good A (native e c a).
Hypothesis Good_getScalarValue : ∀ e i, Good _ (getScalarValue e i).
Hypothesis Good_Py_INCREF : ∀ l, Good _ (Py_INCREF l).
Hypothesis Good_Py_DECREF : ∀ l, Good _ (Py_DECREF l).
Hypothesis Good_PyErr_SetString : ∀ exc msg, Good _ (PyErr_SetString exc msg).
Hypothesis Good_PyErr_Occurred : Good _ PyErr_Occurred.
Hypothesis Good_new_object : ∀ b, Good _ (new_object b).
Hypothesis Good_PyList_SetItem : ∀ l i v, Good _ (PyList_SetItem l i v).
Hypothesis Good_PyDict_SetItemString :
  ∀ d k v, Good _ (PyDict_SetItemString d k v).

Lemma Good_then (A B : Type) (m : M A) (k : A → M B) :
  Good A m → (∀ a, Good B (k a)) → Good B (bind m k).
Proof using Good_bind. intros Hm Hk. apply Good_bind; [done|]. intros s. apply Hk. Qed.

Lemma Good_ERROR_label a b msg :
  Good _ (Py_XDECREF a ;;;
          Py_XDECREF b ;;;
          e <-- PyErr_Occurred ;;
          match e with
          | None => PyErr_SetString PyExc_Exception msg
          | Some _ => ret tt
          end ;;;
          ret (@NULL loc)).
Proof using Good_ret Good_bind Good_Py_DECREF Good_PyErr_SetString
  Good_PyErr_Occurred.
  assert (HX : ∀ o, Good _ (Py_XDECREF o)).
  { intros [l|]; [apply Good_Py_DECREF|apply Good_ret]. }
  apply Good_then; [apply HX|]. intros _.
  apply Good_then; [apply HX|]. intros _.
  apply Good_then; [apply Good_PyErr_Occurred|]. intros e.
  apply Good_then; [|intros _; apply Good_ret].
  destruct e; [apply Good_ret|apply Good_PyErr_SetString].
Qed.

Lemma Good_scalar_loop e l remaining i pv :
  Good _ (arrayElementToPy_scalar_loop e l remaining i pv).
Proof using Good_ret Good_bind Good_getScalarValue Good_Py_DECREF
  Good_PyErr_SetString Good_PyErr_Occurred Good_PyList_SetItem.
  revert i pv. induction remaining as [|remaining IH]; intros i pv; cbn.
  { apply Good_ret. }
  apply Good_then; [apply Good_getScalarValue|]. intros [v|].
  - apply Good_then; [apply Good_PyList_SetItem|]. intros _. apply IH.
  - apply Good_ERROR_label.
Qed.

Lemma Good_complex_loop e l remaining i pv :
  (∀ j sub, el_getValueAsElement e j = Some sub →
            Good _ (blpapi_Element_toPy sub)) →
  Good _ (arrayElementToPy_complex_loop blpapi_Element_toPy e l remaining i pv).
Proof using Good_ret Good_bind Good_native Good_Py_DECREF
  Good_PyErr_SetString Good_PyErr_Occurred Good_PyList_SetItem.
  intros Hsub. revert i pv.
  induction remaining as [|remaining IH]; intros i pv; cbn.
  { apply Good_ret. }
  apply Good_bind; [apply Good_native|]. intros s.
  unfold blpapi_Element_getValueAsElement. rewrite eval_native.
  destruct (el_getValueAsElement e i) as [sub|] eqn:Es.
  - apply Good_then; [by eapply Hsub|]. intros [v|].
    + apply Good_then; [apply Good_PyList_SetItem|]. intros _. apply IH.
    + apply Good_ERROR_label.
  - apply Good_then; [apply Good_PyErr_SetString|]. intros _.
    apply Good_ERROR_label.
Qed.

Lemma Good_arrayElementToPy e :
  (∀ j sub, el_getValueAsElement e j = Some sub →
            Good _ (blpapi_Element_toPy sub)) →
  Good _ (arrayElementToPy blpapi_Element_toPy e).
Proof using Good_ret Good_bind Good_native Good_getScalarValue Good_Py_DECREF
  Good_PyErr_SetString Good_PyErr_Occurred Good_new_object Good_PyList_SetItem.
  intros Hsub. unfold arrayElementToPy.
  apply Good_then; [apply Good_native|]. intros n.
  apply Good_then; [apply Good_new_object|]. intros pyList.
  apply Good_then; [apply Good_native|]. intros d.
  apply Good_then; [apply Good_native|]. intros t.
  destruct pyList as [l|]; [|apply Good_ERROR_label].
  apply Good_then; [apply Good_native|]. intros [|].
  - by apply Good_complex_loop.
  - apply Good_scalar_loop.
Qed.

Lemma Good_complexElementToPy_loop e d remaining i pv :
  (∀ j sub, el_getElementAt e j = Some sub →
            Good _ (blpapi_Element_toPy sub)) →
  Good _ (complexElementToPy_loop blpapi_Element_toPy e d remaining i pv).
Proof using Good_ret Good_bind Good_native Good_Py_DECREF
  Good_PyErr_SetString Good_PyErr_Occurred Good_PyDict_SetItemString.
  intros Hsub. revert i pv.
  induction remaining as [|remaining IH]; intros i pv; cbn.
  { apply Good_then; [apply Good_native|]. intros _. apply Good_ret. }
  apply Good_then; [apply Good_native|]. intros _.
  apply Good_bind; [apply Good_native|]. intros s.
  unfold blpapi_Element_getElementAt. rewrite eval_native.
  destruct (el_getElementAt e i) as [sub|] eqn:Es.
  - apply Good_then; [apply Good_native|]. intros name.
    apply Good_then; [by eapply Hsub|]. intros [v|];
      [|apply Good_ERROR_label].
    apply Good_then; [apply Good_PyDict_SetItemString|]. intros status.
    destruct (status =? 0)%Z; [|apply Good_ERROR_label].
    apply Good_then; [apply Good_Py_DECREF|]. intros _. apply IH.
  - apply Good_then; [apply Good_PyErr_SetString|]. intros _.
    apply Good_ERROR_label.
Qed.

(** The induction: a property of programs that [ret] has, that [bind]
    keeps, and that the calls of the converters have, is a property of the
    conversion of every element. *)
Lemma Good_blpapi_Element_toPy e : Good _ (blpapi_Element_toPy e).
Proof using All.
  induction e as [e IHv IHs] using blpapi_Element_induction.
  rewrite blpapi_Element_toPy_unfold.
  apply Good_then; [apply Good_native|]. intros [|].
  { unfold complexElementToPy.
    apply Good_then; [apply Good_new_object|]. intros [d|].
    - by apply Good_complexElementToPy_loop.
    - apply Good_ERROR_label. }
  apply Good_then; [apply Good_native|]. intros [|].
  { by apply Good_arrayElementToPy. }
  apply Good_then; [apply Good_native|]. intros [|].
  - apply Good_then; [apply Good_Py_INCREF|]. intros _. apply Good_ret.
  - apply Good_getScalarValue.
Qed.
End along_a_conversion.

Section along_getScalarValue.
Variable Good : ∀ A : Type, M A → Prop.
Hypothesis Good_ret : ∀ (A : Type) (a : A), Good A (ret a).
Hypothesis Good_then : ∀ (A B : Type) (m : M A) (k : A → M B),
  Good A m → (∀ a, Good B (k a)) → Good B (bind m k).
Hypothesis Good_native : ∀ (A : Type) e c (a : A), Good A (native e c a).
Hypothesis Good_Py_INCREF : ∀ l, Good _ (Py_INCREF l).
Hypothesis Good_Py_DECREF : ∀ l, Good _ (Py_DECREF l).
Hypothesis Good_PyErr_SetString : ∀ exc msg, Good _ (PyErr_SetString exc msg).
Hypothesis Good_new_object : ∀ b, Good _ (new_object b).
Hypothesis Good_PyImport_ImportModule :
  ∀ name, Good _ (PyImport_ImportModule name).
Hypothesis Good_PyObject_GetAttr : ∀ o name, Good _ (PyObject_GetAttr o name).
Hypothesis Good_PyObject_CallFunction :
  ∀ f args, Good _ (PyObject_CallFunction f args).
Hypothesis Good_get_convertToPyTime : Good _ get_convertToPyTime.
Hypothesis Good_set_blpapiDatetimeModule :
  ∀ p, Good _ (modify (set_blpapiDatetimeModule p)).
Hypothesis Good_set_datetimeUtil : ∀ p, Good _ (modify (set_datetimeUtil p)).
Hypothesis Good_set_convertToPyTime :
  ∀ p, Good _ (modify (set_convertToPyTime p)).

Lemma Good_raise exc msg :
  Good _ (PyErr_SetString exc msg ;;; ret (@NULL loc)).
Proof using Good_ret Good_then Good_PyErr_SetString.
  apply Good_then; [apply Good_PyErr_SetString|]. intros _. apply Good_ret.
Qed.

Lemma Good_initialize_static_variables : Good _ initialize_static_variables.
Proof using Good_ret Good_then Good_Py_DECREF Good_PyErr_SetString
  Good_new_object Good_PyImport_ImportModule Good_PyObject_GetAttr
  Good_set_blpapiDatetimeModule Good_set_datetimeUtil Good_set_convertToPyTime.
  unfold initialize_static_variables.
  apply Good_then; [apply Good_PyImport_ImportModule|]. intros m.
  apply Good_then; [apply Good_set_blpapiDatetimeModule|]. intros _.
  destruct m as [module|].
  2: { apply Good_then; [apply Good_PyErr_SetString|]. intros _.
       apply Good_ret. }
  apply Good_then; [apply Good_new_object|]. intros name.
  apply Good_then; [apply Good_PyObject_GetAttr|]. intros u.
  apply Good_then; [apply Good_set_datetimeUtil|]. intros _.
  destruct u as [util|].
  2: { apply Good_then; [apply Good_Py_DECREF|]. intros _.
       apply Good_then; [apply Good_PyErr_SetString|]. intros _.
       apply Good_ret. }
  apply Good_then; [apply Good_new_object|]. intros name'.
  apply Good_then; [apply Good_PyObject_GetAttr|]. intros c.
  apply Good_then; [apply Good_set_convertToPyTime|]. intros _.
  destruct c as [f|]; [apply Good_ret|].
  apply Good_then; [apply Good_Py_DECREF|]. intros _.
  apply Good_then; [apply Good_Py_DECREF|]. intros _.
  apply Good_then; [apply Good_PyErr_SetString|]. intros _.
  apply Good_ret.
Qed.

Lemma Good_getScalarValue_datetime e i : Good _ (getScalarValue_datetime e i).
Proof using All.
  unfold getScalarValue_datetime.
  apply Good_then; [apply Good_get_convertToPyTime|]. intros cached.
  apply Good_then.
  { destruct cached; [apply Good_ret|apply Good_initialize_static_variables]. }
  intros [|]; [|apply Good_ret].
  apply Good_then; [apply Good_native|]. intros [v|]; [|apply Good_raise].
  destruct (parts (datetime v) =? 0)%Z.
  { apply Good_then; [apply Good_Py_INCREF|]. intros _. apply Good_ret. }
  apply Good_then; [apply Good_get_convertToPyTime|]. intros [f|].
  - apply Good_PyObject_CallFunction.
  - apply Good_ret.
Qed.

(** The scalar converter, from the calls it makes and the date/time
    conversion. *)
Lemma Good_getScalarValue_around e i :
  (∀ e' i', Good _ (getScalarValue_datetime e' i')) →
  Good _ (getScalarValue e i).
Proof using Good_ret Good_then Good_native Good_Py_INCREF Good_PyErr_SetString
  Good_new_object.
  intros Hdatetime. unfold getScalarValue.
  apply Good_then; [apply Good_native|]. intros datatype.
  destruct datatype;
    try apply Hdatetime; try apply Good_raise;
    (apply Good_then; [apply Good_native|]; intros [v|];
     [|apply Good_raise]);
    first [apply Good_new_object
          |apply Good_then; [apply Good_Py_INCREF|]; intros _; apply Good_ret].
Qed.

Lemma Good_of_getScalarValue e i : Good _ (getScalarValue e i).
Proof using All.
  apply Good_getScalarValue_around. apply Good_getScalarValue_datetime.
Qed.
End along_getScalarValue.

(** ** What a conversion leaves alone *)

Lemma silent_refl s : silent s s.
Proof. by split_and!. Qed.

Lemma silent_trans s1 s2 s3 : silent s1 s2 → silent s2 s3 → silent s1 s3.
Proof.
  intros (G1 & M1 & Y1 & C1 & N1 & T1) (G2 & M2 & Y2 & C2 & N2 & T2).
  split_and!; [congruence|congruence|congruence|congruence|lia|congruence].
Qed.

Lemma silent_outside_heap s s' : outside_heap s' = outside_heap s → silent s s'.
Proof.
  intros H. destruct (outside_heap_fields _ _ H)
    as (E1 & _ & E2 & _ & _ & E6 & E3 & E4 & E5).
  split_and!; [done|done|done|done|lia|done].
Qed.

Lemma silent_set_err e s : silent s (set_err e s).
Proof. by split_and!. Qed.

Lemma silent_set_heap f s : silent s (set_heap f s).
Proof. by split_and!. Qed.

Lemma silent_add_fault l s : silent s (add_fault l s).
Proof. by split_and!. Qed.

Lemma silent_Py_INCREF l s : silent s (exec (Py_INCREF l) s).
Proof. apply silent_outside_heap, Py_INCREF_outside_heap. Qed.

Lemma silent_Py_DECREF l s : silent s (exec (Py_DECREF l) s).
Proof. apply silent_outside_heap, Py_DECREF_outside_heap. Qed.

Lemma silent_Py_XDECREF o s : silent s (exec (Py_XDECREF o) s).
Proof. apply silent_outside_heap, Py_XDECREF_outside_heap. Qed.

Lemma silent_new_object b s : silent s (exec (new_object b) s).
Proof. split_and!; try done. cbn. lia. Qed.

Lemma silent_PyList_SetItem l i v s : silent s (exec (PyList_SetItem l i v) s).
Proof.
  unfold exec, PyList_SetItem.
  assert (Hfail : ∀ exc msg,
            silent s (snd ((Py_DECREF v ;;; PyErr_SetString exc msg) s))).
  { intros exc msg. change (silent s (exec (Py_DECREF v ;;;
                                       PyErr_SetString exc msg) s)).
    rewrite exec_bind, exec_PyErr_SetString.
    eapply silent_trans; [apply silent_Py_DECREF|].
    apply silent_set_err. }
  destruct (heap s !! l) as [[n []]|]; cbn [snd]; try apply Hfail;
    [|apply silent_add_fault].
  destruct (items !! i) as [old|]; cbn [snd]; [|apply Hfail].
  eapply silent_trans; [|apply silent_Py_XDECREF].
  apply silent_set_heap.
Qed.

Lemma silent_PyDict_SetItemString d k v s :
  silent s (exec (PyDict_SetItemString d k v) s).
Proof.
  unfold exec, PyDict_SetItemString.
  destruct (heap s !! d) as [[n []]|]; cbn [snd];
    try apply silent_set_err; [|apply silent_add_fault].
  eapply silent_trans; [|apply silent_Py_XDECREF].
  eapply silent_trans; [|apply silent_set_heap].
  apply silent_Py_INCREF.
Qed.

(** A call of a Python function adds its own event and nothing else. *)
Lemma silent_PyObject_CallFunction f args s :
  silent (log (Call f args) s) (exec (PyObject_CallFunction f args) s).
Proof.
  unfold exec. rewrite PyObject_CallFunction_run.
  destruct (callable_at s f) as [g|]; [|apply silent_set_err].
  destruct (g args); cbn [snd]; [apply silent_set_err|].
  apply silent_new_object.
Qed.

Lemma silent_PyImport_ImportModule name s :
  silent (log (Import name) s) (exec (PyImport_ImportModule name) s).
Proof.
  unfold PyImport_ImportModule. rewrite exec_bind, exec_modify.
  unfold exec. destruct (sys_modules (log (Import name) s) !! name); cbn [snd].
  - apply silent_Py_INCREF.
  - apply silent_set_err.
Qed.

Lemma silent_PyObject_GetAttr o name s :
  silent s (exec (PyObject_GetAttr o name) s)
  ∨ ∃ attr, silent (log (GetAttr o attr) s) (exec (PyObject_GetAttr o name) s).
Proof.
  unfold exec, PyObject_GetAttr.
  destruct (name ≫= _) as [[n []]|]; cbn [snd];
    try (left; apply silent_set_err).
  right.
  lazymatch goal with
  | |- context [GetAttr o ?a] => exists a; set (s1 := log (GetAttr o a) s)
  end.
  destruct (heap s1 !! o) as [[n' []]|]; cbn [snd];
    try apply silent_set_err.
  destruct (attrs !! _); cbn [snd].
  - apply silent_Py_INCREF.
  - apply silent_set_err.
Qed.

Lemma untouched_refl s : untouched s s.
Proof. split_and!; try done. exists []. by rewrite app_nil_r. Qed.

Lemma untouched_trans s1 s2 s3 :
  untouched s1 s2 → untouched s2 s3 → untouched s1 s3.
Proof.
  intros (G1 & M1 & Y1 & N1 & n1 & T1) (G2 & M2 & Y2 & N2 & n2 & T2).
  split_and!; [congruence|congruence|congruence|lia|].
  exists (n1 ++ n2). by rewrite T2, T1, app_assoc.
Qed.

Lemma untouched_silent s s' : silent s s' → untouched s s'.
Proof.
  intros (G & Mm & Y & _ & N & T). split_and!; try done.
  exists []. by rewrite T, app_nil_r.
Qed.

Lemma untouched_log ev s : untouched s (log ev s).
Proof. split_and!; try done. by exists [ev]. Qed.

Lemma untouched_logged ev s s' : silent (log ev s) s' → untouched s s'.
Proof.
  intros H. eapply untouched_trans; [apply (untouched_log ev)|].
  by apply untouched_silent.
Qed.

(** X8: a conversion, whether it succeeds or fails, leaves the lock, the
    native handles and the loaded modules as they are, never gives out an
    address below the allocation pointer it started from, and only adds to
    the trace of calls. *)
Theorem conversion_frame element st :
  let st' := exec (blpapi_Element_toPy element) st in
  gil st' = gil st ∧ native_mem st' = native_mem st
  ∧ sys_modules st' = sys_modules st
  ∧ next_loc st ≤ next_loc st'
  ∧ ∃ new, trace st' = trace st ++ new.
Proof.
  cbv zeta. revert st.
  set (Good := fun (A : Type) (m : M A) => ∀ s, untouched s (exec m s)).
  assert (Good_ret : ∀ (A : Type) (a : A), Good A (ret a)).
  { intros A a s. apply untouched_refl. }
  assert (Good_then : ∀ (A B : Type) (m : M A) (k : A → M B),
            Good A m → (∀ a, Good B (k a)) → Good B (bind m k)).
  { intros A B m k Hm Hk s. rewrite exec_bind.
    eapply untouched_trans; [apply Hm|apply Hk]. }
  assert (Good_native : ∀ (A : Type) e c (a : A), Good A (native e c a)).
  { intros A e c a s. apply untouched_log. }
  assert (Good_field : ∀ f : State → State,
            (∀ s, gil (f s) = gil s ∧ native_mem (f s) = native_mem s
                  ∧ sys_modules (f s) = sys_modules s
                  ∧ next_loc (f s) = next_loc s ∧ trace (f s) = trace s) →
            Good _ (modify f)).
  { intros f Hf s. destruct (Hf s) as (G & Mm & Y & N & T).
    split_and!; try done; [by rewrite exec_modify, N|].
    exists []. by rewrite exec_modify, T, app_nil_r. }
  change (Good _ (blpapi_Element_toPy element)).
  apply Good_blpapi_Element_toPy; try done.
  - intros A B m k Hm Hk s. rewrite exec_bind.
    eapply untouched_trans; [apply Hm|apply Hk].
  - intros e i. apply Good_of_getScalarValue; try done.
    + intros l s. apply untouched_silent, silent_Py_INCREF.
    + intros l s. apply untouched_silent, silent_Py_DECREF.
    + intros exc msg s. apply untouched_silent, silent_set_err.
    + intros b s. apply untouched_silent, silent_new_object.
    + intros name s. eapply untouched_logged, silent_PyImport_ImportModule.
    + intros o name s.
      destruct (silent_PyObject_GetAttr o name s) as [H|[attr H]].
      * by apply untouched_silent.
      * by eapply untouched_logged.
    + intros f args s. eapply untouched_logged, silent_PyObject_CallFunction.
    + intros s. apply untouched_refl.
    + intros p. by apply Good_field.
    + intros p. by apply Good_field.
    + intros p. by apply Good_field.
  - intros l s. apply untouched_silent, silent_Py_INCREF.
  - intros l s. apply untouched_silent, silent_Py_DECREF.
  - intros exc msg s. apply untouched_silent, silent_set_err.
  - intros s. apply untouched_refl.
  - intros b s. apply untouched_silent, silent_new_object.
  - intros l i v s. apply untouched_silent, silent_PyList_SetItem.
  - intros d k v s. apply untouched_silent, silent_PyDict_SetItemString.
Qed.

(** X9: the native calls of a conversion are calls on the element it was
    given or on an element that occurs below it: no other element is
    read. *)
Theorem native_calls_below element st :
  ∃ new,
    trace (exec (blpapi_Element_toPy element) st) = trace st ++ new
    ∧ ∀ y call, Native y call ∈ new → within element y.
Proof.
  set (P := fun ev => ∀ y call, ev = Native y call → within element y).
  destruct (emits_blpapi_Element_toPy P) with (e := element) (s := st)
    as (new & Htrace & Hnew).
  - intros ev Hev y call ->. destruct Hev.
  - intros y c Hy y' call [= <- _]. done.
  - exists new. split; [done|]. intros y call Hin.
    rewrite Forall_forall in Hnew. by apply (Hnew _ Hin y call).
Qed.

Lemma quiet_refl f s : quiet f s s.
Proof. split; [done|]. exists []. by rewrite app_nil_r. Qed.

Lemma quiet_trans f s1 s2 s3 : quiet f s1 s2 → quiet f s2 s3 → quiet f s1 s3.
Proof.
  intros (C1 & n1 & T1 & F1) (C2 & n2 & T2 & F2). split; [congruence|].
  exists (n1 ++ n2). split; [by rewrite T2, T1, app_assoc|].
  by apply Forall_app.
Qed.

Lemma quiet_silent f s s' : silent s s' → quiet f s s'.
Proof.
  intros (_ & _ & _ & C & _ & T). split; [done|].
  exists []. by rewrite T, app_nil_r.
Qed.

Lemma quiet_logged f ev s s' :
  cached_event f ev → silent (log ev s) s' → quiet f s s'.
Proof.
  intros Hev (_ & _ & _ & C & _ & T). split; [done|].
  exists [ev]. split; [done|]. by constructor.
Qed.

(** X10: once the time helper is cached, the conversion of any element,
    whether it succeeds or fails, keeps it cached and resolves nothing: it
    imports no module and reads no attribute, and the only Python function
    it calls is the cached helper. *)
Theorem cached_helper_conversion element st f :
  convertToPyTime st = Some f →
  let st' := exec (blpapi_Element_toPy element) st in
  convertToPyTime st' = Some f
  ∧ ∃ new,
      trace st' = trace st ++ new
      ∧ ∀ ev, ev ∈ new →
              ¬ is_lookup ev ∧ ∀ c args, ev = Call c args → c = f.
Proof.
  intros Hcached. cbv zeta.
  set (Good := fun (A : Type) (m : M A) =>
                 ∀ s, convertToPyTime s = Some f → quiet f s (exec m s)).
  assert (Good_ret : ∀ (A : Type) (a : A), Good A (ret a)).
  { intros A a s _. apply quiet_refl. }
  assert (Good_bind : ∀ (A B : Type) (m : M A) (k : A → M B),
            Good A m → (∀ s, Good B (k (eval m s))) → Good B (bind m k)).
  { intros A B m k Hm Hk s Hs. rewrite exec_bind.
    eapply quiet_trans; [by apply Hm|]. apply Hk.
    destruct (Hm s Hs) as [-> _]. done. }
  assert (Good_then : ∀ (A B : Type) (m : M A) (k : A → M B),
            Good A m → (∀ a, Good B (k a)) → Good B (bind m k)).
  { intros A B m k Hm Hk. apply Good_bind; [done|]. intros s. apply Hk. }
  assert (Good_native : ∀ (A : Type) e c (a : A), Good A (native e c a)).
  { intros A e c a s _. apply (quiet_logged f (Native e c)); [done|].
    apply silent_refl. }
  assert (Good_silent : ∀ (A : Type) (m : M A),
            (∀ s, silent s (exec m s)) → Good A m).
  { intros A m Hm s _. apply quiet_silent, Hm. }
  assert (Hgood : Good _ (blpapi_Element_toPy element)).
  { apply Good_blpapi_Element_toPy; try done.
    - intros e i. apply Good_getScalarValue_around; try done.
      + intros l. apply Good_silent, silent_Py_INCREF.
      + intros exc msg. apply Good_silent. intros s. apply silent_set_err.
      + intros b. apply Good_silent, silent_new_object.
      + clear. intros e i s Hs. unfold exec.
        rewrite (getScalarValue_datetime_cached e i f) by done. cbv zeta.
        set (ev := Native e (N_getValueAsHighPrecisionDatetime i)).
        assert (Hev : quiet f s (log ev s)).
        { apply (quiet_logged f ev); [done|apply silent_refl]. }
        eapply quiet_trans; [exact Hev|].
        destruct (el_getValueAsHighPrecisionDatetime e i) as [v|]; cbn [snd].
        2: { apply quiet_silent, silent_set_err. }
        destruct (parts (datetime v) =? 0)%Z; cbn [snd].
        { apply quiet_silent, silent_Py_INCREF. }
        eapply quiet_logged, silent_PyObject_CallFunction. done.
    - intros l. apply Good_silent, silent_Py_INCREF.
    - intros l. apply Good_silent, silent_Py_DECREF.
    - intros exc msg. apply Good_silent. intros s. apply silent_set_err.
    - apply Good_silent. intros s. apply silent_refl.
    - intros b. apply Good_silent, silent_new_object.
    - intros l i v. apply Good_silent, silent_PyList_SetItem.
    - intros d k v. apply Good_silent, silent_PyDict_SetItemString. }
  destruct (Hgood st Hcached) as (Hc & new & Htrace & Hnew).
  split; [congruence|]. exists new. split; [done|].
  intros ev Hin. rewrite Forall_forall in Hnew. specialize (Hnew ev Hin).
  split; [destruct ev; cbn in Hnew |- *; tauto|].
  intros c args' ->. exact Hnew.
Qed.

(** ** One conversion after another *)

(** X11: conversions compose.  When two elements have values, converting
    the first and then the second from a state in which a conversion may
    start succeeds twice and leaves such a state again; the second
    conversion does not disturb the result of the first: after both, each
    result holds its value in the addresses its own conversion allocated,
    and the caller owns one reference to each. *)
Theorem conversions_compose base st e1 e2 v1 v2 :
  well_formed base st →
  toPy_value (helper_of st) e1 = Some v1 →
  toPy_value (helper_of st) e2 = Some v2 →
  let st1 := exec (blpapi_Element_toPy e1) st in
  let st2 := exec (blpapi_Element_toPy e2) st1 in
  ∃ l1 l2,
    eval (blpapi_Element_toPy e1) st = Some l1
    ∧ eval (blpapi_Element_toPy e2) st1 = Some l2
    ∧ well_formed base st2
    ∧ repr (heap st2) (next_loc st) (next_loc st1) l1 v1
    ∧ repr (heap st2) (next_loc st1) (next_loc st2) l2 v2
    ∧ (l1 < 3 ∨ refcount st2 l1 = Some 1%Z)
    ∧ (l2 < 3 ∨ refcount st2 l2 = Some 1%Z).
Proof.
  intros Hwf Hv1 Hv2. cbv zeta.
  pose proof (blpapi_Element_toPy_refines base e1 st Hwf) as H1.
  rewrite Hv1 in H1. destruct H1 as (l1 & Hl1 & C1).
  set (st1 := exec (blpapi_Element_toPy e1) st) in *.
  pose proof (ev_wf _ _ _ _ (cv_evolves _ _ _ _ _ C1)) as Hwf1.
  pose proof (blpapi_Element_toPy_refines base e2 st1 Hwf1) as H2.
  rewrite (ev_helper _ _ _ _ (cv_evolves _ _ _ _ _ C1)), Hv2 in H2.
  destruct H2 as (l2 & Hl2 & C2).
  set (st2 := exec (blpapi_Element_toPy e2) st1) in *.
  pose proof (cv_evolves _ _ _ _ _ C2) as E2.
  assert (Hkept : ∀ x, next_loc st ≤ x < next_loc st1 →
                       heap st2 !! x = heap st1 !! x).
  { intros x Hx. apply (ev_frame _ _ _ _ E2).
    pose proof (wf_base _ _ Hwf). lia. }
  exists l1, l2. split_and!; try done.
  - apply E2.
  - eapply repr_frame; [exact Hkept|apply C1].
  - apply C2.
  - destruct (cv_count _ _ _ _ _ C1) as [?|Hc]; [by left|].
    destruct (repr_address _ _ _ _ _ (cv_repr _ _ _ _ _ C1)) as [?|Hr];
      [by left|right].
    unfold refcount in *. by rewrite Hkept.
  - apply C2.
Qed.

Lemma conversions_compose_sample :
  let e1 := record_element "r" 2 [int64_field "X" 1; int64_field "Y" 2] in
  let e2 := datetime_field "t" sample_timestamp in
  let st1 := exec (blpapi_Element_toPy e1) interpreter in
  let st2 := exec (blpapi_Element_toPy e2) st1 in
  well_formed 6 interpreter
  ∧ ∃ l1 l2,
      eval (blpapi_Element_toPy e1) interpreter = Some l1
      ∧ eval (blpapi_Element_toPy e2) st1 = Some l2
      ∧ repr (heap st2) (next_loc interpreter) (next_loc st1) l1
          (V_Dict {[ "X" := V_Long 1; "Y" := V_Long 2 ]})
      ∧ (l1 < 3 ∨ refcount st2 l1 = Some 1%Z).
Proof.
  cbv zeta. split; [exact interpreter_well_formed|].
  destruct (conversions_compose 6 interpreter
              (record_element "r" 2 [int64_field "X" 1; int64_field "Y" 2])
              (datetime_field "t" sample_timestamp)
              (V_Dict {[ "X" := V_Long 1; "Y" := V_Long 2 ]})
              (V_Temporal [255; 0; 2024; 2; 29; 12; 30; 45; 123500]%Z)
              interpreter_well_formed)
    as (l1 & l2 & H1 & H2 & _ & R1 & _ & N1 & _);
    [by vm_compute|by vm_compute|].
  exists l1, l2. by split_and!.
Defined.

(** ** The names of the lookups *)

Lemma initialize_static_variables_found st m u c :
  heap_bounded st →
  sys_modules st !! "blpapi.datetime" = Some m →
  namespace_attr st m "_DatetimeUtil" = Some u →
  namespace_attr st u "toPyTimeFromInts" = Some c →
  exec initialize_static_variables st
  = set_convertToPyTime (Some c)
      (exec (Py_INCREF c)
         (log (GetAttr u "toPyTimeFromInts")
            (exec (PyUnicode_FromString "toPyTimeFromInts")
               (set_datetimeUtil (Some u)
                  (exec (Py_INCREF u)
                     (log (GetAttr m "_DatetimeUtil")
                        (exec (PyUnicode_FromString "_DatetimeUtil")
                           (set_blpapiDatetimeModule (Some m)
                              (exec (Py_INCREF m)
                                 (log (Import "blpapi.datetime") st)))))))))).
Proof.
  intros Hb Hm Hu Hc. unfold initialize_static_variables.
  rewrite exec_bind, eval_PyImport_ImportModule, exec_PyImport_ImportModule, Hm.
  autorewrite with run.
  set (s1 := set_blpapiDatetimeModule (Some m)
               (exec (Py_INCREF m) (log (Import "blpapi.datetime") st))).
  assert (B1 : heap_bounded s1).
  { apply (heap_bounded_fields (exec (Py_INCREF m)
                                  (log (Import "blpapi.datetime") st)));
      [done|done|]. apply heap_bounded_Py_INCREF.
    by apply (heap_bounded_fields st). }
  assert (A1 : ∀ o a, namespace_attr s1 o a = namespace_attr st o a).
  { intros o a. unfold s1.
    change (namespace_attr (exec (Py_INCREF m)
                              (log (Import "blpapi.datetime") st)) o a
            = namespace_attr st o a).
    by rewrite namespace_attr_Py_INCREF. }
  rewrite (eval_GetAttr_fresh_name m "_DatetimeUtil" s1) by done.
  rewrite (exec_GetAttr_fresh_name m "_DatetimeUtil" s1) by done.
  rewrite A1, Hu. autorewrite with run.
  set (s2 := set_datetimeUtil (Some u) _).
  assert (B2 : heap_bounded s2).
  { apply (heap_bounded_fields
             (exec (Py_INCREF u)
                (log (GetAttr m "_DatetimeUtil")
                   (exec (PyUnicode_FromString "_DatetimeUtil") s1))));
      [done|done|]. apply heap_bounded_Py_INCREF.
    apply (heap_bounded_fields
             (exec (PyUnicode_FromString "_DatetimeUtil") s1)); [done|done|].
    by apply heap_bounded_new_object. }
  assert (A2 : ∀ o a, namespace_attr s2 o a = namespace_attr st o a).
  { intros o a. unfold s2.
    change (namespace_attr
              (exec (Py_INCREF u)
                 (log (GetAttr m "_DatetimeUtil")
                    (exec (PyUnicode_FromString "_DatetimeUtil") s1))) o a
            = namespace_attr st o a).
    rewrite namespace_attr_Py_INCREF.
    change (namespace_attr (exec (new_object (PyUnicode "_DatetimeUtil")) s1)
              o a = namespace_attr st o a).
    by rewrite namespace_attr_new_object, A1. }
  rewrite (eval_GetAttr_fresh_name u "toPyTimeFromInts" s2) by done.
  rewrite (exec_GetAttr_fresh_name u "toPyTimeFromInts" s2) by done.
  rewrite A2, Hc. by autorewrite with run.
Qed.

(** X12: a helper resolution does not release the two attribute-name
    strings it creates for its lookups: when it has found the helper, both
    strings are still in the heap, each with the one reference it was
    created with, at the two addresses the resolution allocated. *)
Theorem lookup_names_not_released base st f :
  well_formed base st →
  resolve_helper st = Some f →
  let st' := exec initialize_static_variables st in
  next_loc st' = S (S (next_loc st))
  ∧ heap st' !! next_loc st
    = Some {| ob_refcnt := 1; ob_body := PyUnicode "_DatetimeUtil" |}
  ∧ heap st' !! S (next_loc st)
    = Some {| ob_refcnt := 1; ob_body := PyUnicode "toPyTimeFromInts" |}
  ∧ convertToPyTime st' = Some f.
Proof.
  intros Hwf Hres. cbv zeta. pose proof Hres as Hold.
  apply (resolve_helper_old base st f Hwf) in Hold.
  unfold resolve_helper in Hres.
  destruct (sys_modules st !! "blpapi.datetime") as [m|] eqn:Hm; [|done].
  cbn in Hres.
  destruct (namespace_attr st m "_DatetimeUtil") as [u|] eqn:Hu; [|done].
  cbn in Hres.
  pose proof (wf_modules _ _ Hwf _ _ Hm) as Hmb.
  pose proof (namespace_attr_child base st m _ u Hwf Hmb Hu) as Hub.
  pose proof (wf_base _ _ Hwf) as Hbase.
  rewrite (initialize_static_variables_found st m u f)
    by (done || apply Hwf).
  set (s1 := set_blpapiDatetimeModule (Some m)
               (exec (Py_INCREF m) (log (Import "blpapi.datetime") st))).
  assert (N1 : next_loc s1 = next_loc st).
  { pose proof (outside_heap_fields _ _
                  (Py_INCREF_outside_heap m (log (Import "blpapi.datetime") st)))
      as (Dn & _). exact Dn. }
  set (s2 := set_datetimeUtil (Some u) _).
  assert (N2 : next_loc s2 = S (next_loc st)).
  { unfold s2. cbn [next_loc set_datetimeUtil].
    pose proof (outside_heap_fields _ _
                  (Py_INCREF_outside_heap u
                     (log (GetAttr m "_DatetimeUtil")
                        (exec (PyUnicode_FromString "_DatetimeUtil") s1))))
      as (Dn & _). rewrite Dn.
    change (S (next_loc s1) = S (next_loc st)). by rewrite N1. }
  assert (H2 : heap s2 !! next_loc st
               = Some {| ob_refcnt := 1; ob_body := PyUnicode "_DatetimeUtil" |}).
  { unfold s2. cbn [heap set_datetimeUtil].
    rewrite Py_INCREF_frame by lia.
    change (<[next_loc s1 := {| ob_refcnt := 1;
                                ob_body := PyUnicode "_DatetimeUtil" |}]>
              (heap s1) !! next_loc st = Some
              {| ob_refcnt := 1; ob_body := PyUnicode "_DatetimeUtil" |}).
    by rewrite N1, lookup_insert_eq. }
  split_and!.
  - cbn [next_loc set_convertToPyTime].
    pose proof (outside_heap_fields _ _
                  (Py_INCREF_outside_heap f
                     (log (GetAttr u "toPyTimeFromInts")
                        (exec (PyUnicode_FromString "toPyTimeFromInts") s2))))
      as (Dn & _). rewrite Dn.
    change (S (next_loc s2) = S (S (next_loc st))). by rewrite N2.
  - cbn [heap set_convertToPyTime]. rewrite Py_INCREF_frame by lia.
    change ((<[next_loc s2 := {| ob_refcnt := 1;
                                 ob_body := PyUnicode "toPyTimeFromInts" |}]>
               (heap s2)) !! next_loc st = Some
              {| ob_refcnt := 1; ob_body := PyUnicode "_DatetimeUtil" |}).
    rewrite lookup_insert_ne by lia. exact H2.
  - cbn [heap set_convertToPyTime]. rewrite Py_INCREF_frame by lia.
    change ((<[next_loc s2 := {| ob_refcnt := 1;
                                 ob_body := PyUnicode "toPyTimeFromInts" |}]>
               (heap s2)) !! S (next_loc st) = Some
              {| ob_refcnt := 1; ob_body := PyUnicode "toPyTimeFromInts" |}).
    by rewrite N2, lookup_insert_eq.
  - done.
Qed.

Lemma lookup_names_not_released_sample :
  well_formed 6 interpreter
  ∧ refcount (exec initialize_static_variables interpreter) 6 = Some 1%Z
  ∧ refcount (exec initialize_static_variables interpreter) 7 = Some 1%Z.
Proof.
  split; [exact interpreter_well_formed|].
  destruct (lookup_names_not_released 6 interpreter 5 interpreter_well_formed)
    as (_ & H1 & H2 & _); [by vm_compute|].
  cbv zeta in H1, H2. unfold refcount.
  change (next_loc interpreter) with 6 in H1, H2.
  by rewrite H1, H2.
Defined.

(** ** Samples *)

Lemma incref_then_destroy_sample :
  let taken := exec (incref (Some 5)) handles in
  refcount taken 5 = Some 2%Z
  ∧ managerFunc 1 (-1) 100 0 (-1) taken = (Some 0%Z, handles).
Proof.
  cbv zeta. split; [by vm_compute|].
  assert (Hops : (1 ≠ -1)%Z) by lia.
  assert (Hh : native_mem handles !! 100%Z
               = Some {| pointer := Some 5; manager := 7777 |})
    by (vm_compute; reflexivity).
  assert (Hobj : heap handles !! 5
                 = Some {| ob_refcnt := 1; ob_body := PyFunction inr |})
    by (vm_compute; reflexivity).
  assert (Hlive : (1 ≤ 1)%Z) by lia.
  exact (incref_then_destroy 1 (-1) handles 100 _ 5 _ Hops Hh eq_refl Hobj Hlive).
Defined.

Lemma managerFunc_frame_sample :
  let st' := exec (managerFunc 1 (-1) 200 100 1) handles in
  native_mem st' !! 300%Z = native_mem handles !! 300%Z
  ∧ native_mem st' !! 100%Z = native_mem handles !! 100%Z
  ∧ gil st' = gil handles
  ∧ sub_heap (heap st') (heap handles).
Proof.
  cbv zeta.
  assert (Hm : is_Some (native_mem handles !! 200%Z)) by (vm_compute; eauto).
  assert (Hs : (1 = 1)%Z → is_Some (native_mem handles !! 100%Z))
    by (intros _; vm_compute; eauto).
  pose proof (managerFunc_frame 1 (-1) handles 200 100 1 Hm Hs) as H.
  cbv zeta in H. destruct H as (Hg & _ & _ & _ & Ha & _ & Hsub).
  split_and!; [apply Ha; lia|apply Ha; lia|exact Hg|exact Hsub].
Defined.

Lemma destroy_last_reference_sample :
  let destroy := ManagedPtr_destroy 1 (-1) 100 in
  refcount handles 5 = Some 1%Z
  ∧ exec destroy handles = set_heap (delete 5) handles
  ∧ faults (exec destroy (exec destroy handles)) = [5].
Proof.
  cbv zeta. split; [by vm_compute|].
  assert (Hops : (1 ≠ -1)%Z) by lia.
  assert (Hh : native_mem handles !! 100%Z
               = Some {| pointer := Some 5; manager := 7777 |})
    by (vm_compute; reflexivity).
  assert (Hobj : heap handles !! 5
                 = Some {| ob_refcnt := 1; ob_body := PyFunction inr |})
    by (vm_compute; reflexivity).
  pose proof (destroy_last_reference 1 (-1) handles 100 _ 5 _
                Hops Hh eq_refl Hobj eq_refl) as H.
  cbv zeta in H. destruct H as (_ & _ & _ & Hleaf & Hagain).
  split; [by apply Hleaf|]. rewrite Hagain, (Hleaf eq_refl). reflexivity.
Defined.

Lemma copy_inherits_manager_sample :
  let copy := ManagedPtr_copy 1 (-1) 200 100 in
  eval (is_known_obj 7777 200) handles = Some 0%Z
  ∧ eval (is_known_obj 7777 200) (exec copy handles) = Some 1%Z
  ∧ native_mem (exec copy handles) !! 100%Z
    = Some {| pointer := Some 5; manager := 7777 |}.
Proof.
  cbv zeta. split; [by vm_compute|].
  assert (Hs : native_mem handles !! 100%Z
               = Some {| pointer := Some 5; manager := 7777 |})
    by (vm_compute; reflexivity).
  assert (Hd : is_Some (native_mem handles !! 200%Z)) by (vm_compute; eauto).
  pose proof (copy_inherits_manager 1 (-1) 7777 handles 200 100 _ Hs Hd) as H.
  cbv zeta in H. destruct H as (Hknown & _ & _ & Hsrc & _).
  split; [|exact Hsrc]. rewrite Hknown. by vm_compute.
Defined.

Lemma cached_helper_conversion_sample :
  let st := set_convertToPyTime (Some 5) interpreter in
  let e := record_element "r" 2 [datetime_field "t" sample_timestamp;
                                 datetime_field "u" sample_timestamp] in
  convertToPyTime st = Some 5
  ∧ convertToPyTime (exec (blpapi_Element_toPy e) st) = Some 5
  ∧ ∀ name, Import name ∉ trace (exec (blpapi_Element_toPy e) st).
Proof.
  cbv zeta. split; [reflexivity|].
  pose proof (cached_helper_conversion
                (record_element "r" 2 [datetime_field "t" sample_timestamp;
                                       datetime_field "u" sample_timestamp])
                (set_convertToPyTime (Some 5) interpreter) 5 eq_refl) as H.
  cbv zeta in H. destruct H as (Hc & new & Htrace & Hnew).
  split; [exact Hc|]. intros name. rewrite Htrace.
  change (trace (set_convertToPyTime (Some 5) interpreter)) with (@nil Event).
  intros Hin. by destruct (Hnew _ Hin) as [Hl _].
Defined.
